(** * JellyNotify web client: telemetry queue and instrumented API client

    A shallow embedding of [web/src/services/logger.js] (the [ClientLogger]
    class) and [web/src/services/api.js] (the axios interceptors), together
    with the properties of the specification that concern them.

    JavaScript values are a small tree type, objects are association lists
    in insertion order, the browser (clock, location, storage, console,
    network) is explicit state or an explicit input of every handler turn,
    and an [async] function is cut at its [await]s into the part that runs
    before the suspension and the part that runs when the awaited promise
    settles. *)

From Stdlib Require Import ZArith List String Ascii Bool Lia DecimalString.
From stdpp Require Import base option list gmap strings.
Import ListNotations.

Set Warnings "-register-all".
Local Open Scope string_scope.
Local Open Scope list_scope.

(** ** JavaScript values *)

Module JS.

Inductive JVal : Type :=
| JUndefined
| JNull
| JBool (b : bool)
| JNum (n : Z)
| JStr (s : string)
| JArr (xs : list JVal)
| JObj (fields : list (string * JVal)).

(** [typeof v === 'object'] : null, arrays and plain objects. *)
Definition is_object (v : JVal) : bool :=
  match v with
  | JNull | JArr _ | JObj _ => true
  | _ => false
  end.

(** [Array.isArray(v)] *)
Definition isArray (v : JVal) : bool :=
  match v with JArr _ => true | _ => false end.

(** JavaScript truthiness, as used by [||], [!] and [if]. *)
Definition truthy (v : JVal) : bool :=
  match v with
  | JUndefined | JNull => false
  | JBool b => b
  | JNum n => negb (n =? 0)%Z
  | JStr s => negb (String.eqb s EmptyString)
  | JArr _ | JObj _ => true
  end.

(** [a || b] *)
Definition or_else (a b : JVal) : JVal := if truthy a then a else b.

Fixpoint assoc (k : string) (fs : list (string * JVal)) : JVal :=
  match fs with
  | [] => JUndefined
  | (k', v) :: r => if String.eqb k k' then v else assoc k r
  end.

(** Optional property read [v?.k]: undefined on undefined and null, and on
    values that have no such own property. *)
Definition get (v : JVal) (k : string) : JVal :=
  match v with
  | JObj fs => assoc k fs
  | _ => JUndefined
  end.

(** [{...a, k: v}] and [o[k] = v] on an association list: an existing key
    keeps its position, a new key goes last. *)
Fixpoint set_field (k : string) (v : JVal) (fs : list (string * JVal))
  : list (string * JVal) :=
  match fs with
  | [] => [(k, v)]
  | (k', v') :: r =>
      if String.eqb k k' then (k, v) :: r else (k', v') :: set_field k v r
  end.

(** [Object.assign(target, source)] *)
Definition Object_assign (target source : list (string * JVal))
  : list (string * JVal) :=
  fold_left (fun acc kv => set_field (fst kv) (snd kv) acc) source target.

Definition string_of_Z (n : Z) : string := NilZero.string_of_int (Z.to_int n).

Definition upper_ascii (c : ascii) : ascii :=
  let n := nat_of_ascii c in
  if (97 <=? n)%nat && (n <=? 122)%nat then ascii_of_nat (n - 32) else c.

(** [s.toUpperCase()], on the ASCII letters. *)
Fixpoint toUpperCase (s : string) : string :=
  match s with
  | EmptyString => EmptyString
  | String c r => String (upper_ascii c) (toUpperCase r)
  end.

(** [hay.includes(needle)] *)
Fixpoint includes (needle hay : string) : bool :=
  String.prefix needle hay ||
  match hay with
  | EmptyString => false
  | String _ r => includes needle r
  end.

Fixpoint join (sep : string) (parts : list string) : string :=
  match parts with
  | [] => EmptyString
  | [p] => p
  | p :: r => p +:+ sep +:+ join sep r
  end.

Definition hex_digit (n : nat) : ascii :=
  if (n <? 10)%nat then ascii_of_nat (48 + n) else ascii_of_nat (87 + n).

(** One character inside a JSON string literal. *)
Definition escape_ascii (c : ascii) : string :=
  let n := nat_of_ascii c in
  if (n =? 34)%nat then "\" +:+ String c EmptyString
  else if (n =? 92)%nat then "\\"
  else if (n =? 8)%nat then "\b"
  else if (n =? 9)%nat then "\t"
  else if (n =? 10)%nat then "\n"
  else if (n =? 12)%nat then "\f"
  else if (n =? 13)%nat then "\r"
  else if (n <? 32)%nat then
    "\u00"
    +:+ String (hex_digit (n / 16)) (String (hex_digit (n mod 16)) EmptyString)
  else String c EmptyString.

Fixpoint escape (s : string) : string :=
  match s with
  | EmptyString => EmptyString
  | String c r => escape_ascii c +:+ escape r
  end.

Definition quote (s : string) : string :=
  String (ascii_of_nat 34) (escape s +:+ String (ascii_of_nat 34) EmptyString).

Definition nl : string := String (ascii_of_nat 10) EmptyString.

(** [JSON.stringify(v, null, 2)] below a given indentation.  A property
    whose value is undefined is left out of an object; an undefined array
    element prints as null. *)
Fixpoint stringify_at (ind : string) (v : JVal) : string :=
  let ind' := ind +:+ "  " in
  match v with
  | JUndefined => "null"
  | JNull => "null"
  | JBool b => if b then "true" else "false"
  | JNum n => string_of_Z n
  | JStr s => quote s
  | JArr xs =>
      match xs with
      | [] => "[]"
      | _ =>
          "[" +:+ nl +:+ ind'
          +:+ join ("," +:+ nl +:+ ind') (List.map (stringify_at ind') xs)
          +:+ nl +:+ ind +:+ "]"
      end
  | JObj fs =>
      let props :=
        (fix props (fs : list (string * JVal)) : list string :=
           match fs with
           | [] => []
           | (k, w) :: r =>
               match w with
               | JUndefined => props r
               | _ => (quote k +:+ ": " +:+ stringify_at ind' w) :: props r
               end
           end) fs in
      match props with
      | [] => "{}"
      | _ =>
          "{" +:+ nl +:+ ind' +:+ join ("," +:+ nl +:+ ind') props
          +:+ nl +:+ ind +:+ "}"
      end
  end.

Definition JSON_stringify (v : JVal) : string := stringify_at EmptyString v.

(** [JSON.stringify(v)], without indentation. *)
Fixpoint stringify_compact (v : JVal) : string :=
  match v with
  | JUndefined => "null"
  | JNull => "null"
  | JBool b => if b then "true" else "false"
  | JNum n => string_of_Z n
  | JStr s => quote s
  | JArr xs => "[" +:+ join "," (List.map stringify_compact xs) +:+ "]"
  | JObj fs =>
      "{" +:+
      join ","
        ((fix props (fs : list (string * JVal)) : list string :=
            match fs with
            | [] => []
            | (k, w) :: r =>
                match w with
                | JUndefined => props r
                | _ => (quote k +:+ ":" +:+ stringify_compact w) :: props r
                end
            end) fs)
      +:+ "}"
  end.

Definition two_digits (n : Z) : string :=
  if (n <? 10)%Z then "0" +:+ string_of_Z n else string_of_Z n.

(** [d.toFixed(2)] for a duration [d] kept in hundredths of a unit. *)
Definition toFixed2 (hundredths : Z) : string :=
  let a := Z.abs hundredths in
  (if (hundredths <? 0)%Z then "-" else EmptyString)
  +:+ string_of_Z (a / 100) +:+ "." +:+ two_digits (a mod 100).

Definition of_option (o : option string) : JVal :=
  match o with Some x => JStr x | None => JUndefined end.

(** [String(v)], which is also the text a template literal inserts.  An
    array prints its elements separated by commas, null and undefined
    elements as nothing. *)
Fixpoint to_String (v : JVal) : string :=
  match v with
  | JUndefined => "undefined"
  | JNull => "null"
  | JBool b => if b then "true" else "false"
  | JNum n => string_of_Z n
  | JStr s => s
  | JArr xs =>
      join ","
        (List.map (fun x => match x with
                            | JUndefined | JNull => EmptyString
                            | _ => to_String x
                            end) xs)
  | JObj _ => "[object Object]"
  end.

(** [JSON.parse(JSON.stringify(v))] for a value inside an object or an
    array: a property whose value is undefined is gone, an undefined array
    element comes back as null, everything else comes back as it was. *)
Fixpoint through_JSON (v : JVal) : JVal :=
  match v with
  | JArr xs =>
      JArr (List.map (fun x => match x with
                               | JUndefined => JNull
                               | _ => through_JSON x
                               end) xs)
  | JObj fs =>
      JObj ((fix props (fs : list (string * JVal)) : list (string * JVal) :=
               match fs with
               | [] => []
               | (k, w) :: r =>
                   match w with
                   | JUndefined => props r
                   | _ => (k, through_JSON w) :: props r
                   end
               end) fs)
  | _ => v
  end.

(** The values JSON writes as they are: those that hold no undefined. *)
Fixpoint JSON_value (v : JVal) : bool :=
  match v with
  | JUndefined => false
  | JArr xs => forallb JSON_value xs
  | JObj fs => forallb (fun kw => JSON_value (snd kw)) fs
  | _ => true
  end.

End JS.

(** ** The client logger ([web/src/services/logger.js]) *)

Module Logger.
Import JS.

Definition LOG_BATCH_SIZE : nat := 20.
Definition LOG_BATCH_INTERVAL : Z := 5000.
Definition MAX_STORED_LOGS : nat := 100.

(** *** The [loglevel] singleton

    [loglevel] is an external dependency.  What the logger relies on is
    modelled here after the library: it has one current level, and
    [log.setLevel] rebuilds every logging method of the [log] object, as a
    no-op when the method is below the level and as the console's method
    otherwise (loglevel's [replaceLoggingMethods]). *)

Inductive Level : Type := TRACE | DEBUG | INFO | WARN | ERROR | SILENT.

Definition level_rank (l : Level) : nat :=
  match l with
  | TRACE => 0 | DEBUG => 1 | INFO => 2 | WARN => 3 | ERROR => 4 | SILENT => 5
  end.

Definition level_name (l : Level) : string :=
  match l with
  | TRACE => "trace" | DEBUG => "debug" | INFO => "info"
  | WARN => "warn" | ERROR => "error" | SILENT => "silent"
  end.

(** The four methods the logger intercepts. *)
Inductive Method : Type := Mdebug | Minfo | Mwarn | Merror.

Definition method_name (m : Method) : string :=
  match m with
  | Mdebug => "debug" | Minfo => "info" | Mwarn => "warn" | Merror => "error"
  end.

Definition method_rank (m : Method) : nat :=
  match m with
  | Mdebug => 1 | Minfo => 2 | Mwarn => 3 | Merror => 4
  end.

(** A method of [loglevel] itself. *)
Inductive NativeFn : Type := noop | console_fn.

(** What [log[level]] currently holds: a method of the library, or the
    arrow function installed by [setupInterceptors]. *)
Inductive LogFn : Type := Native (f : NativeFn) | Interceptor.

Record Methods (F : Type) : Type := {
  on_debug : F;
  on_info : F;
  on_warn : F;
  on_error : F
}.
Arguments on_debug {F}.
Arguments on_info {F}.
Arguments on_warn {F}.
Arguments on_error {F}.

Definition method_of {F} (ms : Methods F) (m : Method) : F :=
  match m with
  | Mdebug => on_debug ms | Minfo => on_info ms
  | Mwarn => on_warn ms | Merror => on_error ms
  end.

Definition tabulate {F} (f : Method -> F) : Methods F :=
  {| on_debug := f Mdebug; on_info := f Minfo;
     on_warn := f Mwarn; on_error := f Merror |}.

Definition native_method (l : Level) (m : Method) : NativeFn :=
  if (method_rank m <? level_rank l)%nat then noop else console_fn.

(** *** Data *)

Record LogEntry : Type := {
  timestamp : string;
  level : string;
  entry_sessionId : string;
  url : string;
  message : string;
  metadata : list (string * JVal);
  entry_userAgent : string
}.

(** The body posted to [/api/logs/client]. *)
Record Payload : Type := {
  logs : list LogEntry;
  payload_sessionId : string;
  payload_timestamp : string
}.

Inductive Channel : Type := ViaFetch | ViaBeacon | ViaXhr.

Record Transmission : Type := {
  channel : Channel;
  body : Payload
}.

Inductive ConsoleLine : Type :=
| Echo (m : Method) (args : list JVal)
| ConsoleError (label : string) (detail : string).

(** How the teardown transport behaves when a turn uses it:
    [navigator.sendBeacon] exists (its boolean result is not read), or the
    synchronous [XMLHttpRequest] fallback completes with a status, or the
    fallback's [send] raises. *)
Inductive Teardown : Type :=
| Beacon (queued : bool)
| XhrDone (status : Z)
| XhrThrows (reason : string).

(** How an awaited [fetch] settles. *)
Inductive FetchResult : Type :=
| Response (status : Z)
| Rejected (reason : string).

(** [response.ok] *)
Definition ok (status : Z) : bool := (200 <=? status)%Z && (status <=? 299)%Z.

(** The browser as one handler turn reads it. *)
Record Env : Type := {
  now_iso : string;      (* new Date().toISOString() *)
  href : string;         (* window.location.href *)
  userAgent : string;    (* navigator.userAgent *)
  teardown : Teardown;
  storage_error : option string
    (* the exception localStorage.setItem raises in this turn, if any *)
}.

(** What the storage holds under the key of the backlog: an array of
    entries, as [savePendingLogs] writes it, or a text on which
    [JSON.parse] or the spread of its result raises. *)
Inductive Item : Type :=
| Entries (l : list LogEntry)
| Unusable (error : string).

(** The instance, the [log] object it patches, and the parts of the
    browser it writes to. *)
Record ClientLogger : Type := {
  logQueue : list LogEntry;
  sessionId : string;
  isOnline : bool;
  batchTimer : bool;                       (* the interval is armed *)
  isSending : bool;
  originalMethods : Methods NativeFn;
  log_level : Level;                       (* loglevel's current level *)
  log_methods : Methods LogFn;             (* log.debug ... log.error *)
  localStorage : option Item;              (* item jellynouncer_pending_logs *)
  sessionStorage : option string;          (* item jellynouncer_session_id *)
  console : list ConsoleLine;
  network : list Transmission;
  awaiting : list (list LogEntry)          (* logsToSend of each suspended flushLogs *)
}.

Definition set_logQueue (q : list LogEntry) (s : ClientLogger) : ClientLogger :=
  {| logQueue := q; sessionId := sessionId s; isOnline := isOnline s;
     batchTimer := batchTimer s; isSending := isSending s;
     originalMethods := originalMethods s; log_level := log_level s;
     log_methods := log_methods s; localStorage := localStorage s;
     sessionStorage := sessionStorage s; console := console s;
     network := network s; awaiting := awaiting s |}.

Definition set_isOnline (b : bool) (s : ClientLogger) : ClientLogger :=
  {| logQueue := logQueue s; sessionId := sessionId s; isOnline := b;
     batchTimer := batchTimer s; isSending := isSending s;
     originalMethods := originalMethods s; log_level := log_level s;
     log_methods := log_methods s; localStorage := localStorage s;
     sessionStorage := sessionStorage s; console := console s;
     network := network s; awaiting := awaiting s |}.

Definition set_batchTimer (b : bool) (s : ClientLogger) : ClientLogger :=
  {| logQueue := logQueue s; sessionId := sessionId s; isOnline := isOnline s;
     batchTimer := b; isSending := isSending s;
     originalMethods := originalMethods s; log_level := log_level s;
     log_methods := log_methods s; localStorage := localStorage s;
     sessionStorage := sessionStorage s; console := console s;
     network := network s; awaiting := awaiting s |}.

Definition set_isSending (b : bool) (s : ClientLogger) : ClientLogger :=
  {| logQueue := logQueue s; sessionId := sessionId s; isOnline := isOnline s;
     batchTimer := batchTimer s; isSending := b;
     originalMethods := originalMethods s; log_level := log_level s;
     log_methods := log_methods s; localStorage := localStorage s;
     sessionStorage := sessionStorage s; console := console s;
     network := network s; awaiting := awaiting s |}.

Definition set_log (l : Level) (ms : Methods LogFn) (s : ClientLogger)
  : ClientLogger :=
  {| logQueue := logQueue s; sessionId := sessionId s; isOnline := isOnline s;
     batchTimer := batchTimer s; isSending := isSending s;
     originalMethods := originalMethods s; log_level := l;
     log_methods := ms; localStorage := localStorage s;
     sessionStorage := sessionStorage s; console := console s;
     network := network s; awaiting := awaiting s |}.

Definition set_localStorage (v : option Item) (s : ClientLogger)
  : ClientLogger :=
  {| logQueue := logQueue s; sessionId := sessionId s; isOnline := isOnline s;
     batchTimer := batchTimer s; isSending := isSending s;
     originalMethods := originalMethods s; log_level := log_level s;
     log_methods := log_methods s; localStorage := v;
     sessionStorage := sessionStorage s; console := console s;
     network := network s; awaiting := awaiting s |}.

Definition set_console (c : list ConsoleLine) (s : ClientLogger) : ClientLogger :=
  {| logQueue := logQueue s; sessionId := sessionId s; isOnline := isOnline s;
     batchTimer := batchTimer s; isSending := isSending s;
     originalMethods := originalMethods s; log_level := log_level s;
     log_methods := log_methods s; localStorage := localStorage s;
     sessionStorage := sessionStorage s; console := c;
     network := network s; awaiting := awaiting s |}.

Definition set_network (n : list Transmission) (s : ClientLogger) : ClientLogger :=
  {| logQueue := logQueue s; sessionId := sessionId s; isOnline := isOnline s;
     batchTimer := batchTimer s; isSending := isSending s;
     originalMethods := originalMethods s; log_level := log_level s;
     log_methods := log_methods s; localStorage := localStorage s;
     sessionStorage := sessionStorage s; console := console s;
     network := n; awaiting := awaiting s |}.

Definition set_awaiting (a : list (list LogEntry)) (s : ClientLogger) : ClientLogger :=
  {| logQueue := logQueue s; sessionId := sessionId s; isOnline := isOnline s;
     batchTimer := batchTimer s; isSending := isSending s;
     originalMethods := originalMethods s; log_level := log_level s;
     log_methods := log_methods s; localStorage := localStorage s;
     sessionStorage := sessionStorage s; console := console s;
     network := network s; awaiting := a |}.

Definition print (line : ConsoleLine) (s : ClientLogger) : ClientLogger :=
  set_console (console s ++ [line]) s.

(** A batch as it is posted: [{ logs, sessionId, timestamp }]. *)
Definition transmission (c : Channel) (batch : list LogEntry) (env : Env)
    (s : ClientLogger) : Transmission :=
  {| channel := c;
     body := {| logs := batch; payload_sessionId := sessionId s;
                payload_timestamp := now_iso env |} |}.

Definition transmit (c : Channel) (batch : list LogEntry) (env : Env)
    (s : ClientLogger) : ClientLogger :=
  set_network (network s ++ [transmission c batch env s]) s.

(** [log.setLevel(level)] of loglevel. *)
Definition log_setLevel (l : Level) (s : ClientLogger) : ClientLogger :=
  set_log l (tabulate (fun m => Native (native_method l m))) s.

(** [this.originalMethods[level](...args)] *)
Definition call_original (m : Method) (args : list JVal) (s : ClientLogger)
  : ClientLogger :=
  match method_of (originalMethods s) m with
  | console_fn => print (Echo m args) s
  | noop => s
  end.

(** *** Methods of the class *)

(** [array.slice(-n)] *)
Definition slice_last {A} (n : nat) (l : list A) : list A :=
  drop (length l - n) l.

Definition formatMessage (args : list JVal) : string :=
  join " "
    (List.map (fun arg => if is_object arg then JSON_stringify arg
                          else to_String arg) args).

Definition own_fields (v : JVal) : list (string * JVal) :=
  match v with JObj fs => fs | _ => [] end.

Definition is_null (v : JVal) : bool :=
  match v with JNull => true | _ => false end.

(** The [forEach] of [extractMetadata], from position [index] on. *)
Fixpoint extractMetadata_from (index len : nat) (args : list JVal)
    (metadata : list (string * JVal)) : list (string * JVal) :=
  match args with
  | [] => metadata
  | arg :: rest =>
      extractMetadata_from (S index) len rest
        (if is_object arg && negb (is_null arg)
            && (index =? len - 1)%nat && negb (isArray arg)
         then Object_assign metadata (own_fields arg)
         else metadata)
  end.

Definition extractMetadata (args : list JVal) : list (string * JVal) :=
  extractMetadata_from 0 (length args) args [].

Definition savePendingLogs (env : Env) (s : ClientLogger) : ClientLogger :=
  if (0 <? length (logQueue s))%nat
  then
    match storage_error env with
    | None =>
        set_localStorage
          (Some (Entries (slice_last MAX_STORED_LOGS (logQueue s)))) s
    | Some e => print (ConsoleError "Failed to save pending logs:" e) s
    end
  else s.

(** The [catch] block of [flushLogs]. *)
Definition flushLogs_catch (logsToSend : list LogEntry) (err : string)
    (env : Env) (s : ClientLogger) : ClientLogger :=
  print (ConsoleError "Failed to send logs to server:" err)
    (savePendingLogs env (set_logQueue (logsToSend ++ logQueue s) s)).

(** [flushLogs(synchronous)], up to its [await] on the normal path, and to
    its end on the teardown path, which has no [await]. *)
Definition flushLogs (synchronous : bool) (env : Env) (s : ClientLogger)
  : ClientLogger :=
  if isSending s || (length (logQueue s) =? 0)%nat then s
  else if negb (isOnline s) then savePendingLogs env s
  else
    let logsToSend := logQueue s in
    let s1 := set_logQueue [] (set_isSending true s) in
    if synchronous then
      match teardown env with
      | Beacon _ =>
          set_isSending false (transmit ViaBeacon logsToSend env s1)
      | XhrDone _ =>
          set_isSending false (transmit ViaXhr logsToSend env s1)
      | XhrThrows reason =>
          set_isSending false (flushLogs_catch logsToSend reason env s1)
      end
    else
      set_awaiting (awaiting s1 ++ [logsToSend])
        (transmit ViaFetch logsToSend env s1).

(** The rest of [flushLogs] once the awaited [fetch] has settled. *)
Definition flushLogs_resume (r : FetchResult) (env : Env) (s : ClientLogger)
  : ClientLogger :=
  match awaiting s with
  | [] => s
  | logsToSend :: others =>
      let s1 := set_awaiting others s in
      match r with
      | Response status =>
          if ok status then set_isSending false s1
          else
            set_isSending false
              (flushLogs_catch logsToSend
                 ("Failed to send logs: " +:+ string_of_Z status) env s1)
      | Rejected reason =>
          set_isSending false (flushLogs_catch logsToSend reason env s1)
      end
  end.

(** The [logEntry] that [addToQueue] builds. *)
Definition logEntry (level : Method) (args : list JVal) (env : Env)
    (s : ClientLogger) : LogEntry :=
  {| timestamp := now_iso env;
     level := toUpperCase (method_name level);
     entry_sessionId := sessionId s;
     url := href env;
     message := formatMessage args;
     metadata := extractMetadata args;
     entry_userAgent := userAgent env |}.

Definition addToQueue (level : Method) (args : list JVal) (env : Env)
    (s : ClientLogger) : ClientLogger :=
  let s1 := set_logQueue (logQueue s ++ [logEntry level args env s]) s in
  if (LOG_BATCH_SIZE <=? length (logQueue s1))%nat
  then flushLogs false env s1
  else s1.

(** A call [log[level](...args)] on the [log] object as it currently is. *)
Definition log_call (m : Method) (args : list JVal) (env : Env)
    (s : ClientLogger) : ClientLogger :=
  match method_of (log_methods s) m with
  | Native noop => s
  | Native console_fn => print (Echo m args) s
  | Interceptor => addToQueue m args env (call_original m args s)
  end.

Definition debug := log_call Mdebug.
Definition info := log_call Minfo.
Definition warn := log_call Mwarn.
Definition error := log_call Merror.

Definition setupInterceptors (s : ClientLogger) : ClientLogger :=
  set_log (log_level s) (tabulate (fun _ => Interceptor)) s.

Definition setLevel (l : Level) (env : Env) (s : ClientLogger) : ClientLogger :=
  info [JStr ("Log level changed to: " +:+ level_name l)] env (log_setLevel l s).

Definition getLevel (s : ClientLogger) : nat := level_rank (log_level s).

Definition loadPendingLogs (s : ClientLogger) : ClientLogger :=
  match localStorage s with
  | Some (Entries pendingLogs) =>
      call_original Mdebug
        [JStr ("Loaded " +:+ string_of_Z (Z.of_nat (length pendingLogs))
               +:+ " pending logs from storage")]
        (set_localStorage None (set_logQueue (pendingLogs ++ logQueue s) s))
  | Some (Unusable e) =>
      print (ConsoleError "Failed to load pending logs:" e) s
  | None => s
  end.

Definition startBatchTimer (s : ClientLogger) : ClientLogger :=
  set_batchTimer true s.

(** *** The listeners registered by [setupEventListeners] and the timer *)

Definition on_online (env : Env) (s : ClientLogger) : ClientLogger :=
  flushLogs false env
    (call_original Minfo [JStr "Connection restored"] (set_isOnline true s)).

Definition on_offline (s : ClientLogger) : ClientLogger :=
  call_original Mwarn [JStr "Connection lost - logs will be queued"]
    (set_isOnline false s).

Definition on_beforeunload (env : Env) (s : ClientLogger) : ClientLogger :=
  flushLogs true env s.

Definition on_visibilitychange (hidden : bool) (env : Env) (s : ClientLogger)
  : ClientLogger :=
  if hidden
  then flushLogs false env
         (call_original Mdebug [JStr "Page hidden - flushing logs"] s)
  else call_original Mdebug [JStr "Page visible"] s.

Definition on_window_error (event : JVal) (env : Env) (s : ClientLogger)
  : ClientLogger :=
  error [JStr "Uncaught error";
         JObj [("message", get event "message");
               ("filename", get event "filename");
               ("line", get event "lineno");
               ("column", get event "colno");
               ("stack", get (get event "error") "stack")]] env s.

Definition on_unhandledrejection (event : JVal) (env : Env) (s : ClientLogger)
  : ClientLogger :=
  error [JStr "Unhandled promise rejection";
         JObj [("reason", get event "reason");
               ("promise", get event "promise")]] env s.

(** The callback given to [setInterval]; it no longer runs once [destroy]
    has cleared the interval. *)
Definition on_tick (env : Env) (s : ClientLogger) : ClientLogger :=
  if batchTimer s
  then if (0 <? length (logQueue s))%nat then flushLogs false env s else s
  else s.

Definition destroy (env : Env) (s : ClientLogger) : ClientLogger :=
  flushLogs true env (if batchTimer s then set_batchTimer false s else s).

(** *** Construction *)

Record Boot : Type := {
  isDev : bool;                      (* import.meta.env.DEV *)
  mode : string;                     (* import.meta.env.MODE *)
  onLine : bool;                     (* navigator.onLine *)
  now_ms : Z;                        (* Date.now() *)
  random36 : string;                 (* Math.random().toString(36).substr(2, 9) *)
  screen_width : JVal;
  screen_height : JVal;
  devicePixelRatio : JVal;
  stored_session : option string;    (* sessionStorage before the page script runs *)
  stored_logs : option Item          (* localStorage before the page script runs *)
}.

(** The session id to use and the session storage afterwards. *)
Definition getOrCreateSessionId (b : Boot) : string * option string :=
  match stored_session b with
  | Some sid =>
      if String.eqb sid EmptyString
      then let fresh := string_of_Z (now_ms b) +:+ "-" +:+ random36 b in
           (fresh, Some fresh)
      else (sid, Some sid)
  | None =>
      let fresh := string_of_Z (now_ms b) +:+ "-" +:+ random36 b in
      (fresh, Some fresh)
  end.

Definition constructor (b : Boot) (env : Env) : ClientLogger :=
  let sid := getOrCreateSessionId b in
  let l := if isDev b then DEBUG else INFO in
  let s0 :=
    {| logQueue := []; sessionId := fst sid; isOnline := onLine b;
       batchTimer := false; isSending := false;
       originalMethods := tabulate (native_method l);
       log_level := l;
       log_methods := tabulate (fun m => Native (native_method l m));
       localStorage := stored_logs b; sessionStorage := snd sid;
       console := []; network := []; awaiting := [] |} in
  let s1 := startBatchTimer (loadPendingLogs (setupInterceptors s0)) in
  info [JStr "Client logger initialized";
        JObj [("sessionId", JStr (sessionId s1));
              ("logLevel", JNum (Z.of_nat (getLevel s1)));
              ("environment", JStr (mode b));
              ("userAgent", JStr (userAgent env));
              ("screen", JObj [("width", screen_width b);
                               ("height", screen_height b);
                               ("pixelRatio", devicePixelRatio b)])]]
    env s1.

(** *** Handler turns

    Everything the logger does happens in one of these turns; each runs to
    completion (up to an [await]) before the next one starts. *)

Inductive Event : Type :=
| Log (m : Method) (args : list JVal)
| SetLevel (l : Level)
| Tick
| Online
| Offline
| BeforeUnload
| VisibilityChange (hidden : bool)
| WindowError (event : JVal)
| UnhandledRejection (event : JVal)
| FetchSettled (r : FetchResult)
| Destroy.

Definition handle (e : Event) (env : Env) (s : ClientLogger) : ClientLogger :=
  match e with
  | Log m args => log_call m args env s
  | SetLevel l => setLevel l env s
  | Tick => on_tick env s
  | Online => on_online env s
  | Offline => on_offline s
  | BeforeUnload => on_beforeunload env s
  | VisibilityChange hidden => on_visibilitychange hidden env s
  | WindowError event => on_window_error event env s
  | UnhandledRejection event => on_unhandledrejection event env s
  | FetchSettled r => flushLogs_resume r env s
  | Destroy => destroy env s
  end.

Fixpoint run (turns : list (Event * Env)) (s : ClientLogger) : ClientLogger :=
  match turns with
  | [] => s
  | (e, env) :: rest => run rest (handle e env s)
  end.

(** The states the logger can be in: those a sequence of turns leads to
    from a freshly constructed instance. *)
Inductive reachable : ClientLogger -> Prop :=
| reachable_constructor b env : reachable (constructor b env)
| reachable_handle e env s : reachable s -> reachable (handle e env s).

(** *** Predicates used by the properties below *)

(** Either nothing is being sent, or exactly one [flushLogs] is suspended
    at its [await]. *)
Definition flight_ok (s : ClientLogger) : Prop :=
  (isSending s = false /\ awaiting s = [])
  \/ (isSending s = true /\ exists batch, awaiting s = [batch]).

(** A step that touches neither the flag nor the suspended sends. *)
Definition same_flight (s s' : ClientLogger) : Prop :=
  isSending s' = isSending s /\ awaiting s' = awaiting s.

(** The [fetch] transmission of a batch. *)
Definition fetch_of (batch : list LogEntry) (env : Env) (s : ClientLogger)
  : Transmission :=
  transmission ViaFetch batch env s.

(** The reading of the offline-durability property under which every
    flush made while offline writes the queue to the backlog. *)
Definition offline_flush_always_persists : Prop :=
  forall sync env s,
    reachable s -> isOnline s = false -> storage_error env = None ->
    ((length (logQueue s) <= MAX_STORED_LOGS)%nat ->
     localStorage (flushLogs sync env s) = Some (Entries (logQueue s)))
    /\ ((MAX_STORED_LOGS < length (logQueue s))%nat ->
        localStorage (flushLogs sync env s)
        = Some (Entries (drop (length (logQueue s) - MAX_STORED_LOGS)
                           (logQueue s)))).

(** The calls echoed to the console so far. *)
Definition is_echo (line : ConsoleLine) : bool :=
  match line with Echo _ _ => true | ConsoleError _ _ => false end.

Definition echoes (s : ClientLogger) : list ConsoleLine :=
  List.filter is_echo (console s).

(** The reading of the size-triggered flush under which reaching the
    threshold always puts a batch on the network. *)
Definition threshold_always_ships : Prop :=
  forall m args env s,
    reachable s -> (LOG_BATCH_SIZE <= length (logQueue s) + 1)%nat ->
    exists tx, network (addToQueue m args env s) = network s ++ [tx].

(** The reading of the severity filter under which a call below the
    current level leaves console, queue and network as they were. *)
Definition below_level_dropped : Prop :=
  forall m args env s,
    reachable s -> (method_rank m < getLevel s)%nat ->
    echoes (log_call m args env s) = echoes s
    /\ logQueue (log_call m args env s) = logQueue s
    /\ network (log_call m args env s) = network s.

(** The [log] object is in one of two shapes: intercepted, with the
    originals captured at the current level, or rebuilt by [setLevel]. *)
Definition methods_ok (s : ClientLogger) : Prop :=
  (log_methods s = tabulate (fun _ => Interceptor)
   /\ originalMethods s = tabulate (native_method (log_level s)))
  \/ log_methods s = tabulate (fun m => Native (native_method (log_level s) m)).

(** A step that leaves the [log] object and the captured originals alone. *)
Definition same_setup (s s' : ClientLogger) : Prop :=
  log_methods s' = log_methods s /\ log_level s' = log_level s
  /\ originalMethods s' = originalMethods s.

(** A send has failed when the response is not 2xx or the transport
    raised. *)
Definition failed (r : FetchResult) : bool :=
  match r with
  | Response st => negb (ok st)
  | Rejected _ => true
  end.

Definition teardown_failed (t : Teardown) : bool :=
  match t with
  | XhrDone st => negb (ok st)
  | XhrThrows _ => true
  | Beacon _ => false
  end.

(** The reading of the requeue rule that covers both paths of
    [flushLogs]. *)
Definition all_send_failures_requeue : Prop :=
  (forall r env s batch,
      reachable s -> awaiting s = [batch] -> failed r = true ->
      logQueue (flushLogs_resume r env s) = batch ++ logQueue s)
  /\ (forall env s,
        reachable s -> isOnline s = true -> isSending s = false ->
        teardown_failed (teardown env) = true ->
        logQueue (flushLogs true env s) = logQueue s).

End Logger.

(** ** Concrete inputs used by the examples *)

Module Sample.
Import JS Logger.

Definition env0 : Env :=
  {| now_iso := "2024-05-01T10:00:00.000Z"; href := "http://localhost:1985/";
     userAgent := "Mozilla/5.0"; teardown := Beacon true;
     storage_error := None |}.

Definition env_xhr (st : Z) : Env :=
  {| now_iso := "2024-05-01T10:00:09.000Z"; href := "http://localhost:1985/";
     userAgent := "Mozilla/5.0"; teardown := XhrDone st;
     storage_error := None |}.

Definition boot (dev online : bool) : Boot :=
  {| isDev := dev; mode := if dev then "development" else "production";
     onLine := online; now_ms := 1714557600000; random36 := "k3j9x0q1z";
     screen_width := JNum 1920; screen_height := JNum 1080;
     devicePixelRatio := JNum 1; stored_session := None; stored_logs := None |}.

(** A production page, online, that has logged once and whose timer has
    started a send; the connection then drops and one more entry is
    logged while the send is still in flight. *)
Definition sending_offline : ClientLogger :=
  run [(Log Minfo [JStr "a"], env0); (Tick, env0); (Offline, env0);
       (Log Minfo [JStr "b"], env0)]
    (constructor (boot false true) env0).

(** A page that starts offline and logs [n] more entries. *)
Definition offline_after (n : nat) : ClientLogger :=
  run (repeat (Log Minfo [JStr "x"], env0) n)
    (constructor (boot false false) env0).

(** The scenario of the specification: a batch is sent and an entry is
    logged while it is in flight. *)
Definition in_flight_with_newer : ClientLogger :=
  run [(Log Minfo [JStr "a"], env0); (Tick, env0);
       (Log Minfo [JStr "b"], env0)]
    (constructor (boot false true) env0).

End Sample.

(** ** The credential store ([web/src/stores/authStore]) *)

Module AuthCoordinator.
Import JS.

(** Modelled from the spec: the store module [../stores/authStore] that
    [api.js] imports (its [refreshAccessToken], [accessToken] and [logout])
    is not part of the sources at hand.  Section 4.3 of the specification
    gives its contract: [refresh()] is single-flight (the first caller
    performs the refresh call, callers that arrive while it is in flight
    await and share its one outcome), success updates the shared
    credential, failure clears it, and every waiter is resolved with the
    outcome.  A value of this type is one state object of the store, as
    [useAuthStore.getState()] hands it out.  The specification does not say
    how the credential is updated; [getState()] is the interface of a store
    whose updates replace the state object, and that is how [settle] and
    [logout] are written: each gives the new state, and a state object
    obtained before keeps the credential it held. *)
Record Store : Type := {
  accessToken : JVal;       (* the shared credential *)
  in_flight : bool;         (* a refresh call is under way *)
  refresh_calls : nat       (* refresh calls performed so far *)
}.

(** Modelled from the spec: a caller invokes [refresh()].  Only a caller
    that finds no refresh under way performs the call. *)
Definition refresh (st : Store) : Store :=
  if in_flight st then st
  else {| accessToken := accessToken st; in_flight := true;
          refresh_calls := S (refresh_calls st) |}.

(** Modelled from the spec: the refresh call settles.  [fresh] is the
    credential the refresh endpoint returned. *)
Definition settle (success : bool) (fresh : JVal) (st : Store) : Store :=
  {| accessToken := if success then fresh else JNull;
     in_flight := false;
     refresh_calls := refresh_calls st |}.

(** Modelled from the spec: [logout()] clears the local session state. *)
Definition logout (st : Store) : Store :=
  {| accessToken := JNull; in_flight := in_flight st;
     refresh_calls := refresh_calls st |}.

End AuthCoordinator.

(** ** The instrumented API client ([web/src/services/api.js]) *)

Module Api.
Import JS.

Record Config : Type := {
  method : option string;
  url : option string;
  params : JVal;
  data : JVal;
  headers : list (string * JVal);
  requestId : option string;
  _retry : bool
}.

Record Resp : Type := {
  status : Z;
  statusText : string;
  resp_data : JVal
}.

(** The error axios hands to the rejection interceptor. *)
Record AxiosError : Type := {
  config : option Config;       (* error.config *)
  response : option Resp;       (* error.response *)
  request : bool;               (* error.request is set *)
  message : string;
  stack : JVal
}.

(** What the interceptors do to the world besides their own table. *)
Inductive Effect : Type :=
| ELog (m : Logger.Method) (args : list JVal)   (* logger.debug/info/warn/error *)
| EToast (msg : JVal)                           (* toast.error *)
| ELogout                                       (* authStore.logout() *)
| ENavigate (href : string).                    (* window.location.href = ... *)

Record Client : Type := {
  requestTimings : gmap string Z;   (* request id -> performance.now() at dispatch *)
  effects : list Effect
}.

Definition emit (e : Effect) (c : Client) : Client :=
  {| requestTimings := requestTimings c; effects := effects c ++ [e] |}.

Definition set_timings (t : gmap string Z) (c : Client) : Client :=
  {| requestTimings := t; effects := effects c |}.

(** The clock and the random source as one turn reads them;
    [performance_now] is in hundredths of a millisecond. *)
Record Clock : Type := {
  Date_now : Z;
  random36 : string;
  performance_now : Z
}.

Definition with_request (config : Config) (id : string) (p : JVal) : Config :=
  {| method := method config; url := url config; params := p;
     data := data config; headers := headers config;
     requestId := Some id; _retry := _retry config |}.

Definition set_retry (config : Config) : Config :=
  {| method := method config; url := url config; params := params config;
     data := data config; headers := headers config;
     requestId := requestId config; _retry := true |}.

Definition set_header (k : string) (v : JVal) (config : Config) : Config :=
  {| method := method config; url := url config; params := params config;
     data := data config; headers := set_field k v (headers config);
     requestId := requestId config; _retry := _retry config |}.

Definition with_config (cfg : Config) (error : AxiosError) : AxiosError :=
  {| config := Some cfg; response := response error; request := request error;
     message := message error; stack := stack error |}.

(** [`${config.method?.toUpperCase()} ${config.url}`] *)
Definition method_and_url (config : option Config) : string :=
  to_String (of_option (option_map toUpperCase (config ≫= method)))
  +:+ " " +:+ to_String (of_option (config ≫= url)).

(** *** Request interceptor *)

Definition request_log (config : Config) (id : string) : list JVal :=
  [JStr ("API Request: " +:+ method_and_url (Some config));
   JObj [("method", of_option (method config));
         ("url", of_option (url config));
         ("params", params config);
         ("data", data config);
         ("headers", JObj (headers config));
         ("requestId", JStr id)]].

Definition on_request (clk : Clock) (config : Config) (c : Client)
  : Config * Client :=
  let id := string_of_Z (Date_now clk) +:+ "-" +:+ random36 clk in
  let c1 := set_timings (<[id := performance_now clk]> (requestTimings c)) c in
  let c2 := emit (ELog Logger.Mdebug (request_log config id)) c1 in
  let p :=
    match method config with
    | Some m =>
        if String.eqb m "get"
        then JObj (set_field "_t" (JNum (Date_now clk))
                     (Logger.own_fields (params config)))
        else params config
    | None => params config
    end in
  (with_request config id p, c2).

(** *** Response interceptors *)

(** The duration of the request and the table without its entry. *)
Definition take_timing (id : option string) (now : Z) (c : Client)
  : Z * Client :=
  match id with
  | Some i =>
      if String.eqb i EmptyString then (0%Z, c)
      else
        match requestTimings c !! i with
        | Some start =>
            ((now - start)%Z, set_timings (delete i (requestTimings c)) c)
        | None => (0%Z, c)
        end
  | None => (0%Z, c)
  end.

(** How a handler's promise ends, or where it hands over. *)
Inductive Outcome : Type :=
| Fulfilled (r : Resp)
| RejectedWith (e : AxiosError)     (* Promise.reject(error) *)
| Threw (what : string).            (* an exception raised inside the handler *)

Definition on_fulfilled (now : Z) (config : Config) (r : Resp) (c : Client)
  : Outcome * Client :=
  let '(duration, c1) := take_timing (requestId config) now c in
  match resp_data r with
  | JUndefined => (Threw "TypeError", c1)
  | d =>
      (Fulfilled r,
       emit (ELog Logger.Mdebug
               [JStr ("API Response: " +:+ method_and_url (Some config));
                JObj [("status", JNum (status r));
                      ("statusText", JStr (statusText r));
                      ("duration", JStr (toFixed2 duration +:+ "ms"));
                      ("requestId", of_option (requestId config));
                      ("dataSize",
                       JNum (Z.of_nat (String.length (stringify_compact d))))]])
         c1)
  end.

Definition errorDetails (error : AxiosError) (duration : Z) : list (string * JVal) :=
  [("method", of_option (config error ≫= method));
   ("url", of_option (config error ≫= url));
   ("status", match response error with
              | Some r => JNum (status r) | None => JUndefined end);
   ("statusText", match response error with
                  | Some r => JStr (statusText r) | None => JUndefined end);
   ("duration", JStr (toFixed2 duration +:+ "ms"));
   ("requestId", of_option (config error ≫= requestId));
   ("message", JStr (message error));
   ("responseData", match response error with
                    | Some r => resp_data r | None => JUndefined end)].

(** [error.config.url?.includes('/auth/status')] *)
Definition is_probe (cfg : Config) : bool :=
  match url cfg with
  | Some u => includes "/auth/status" u
  | None => false
  end.

(** [error.response.data?.detail || error.response.data?.message
    || 'An error occurred'] *)
Definition notification (r : Resp) : JVal :=
  or_else (or_else (get (resp_data r) "detail") (get (resp_data r) "message"))
          (JStr "An error occurred").

(** The part of the rejection handler after the 401 block: log by class,
    notify, reject. *)
Definition classify (error : AxiosError) (details : list (string * JVal))
    (c : Client) : Outcome * Client :=
  match response error with
  | Some r =>
      let msg := notification r in
      let c1 :=
        if (500 <=? status r)%Z then
          emit (ELog Logger.Merror
                  [JStr ("API Server Error: " +:+ method_and_url (config error));
                   JObj details]) c
        else if (400 <=? status r)%Z then
          emit (ELog Logger.Mwarn
                  [JStr ("API Client Error: " +:+ method_and_url (config error));
                   JObj details]) c
        else c in
      match config error with
      | None => (Threw "TypeError", c1)
      | Some cfg =>
          (RejectedWith error,
           if negb (is_probe cfg) then emit (EToast msg) c1 else c1)
      end
  | None =>
      if request error then
        (RejectedWith error,
         emit (EToast (JStr "No response from server. Please check your connection."))
           (emit (ELog Logger.Merror
                    [JStr "API Network Error - No response received"; JObj details]) c))
      else
        (RejectedWith error,
         emit (EToast (JStr "An unexpected error occurred"))
           (emit (ELog Logger.Merror
                    [JStr "API Unexpected Error";
                     JObj (set_field "stack" (stack error) details)]) c))
  end.

(** A rejection handler suspended at one of its [await]s. *)
Record Frame : Type := {
  originalRequest : Config;
  frame_error : AxiosError;
  frame_details : list (string * JVal)
}.

Inductive Begun : Type :=
| Done (o : Outcome) (c : Client)
| AtImport (f : Frame) (c : Client).      (* await import('../stores/authStore') *)

(** The rejection handler up to its first [await]. *)
Definition on_rejected (now : Z) (error : AxiosError) (c : Client) : Begun :=
  let '(duration, c1) := take_timing (config error ≫= requestId) now c in
  let details := errorDetails error duration in
  let unauthorized :=
    match response error with
    | Some r => (status r =? 401)%Z
    | None => false
    end in
  if unauthorized then
    match config error with
    | None => Done (Threw "TypeError") c1
    | Some req =>
        if negb (_retry req) then
          AtImport
            {| originalRequest := set_retry req;
               frame_error := with_config (set_retry req) error;
               frame_details := details |}
            (emit (ELog Logger.Minfo
                     [JStr "Token expired, attempting refresh";
                      JObj [("url", of_option (url req))]]) c1)
        else let '(o, c2) := classify error details c1 in Done o c2
    end
  else let '(o, c2) := classify error details c1 in Done o c2.

Inductive Resumed : Type :=
| Finished (o : Outcome) (c : Client)
| Reissue (req : Config) (c : Client).    (* return api(originalRequest) *)

(** The handler from the point where [refreshAccessToken()] has resolved
    with [success]; [token] is [authStore.accessToken] as read then.  By
    its contract the refresh resolves, with success or with failure. *)
Definition after_refresh (success : bool) (token : JVal) (f : Frame)
    (c : Client) : Resumed :=
  if success then
    Reissue
      (set_header "Authorization" (JStr ("Bearer " +:+ to_String token))
         (originalRequest f))
      (emit (ELog Logger.Minfo
               [JStr "Token refreshed successfully, retrying request"]) c)
  else
    let c1 :=
      emit (ENavigate "/login")
        (emit ELogout
           (emit (ELog Logger.Mwarn
                    [JStr "Token refresh failed, logging out user"]) c)) in
    let '(o, c2) := classify (frame_error f) (frame_details f) c1 in
    Finished o c2.

(** *** One request from dispatch to settlement

    [api(config)] runs the request interceptor, puts the request on the
    wire, and runs a response interceptor on what comes back.  The network,
    the clock and the refresh endpoint are inputs: the [k]-th exchange on
    the wire, the [k]-th reading of the clock, the [k]-th refresh call. *)

Inductive Wire : Type :=
| Answered (r : Resp)                          (* a response with a status *)
| Unanswered (msg : string) (stk : JVal)       (* sent, no response received *)
| NotSent (msg : string) (stk : JVal).         (* failed before it was sent *)

Record World : Type := {
  clock : nat -> Clock;
  exchange : nat -> Config -> Wire;
  refreshed : nat -> bool * JVal
    (* the k-th refreshAccessToken() call: what it resolves with, and what
       authStore.accessToken reads once it has *)
}.

Record Session : Type := {
  client : Client;
  wire : list Config;       (* requests put on the wire, oldest first *)
  turn : nat;               (* clock readings so far *)
  refreshes : nat           (* refreshAccessToken() calls so far *)
}.

(** axios settles a response as a success when its status is 2xx. *)
Definition validateStatus (st : Z) : bool := (200 <=? st)%Z && (st <? 300)%Z.

Definition error_of (sent : Config) (w : Wire) : AxiosError :=
  match w with
  | Answered r =>
      {| config := Some sent; response := Some r; request := true;
         message := "Request failed with status code " +:+ string_of_Z (status r);
         stack := JUndefined |}
  | Unanswered msg stk =>
      {| config := Some sent; response := None; request := true;
         message := msg; stack := stk |}
  | NotSent msg stk =>
      {| config := Some sent; response := None; request := false;
         message := msg; stack := stk |}
  end.

Definition succeeded (w : Wire) : option Resp :=
  match w with
  | Answered r => if validateStatus (status r) then Some r else None
  | _ => None
  end.

(** [None] only when the fuel runs out. *)
Fixpoint api (fuel : nat) (w : World) (cfg : Config) (s : Session)
  : Session * option Outcome :=
  match fuel with
  | O => (s, None)
  | S fuel' =>
      let '(sent, c1) := on_request (clock w (turn s)) cfg (client s) in
      let answer := exchange w (length (wire s)) sent in
      let now := performance_now (clock w (S (turn s))) in
      let sent_all := wire s ++ [sent] in
      let t2 := S (S (turn s)) in
      match succeeded answer with
      | Some r =>
          let '(o, c2) := on_fulfilled now sent r c1 in
          ({| client := c2; wire := sent_all; turn := t2;
              refreshes := refreshes s |}, Some o)
      | None =>
          match on_rejected now (error_of sent answer) c1 with
          | Done o c2 =>
              ({| client := c2; wire := sent_all; turn := t2;
                  refreshes := refreshes s |}, Some o)
          | AtImport f c2 =>
              let '(success, token) := refreshed w (refreshes s) in
              match after_refresh success token f c2 with
              | Reissue req c3 =>
                  api fuel' w req
                    {| client := c3; wire := sent_all; turn := t2;
                       refreshes := S (refreshes s) |}
              | Finished o c3 =>
                  ({| client := c3; wire := sent_all; turn := t2;
                      refreshes := S (refreshes s) |}, Some o)
              end
          end
      end
  end.

(** *** Handlers interleaved on the event loop

    Several requests can be in flight at once.  A turn is the arrival of a
    failed response (its handler runs up to its first [await]), the
    resolution of one handler's [import], or the settlement of the refresh
    call, which resumes every handler waiting for it, in the order in which
    they started to wait. *)

(** A handler suspended at [await authStore.refreshAccessToken()].  Its
    [authStore] is the object that [useAuthStore.getState()] returned when
    the import resolved, before the refresh was called; the handler reads
    [authStore.accessToken] from that same object once the refresh has
    settled. *)
Record Waiting : Type := {
  waiting_frame : Frame;
  authStore : AuthCoordinator.Store
}.

Record Loop : Type := {
  loop_client : Client;
  loop_store : AuthCoordinator.Store;  (* the store's current state object *)
  next_task : nat;
  at_import : list (nat * Frame);      (* handlers awaiting the import *)
  at_refresh : list (nat * Waiting);   (* handlers awaiting refreshAccessToken() *)
  reissued : list (nat * Config);      (* api(originalRequest) calls made *)
  settled : list (nat * Outcome)       (* handlers that ended otherwise *)
}.

Inductive Turn : Type :=
| Failure (now : Z) (error : AxiosError)
| Imported (task : nat)
| RefreshSettled (success : bool) (fresh : JVal).

Fixpoint take_task (t : nat) (fs : list (nat * Frame))
  : option (Frame * list (nat * Frame)) :=
  match fs with
  | [] => None
  | (t', f) :: r =>
      if Nat.eqb t t' then Some (f, r)
      else match take_task t r with
           | Some (g, r') => Some (g, (t', f) :: r')
           | None => None
           end
  end.

(** Resume the handlers waiting for the refresh, oldest first.  Each reads
    the credential from the state object it bound before the refresh. *)
Fixpoint resume_all (success : bool) (waiting : list (nat * Waiting)) (l : Loop)
  : Loop :=
  match waiting with
  | [] => l
  | (t, w) :: r =>
      match after_refresh success (AuthCoordinator.accessToken (authStore w))
              (waiting_frame w) (loop_client l) with
      | Reissue req c =>
          resume_all success r
            {| loop_client := c; loop_store := loop_store l;
               next_task := next_task l; at_import := at_import l;
               at_refresh := at_refresh l;
               reissued := reissued l ++ [(t, req)]; settled := settled l |}
      | Finished o c =>
          resume_all success r
            {| loop_client := c;
               loop_store := AuthCoordinator.logout (loop_store l);
               next_task := next_task l; at_import := at_import l;
               at_refresh := at_refresh l;
               reissued := reissued l; settled := settled l ++ [(t, o)] |}
      end
  end.

Definition step (e : Turn) (l : Loop) : Loop :=
  match e with
  | Failure now error =>
      match on_rejected now error (loop_client l) with
      | Done o c =>
          {| loop_client := c; loop_store := loop_store l;
             next_task := S (next_task l); at_import := at_import l;
             at_refresh := at_refresh l; reissued := reissued l;
             settled := settled l ++ [(next_task l, o)] |}
      | AtImport f c =>
          {| loop_client := c; loop_store := loop_store l;
             next_task := S (next_task l);
             at_import := at_import l ++ [(next_task l, f)];
             at_refresh := at_refresh l; reissued := reissued l;
             settled := settled l |}
      end
  | Imported t =>
      match take_task t (at_import l) with
      | Some (f, rest) =>
          {| loop_client := loop_client l;
             loop_store := AuthCoordinator.refresh (loop_store l);
             next_task := next_task l; at_import := rest;
             at_refresh :=
               at_refresh l
               ++ [(t, {| waiting_frame := f; authStore := loop_store l |})];
             reissued := reissued l; settled := settled l |}
      | None => l
      end
  | RefreshSettled success fresh =>
      if AuthCoordinator.in_flight (loop_store l) then
        resume_all success (at_refresh l)
          {| loop_client := loop_client l;
             loop_store := AuthCoordinator.settle success fresh (loop_store l);
             next_task := next_task l; at_import := at_import l;
             at_refresh := []; reissued := reissued l; settled := settled l |}
      else l
  end.

Fixpoint steps (tr : list Turn) (l : Loop) : Loop :=
  match tr with
  | [] => l
  | e :: r => steps r (step e l)
  end.

(** The ways two sequences of turns can interleave. *)
Inductive merge {A : Type} : list A -> list A -> list A -> Prop :=
| merge_nil : merge [] [] []
| merge_left x l1 l2 l : merge l1 l2 l -> merge (x :: l1) l2 (x :: l)
| merge_right y l1 l2 l : merge l1 l2 l -> merge l1 (y :: l2) (y :: l).

(** *** Predicates used by the properties below *)

(** The reading of the redaction rule: the record logged at dispatch does
    not depend on the value of the authorization header. *)
Definition credentials_redacted : Prop :=
  forall clk cfg c tok tok',
    effects (snd (on_request clk (set_header "Authorization" tok cfg) c))
    = effects (snd (on_request clk (set_header "Authorization" tok' cfg) c)).

(** The reading of the 5xx rule under which every such failure is both
    logged at ERROR and notified. *)
Definition server_error_always_notified : Prop :=
  forall now error c r cfg,
    response error = Some r -> config error = Some cfg ->
    (500 <= status r)%Z ->
    exists o c',
      on_rejected now error c = Done o c'
      /\ (exists args, In (ELog Logger.Merror args) (effects c'))
      /\ (exists msg, In (EToast msg) (effects c')).

(** The request as the handler reissues it after a successful refresh. *)
Definition retry_of (token : JVal) (req : Config) : Config :=
  set_header "Authorization" (JStr ("Bearer " +:+ to_String token))
    (set_retry req).

End Api.

(** ** Concrete requests used by the examples *)

Module Requests.
Import JS.

Definition get_config : Api.Config :=
  {| Api.method := Some "get"; Api.url := Some "/api/config";
     Api.params := JUndefined; Api.data := JUndefined;
     Api.headers := [("Content-Type", JStr "application/json")];
     Api.requestId := None; Api._retry := false |}.

Definition probe_config : Api.Config :=
  {| Api.method := Some "get"; Api.url := Some "/api/auth/status";
     Api.params := JUndefined; Api.data := JUndefined;
     Api.headers := [("Content-Type", JStr "application/json")];
     Api.requestId := Some "1714557600000-abc"; Api._retry := false |}.

Definition clock0 : Api.Clock :=
  {| Api.Date_now := 1714557600000; Api.random36 := "q1w2e3r4t";
     Api.performance_now := 123456 |}.

Definition client0 : Api.Client :=
  {| Api.requestTimings := ∅; Api.effects := [] |}.

Definition http (st : Z) (body : JVal) : Api.Resp :=
  {| Api.status := st; Api.statusText := "status"; Api.resp_data := body |}.

Definition failure (cfg : Api.Config) (st : Z) : Api.AxiosError :=
  Api.error_of cfg (Api.Answered (http st (JObj [("detail", JStr "boom")]))).


(** The first attempt is answered with 401, the second with 200. *)
Definition expired_once : Api.World :=
  {| Api.clock := fun _ => clock0;
     Api.exchange :=
       fun k _ => match k with
                  | O => Api.Answered (http 401 JNull)
                  | S _ => Api.Answered (http 200 (JObj [("ok", JBool true)]))
                  end;
     Api.refreshed := fun _ => (true, JStr "fresh-token") |}.

Definition session0 : Api.Session :=
  {| Api.client := client0; Api.wire := []; Api.turn := 0; Api.refreshes := 0 |}.

Definition loop0 : Api.Loop :=
  {| Api.loop_client := client0;
     Api.loop_store :=
       {| AuthCoordinator.accessToken := JStr "stale-token";
          AuthCoordinator.in_flight := false;
          AuthCoordinator.refresh_calls := 0 |};
     Api.next_task := 0; Api.at_import := []; Api.at_refresh := [];
     Api.reissued := []; Api.settled := [] |}.

End Requests.

(** ** The remaining methods of [ClientLogger] *)

Module LoggerMethods.
Import JS Logger.

(** The handle [startTimer(label)] returns: the label and the reading of
    [performance.now()] at the start, in hundredths of a millisecond. *)
Record Timer : Type := {
  timer_label : string;
  startTime : Z
}.

Definition startTimer (label : string) (now : Z) : Timer :=
  {| timer_label := label; startTime := now |}.

(** [{ duration: ..., ...metadata }] *)
Definition timer_metadata (duration : Z) (metadata : list (string * JVal))
  : list (string * JVal) :=
  Object_assign [("duration", JStr (toFixed2 duration +:+ "ms"))] metadata.

(** [handle.end(metadata = {})]: the duration it returns, and the logger
    after its [debug] call. *)
Definition timer_end (t : Timer) (now : Z)
    (metadata : option (list (string * JVal))) (env : Env) (s : ClientLogger)
  : Z * ClientLogger :=
  let duration := (now - startTime t)%Z in
  (duration,
   debug [JStr ("Performance: " +:+ timer_label t);
          JObj (timer_metadata duration
                  (match metadata with Some fs => fs | None => [] end))]
     env s).

Definition logComponentMount (componentName : string) (props : option JVal)
    (env : Env) (s : ClientLogger) : ClientLogger :=
  debug [JStr ("Component mounted: " +:+ componentName);
         JObj [("props", match props with Some v => v | None => JObj [] end)]]
    env s.

Definition logComponentUnmount (componentName : string) (env : Env)
    (s : ClientLogger) : ClientLogger :=
  debug [JStr ("Component unmounted: " +:+ componentName)] env s.

(** An [Error] as [logComponentError] reads it. *)
Record JsError : Type := {
  error_toString : string;
  error_stack : JVal
}.

Definition logComponentError (componentName : string) (err : JsError)
    (errorInfo : JVal) (env : Env) (s : ClientLogger) : ClientLogger :=
  error [JStr ("Component error: " +:+ componentName);
         JObj [("error", JStr (error_toString err));
               ("stack", error_stack err);
               ("componentStack", get errorInfo "componentStack")]]
    env s.

Definition logApiCall (method url : string) (data : option JVal) (env : Env)
    (s : ClientLogger) : ClientLogger :=
  debug [JStr ("API call: " +:+ method +:+ " " +:+ url);
         JObj [("data", match data with Some v => v | None => JNull end)]]
    env s.

(** [duration] is in hundredths of a millisecond. *)
Definition logApiResponse (method url : string) (status duration : Z)
    (env : Env) (s : ClientLogger) : ClientLogger :=
  let level := if (400 <=? status)%Z then Merror else Mdebug in
  log_call level
    [JStr ("API response: " +:+ method +:+ " " +:+ url);
     JObj [("status", JNum status);
           ("duration", JStr (toFixed2 duration +:+ "ms"))]]
    env s.

Definition logUserAction (action : string) (details : option JVal)
    (env : Env) (s : ClientLogger) : ClientLogger :=
  info [JStr ("User action: " +:+ action);
        match details with Some v => v | None => JObj [] end]
    env s.

End LoggerMethods.

(** ** Notions used to state what the logger keeps *)

Module LoggerState.
Import JS Logger.

(** The entries the logger is still responsible for, oldest first: those
    of the batch whose send is awaited, then the live queue. *)
Definition pending (s : ClientLogger) : list LogEntry :=
  concat (awaiting s) ++ logQueue s.

(** [this.logQueue.push(logEntry)] *)
Definition push (e : LogEntry) (s : ClientLogger) : ClientLogger :=
  set_logQueue (logQueue s ++ [e]) s.

(** A step that touches neither the entries, nor the sends, nor the
    storage, nor the identity of the session. *)
Definition quiet (s s' : ClientLogger) : Prop :=
  logQueue s' = logQueue s /\ awaiting s' = awaiting s
  /\ isSending s' = isSending s /\ network s' = network s
  /\ sessionId s' = sessionId s /\ localStorage s' = localStorage s
  /\ sessionStorage s' = sessionStorage s.

(** A property kept by each of the four things a handler turn is made
    of. *)
Definition preserved (P : ClientLogger -> Prop) : Prop :=
  (forall s s', quiet s s' -> P s -> P s')
  /\ (forall e s, P s -> P (push e s))
  /\ (forall sync env s, P s -> P (flushLogs sync env s))
  /\ (forall r env s, P s -> P (flushLogs_resume r env s)).

(** What has been handed to the transport and what is stored is well
    formed: no batch is empty, every batch carries the session id of the
    logger, the batch of an awaited send is one that went out over
    [fetch], and a backlog holds between one and [MAX_STORED_LOGS]
    entries. *)
Definition well_formed (s : ClientLogger) : Prop :=
  Forall (fun tx => logs (body tx) <> []
                    /\ payload_sessionId (body tx) = sessionId s)
         (network s)
  /\ Forall (fun b => b <> []
                      /\ exists tx, In tx (network s)
                                    /\ channel tx = ViaFetch
                                    /\ logs (body tx) = b)
            (awaiting s)
  /\ (forall l, localStorage s = Some (Entries l) ->
                (1 <= length l <= MAX_STORED_LOGS)%nat).

(** How the pending entries of [s] become those of [s']: a prefix [gone]
    has left, in one batch handed to the transport, the rest is kept in
    its order, and at most one entry is new, at the back. *)
Definition moves (s s' : ClientLogger) : Prop :=
  exists gone kept new,
    pending s = gone ++ kept
    /\ pending s' = kept ++ new
    /\ (length new <= 1)%nat
    /\ (gone = []
        \/ exists tx, In tx (network s') /\ logs (body tx) = gone).

(** The instance as the constructor has it just before its own
    [this.info(...)] call. *)
Definition before_first_log (b : Boot) : ClientLogger :=
  let sid := getOrCreateSessionId b in
  let l := if isDev b then DEBUG else INFO in
  startBatchTimer
    (loadPendingLogs
       (setupInterceptors
          {| logQueue := []; sessionId := fst sid; isOnline := onLine b;
             batchTimer := false; isSending := false;
             originalMethods := tabulate (native_method l);
             log_level := l;
             log_methods := tabulate (fun m => Native (native_method l m));
             localStorage := stored_logs b; sessionStorage := snd sid;
             console := []; network := []; awaiting := [] |})).

(** The arguments of the constructor's [this.info(...)] call. *)
Definition first_log (b : Boot) (env : Env) : list JVal :=
  [JStr "Client logger initialized";
   JObj [("sessionId", JStr (sessionId (before_first_log b)));
         ("logLevel", JNum (Z.of_nat (getLevel (before_first_log b))));
         ("environment", JStr (mode b));
         ("userAgent", JStr (userAgent env));
         ("screen", JObj [("width", screen_width b);
                          ("height", screen_height b);
                          ("pixelRatio", devicePixelRatio b)])]].

(** An entry as it comes back from the storage: [savePendingLogs] writes
    [JSON.stringify(logsToStore)] and [loadPendingLogs] reads it with
    [JSON.parse].  The string fields come back as they were; the metadata
    comes back as JSON carries it. *)
Definition stored_entry (e : LogEntry) : LogEntry :=
  {| timestamp := timestamp e; level := level e;
     entry_sessionId := entry_sessionId e; url := url e;
     message := message e;
     metadata := own_fields (through_JSON (JObj (metadata e)));
     entry_userAgent := entry_userAgent e |}.

(** What [JSON.parse] makes of the item the page left in the storage. *)
Definition parsed (item : Item) : Item :=
  match item with
  | Entries l => Entries (List.map stored_entry l)
  | Unusable e => Unusable e
  end.

(** The page as the next load finds it: same tab, so the same session
    storage, and the backlog this page wrote, read back from its text. *)
Definition reload (b : Boot) (s : ClientLogger) : Boot :=
  {| isDev := isDev b; mode := mode b; onLine := onLine b;
     now_ms := now_ms b; random36 := random36 b;
     screen_width := screen_width b; screen_height := screen_height b;
     devicePixelRatio := devicePixelRatio b;
     stored_session := sessionStorage s;
     stored_logs := option_map parsed (localStorage s) |}.

End LoggerState.

(** ** Notions used to state what the API client keeps *)

Module ApiState.
Import JS Api.

(** The id the request interceptor gives to the request it handles:
    [`${Date.now()}-${Math.random().toString(36).substr(2, 9)}`]. *)
Definition request_id (clk : Clock) : string :=
  string_of_Z (Date_now clk) +:+ "-" +:+ random36 clk.

(** The client a rejection handler leaves behind when it stops, be it at
    its end or at its first [await]. *)
Definition begun_client (b : Begun) : Client :=
  match b with
  | Done _ c => c
  | AtImport _ c => c
  end.

Definition resumed_client (r : Resumed) : Client :=
  match r with
  | Finished _ c => c
  | Reissue _ c => c
  end.

End ApiState.

(** ** A caller of the logger: the route logger *)

Module RouteLogger.
Import JS Logger.

(** [useLocation()] *)
Record Location : Type := {
  pathname : string;
  search : string;
  hash : string;
  state : JVal
}.

Definition routeMap : list (string * string) :=
  [("/", "Overview"); ("/config", "Config"); ("/templates", "Templates");
   ("/logs", "Logs"); ("/login", "Login")].

Fixpoint lookup_route (p : string) (m : list (string * string))
  : option string :=
  match m with
  | [] => None
  | (k, v) :: r => if String.eqb p k then Some v else lookup_route p r
  end.

(** [routeMap[location.pathname] || 'Unknown']; a pathname starts with a
    slash, so the lookup finds nothing but the five routes. *)
Definition expectedComponent (p : string) : string :=
  match lookup_route p routeMap with
  | Some name => if String.eqb name EmptyString then "Unknown" else name
  | None => "Unknown"
  end.

Definition navigation_args (loc : Location) (env : Env) : list JVal :=
  [JStr "[ROUTER] Navigation occurred";
   JObj [("pathname", JStr (pathname loc));
         ("search", JStr (search loc));
         ("hash", JStr (hash loc));
         ("state", state loc);
         ("timestamp", JStr (now_iso env))]].

Definition component_args (loc : Location) : list JVal :=
  [JStr ("[ROUTER] Expected component for route: "
         +:+ expectedComponent (pathname loc));
   JObj [("pathname", JStr (pathname loc))]].

(** The effect that runs when the location changes. *)
Definition on_navigation (loc : Location) (env : Env) (s : ClientLogger)
  : ClientLogger :=
  debug (component_args loc) env (info (navigation_args loc env) env s).

End RouteLogger.

(** * Reading a property back *)

Section ObjectReads.
Import JS.

Lemma assoc_set_field_eq k v fs : assoc k (set_field k v fs) = v.
Proof.
  induction fs as [| [k' v'] r IH]; simpl.
  - rewrite String.eqb_refl. reflexivity.
  - destruct (String.eqb k k') eqn:E; simpl; rewrite ?String.eqb_refl, ?E; auto.
Qed.

Lemma assoc_set_field_ne k k' v fs :
  k <> k' -> assoc k' (set_field k v fs) = assoc k' fs.
Proof.
  intros Hne. induction fs as [| [k2 v2] r IH]; simpl.
  - destruct (String.eqb k' k) eqn:E; [| reflexivity].
    apply String.eqb_eq in E. congruence.
  - destruct (String.eqb k k2) eqn:E; simpl.
    + apply String.eqb_eq in E. subst k2.
      destruct (String.eqb k' k) eqn:E'; [| reflexivity].
      apply String.eqb_eq in E'. congruence.
    + rewrite IH. reflexivity.
Qed.

End ObjectReads.

(** * Properties of the client logger *)

Section LoggerProperties.
Import JS Logger.

(** ** [slice(-n)] keeps the most recent entries *)

Lemma slice_last_all {A} (n : nat) (l : list A) :
  (length l <= n)%nat -> slice_last n l = l.
Proof.
  intros H. unfold slice_last.
  replace (length l - n)%nat with 0%nat by lia. reflexivity.
Qed.

Lemma slice_last_length {A} (n : nat) (l : list A) :
  (n <= length l)%nat -> length (slice_last n l) = n.
Proof. intros H. unfold slice_last. rewrite length_drop. lia. Qed.

Lemma slice_last_split {A} (n : nat) (l : list A) :
  l = take (length l - n) l ++ slice_last n l.
Proof. unfold slice_last. symmetry. apply take_drop. Qed.

(** ** The guards of [flushLogs] *)

Lemma flushLogs_guard sync env s :
  isSending s = true \/ logQueue s = [] -> flushLogs sync env s = s.
Proof.
  intros [H | H]; unfold flushLogs; rewrite H; [reflexivity |].
  simpl. rewrite orb_true_r. reflexivity.
Qed.

Lemma flushLogs_offline sync env s :
  isSending s = false -> logQueue s <> [] -> isOnline s = false ->
  flushLogs sync env s = savePendingLogs env s.
Proof.
  intros Hs Hq Ho. unfold flushLogs. rewrite Hs, Ho.
  destruct (logQueue s); [congruence | reflexivity].
Qed.

Lemma flushLogs_fetch env s :
  isSending s = false -> logQueue s <> [] -> isOnline s = true ->
  flushLogs false env s =
  set_awaiting (awaiting s ++ [logQueue s])
    (transmit ViaFetch (logQueue s) env
       (set_logQueue [] (set_isSending true s))).
Proof.
  intros Hs Hq Ho. unfold flushLogs. rewrite Hs, Ho.
  destruct (logQueue s); [congruence | reflexivity].
Qed.

Lemma savePendingLogs_nonempty env s :
  logQueue s <> [] -> storage_error env = None ->
  savePendingLogs env s =
  set_localStorage (Some (Entries (slice_last MAX_STORED_LOGS (logQueue s)))) s.
Proof.
  intros Hq He. unfold savePendingLogs. rewrite He.
  destruct (logQueue s); [congruence | reflexivity].
Qed.

(** Whatever the storage does, [savePendingLogs] leaves the queue, the
    network and the send state alone. *)
Lemma savePendingLogs_frame env s :
  logQueue (savePendingLogs env s) = logQueue s
  /\ network (savePendingLogs env s) = network s
  /\ isSending (savePendingLogs env s) = isSending s
  /\ awaiting (savePendingLogs env s) = awaiting s
  /\ isOnline (savePendingLogs env s) = isOnline s
  /\ sessionId (savePendingLogs env s) = sessionId s
  /\ echoes (savePendingLogs env s) = echoes s.
Proof.
  unfold savePendingLogs, echoes.
  destruct (0 <? _)%nat; [| auto 10].
  destruct (storage_error env); simpl; [| auto 10].
  rewrite List.filter_app. simpl. rewrite app_nil_r. auto 10.
Qed.

(** ** At most one awaited send *)

Lemma same_flight_ok s s' : same_flight s s' -> flight_ok s -> flight_ok s'.
Proof. intros [H1 H2]. unfold flight_ok. rewrite H1, H2. tauto. Qed.

Lemma same_flight_refl s : same_flight s s.
Proof. split; reflexivity. Qed.

Lemma same_flight_trans s1 s2 s3 :
  same_flight s1 s2 -> same_flight s2 s3 -> same_flight s1 s3.
Proof. intros [A B] [C D]. split; congruence. Qed.

Lemma same_flight_call_original m args s : same_flight s (call_original m args s).
Proof.
  unfold call_original. destruct (method_of (originalMethods s) m);
    split; reflexivity.
Qed.

Lemma same_flight_savePendingLogs env s : same_flight s (savePendingLogs env s).
Proof.
  destruct (savePendingLogs_frame env s) as (_ & _ & A & B & _).
  split; assumption.
Qed.

Lemma flight_ok_flushLogs sync env s :
  flight_ok s -> flight_ok (flushLogs sync env s).
Proof.
  intros H. unfold flushLogs.
  destruct (isSending s) eqn:Hs; simpl; [exact H |].
  destruct (length (logQueue s) =? 0)%nat; [exact H |].
  destruct (isOnline s); simpl.
  - destruct H as [[_ Ha] | [Hc _]]; [| congruence].
    destruct sync.
    + destruct (teardown env); left; simpl; auto.
      unfold flushLogs_catch. simpl.
      match goal with
      | |- context [savePendingLogs env ?t] =>
          destruct (savePendingLogs_frame env t) as (_ & _ & _ & B & _)
      end.
      rewrite B. auto.
    + right. simpl. rewrite Ha. eauto.
  - eapply same_flight_ok; [apply same_flight_savePendingLogs | exact H].
Qed.

Lemma flight_ok_flushLogs_resume r env s :
  flight_ok s -> flight_ok (flushLogs_resume r env s).
Proof.
  intros H. unfold flushLogs_resume.
  destruct (awaiting s) as [| batch others] eqn:Ha; [exact H |].
  destruct H as [[_ Hn] | [_ [b Hb]]]; [congruence |].
  assert (others = []) by congruence. subst others.
  left. destruct r as [status | reason]; [destruct (ok status) |];
    unfold flushLogs_catch; simpl; auto;
    match goal with
    | |- context [savePendingLogs env ?t] =>
        destruct (savePendingLogs_frame env t) as (_ & _ & _ & B & _)
    end; rewrite B; auto.
Qed.

Lemma flight_ok_addToQueue m args env s :
  flight_ok s -> flight_ok (addToQueue m args env s).
Proof.
  intros H. unfold addToQueue.
  destruct (LOG_BATCH_SIZE <=? _)%nat.
  - apply flight_ok_flushLogs.
    eapply same_flight_ok; [| exact H]. split; reflexivity.
  - eapply same_flight_ok; [| exact H]. split; reflexivity.
Qed.

Lemma flight_ok_log_call m args env s :
  flight_ok s -> flight_ok (log_call m args env s).
Proof.
  intros H. unfold log_call.
  destruct (method_of (log_methods s) m) as [[|]|].
  - exact H.
  - eapply same_flight_ok; [| exact H]. split; reflexivity.
  - apply flight_ok_addToQueue.
    eapply same_flight_ok; [apply same_flight_call_original | exact H].
Qed.

Lemma flight_ok_handle e env s : flight_ok s -> flight_ok (handle e env s).
Proof.
  intros H. destruct e; simpl.
  - apply flight_ok_log_call, H.
  - unfold setLevel, info. apply flight_ok_log_call.
    eapply same_flight_ok; [| exact H]. split; reflexivity.
  - unfold on_tick. destruct (batchTimer s); [| exact H].
    destruct (0 <? _)%nat; [apply flight_ok_flushLogs |]; exact H.
  - unfold on_online. apply flight_ok_flushLogs.
    eapply same_flight_ok; [| exact H].
    eapply same_flight_trans; [| apply same_flight_call_original].
    split; reflexivity.
  - unfold on_offline.
    eapply same_flight_ok; [| exact H].
    eapply same_flight_trans; [| apply same_flight_call_original].
    split; reflexivity.
  - apply flight_ok_flushLogs, H.
  - unfold on_visibilitychange. destruct hidden.
    + apply flight_ok_flushLogs.
      eapply same_flight_ok; [apply same_flight_call_original | exact H].
    + eapply same_flight_ok; [apply same_flight_call_original | exact H].
  - apply flight_ok_log_call, H.
  - apply flight_ok_log_call, H.
  - apply flight_ok_flushLogs_resume, H.
  - unfold destroy. apply flight_ok_flushLogs.
    destruct (batchTimer s); [| exact H].
    eapply same_flight_ok; [| exact H]. split; reflexivity.
Qed.

Lemma flight_ok_constructor b env : flight_ok (constructor b env).
Proof.
  unfold constructor, info. apply flight_ok_log_call.
  unfold startBatchTimer, loadPendingLogs, setupInterceptors. simpl.
  destruct (stored_logs b) as [[pending | e] |]; simpl.
  - eapply same_flight_ok; [apply same_flight_call_original |].
    left. split; reflexivity.
  - left. split; reflexivity.
  - left. split; reflexivity.
Qed.

Lemma reachable_flight_ok s : reachable s -> flight_ok s.
Proof.
  induction 1; [apply flight_ok_constructor | apply flight_ok_handle; assumption].
Qed.

Lemma reachable_run turns : forall s, reachable s -> reachable (run turns s).
Proof.
  induction turns as [| [e env] rest IH]; intros s H; simpl; [exact H |].
  apply IH. constructor. exact H.
Qed.

(** C10.  [flushLogs] is guarded by [isSending]: in every state the logger
    can reach at most one awaited send is suspended, the flag is set
    exactly while one is, and a flush invoked while the flag is set or the
    queue is empty, on either path and online or offline, returns the state
    unchanged, so it ships and persists nothing. *)
Theorem flushLogs_reentrancy s :
  reachable s ->
  (length (awaiting s) <= 1)%nat
  /\ (isSending s = true <-> awaiting s <> [])
  /\ (forall sync env,
        isSending s = true \/ logQueue s = [] -> flushLogs sync env s = s).
Proof.
  intros H. apply reachable_flight_ok in H.
  split; [| split].
  - destruct H as [[_ Ha] | [_ [b Hb]]]; [rewrite Ha | rewrite Hb]; simpl; lia.
  - destruct H as [[Hs Ha] | [Hs [b Hb]]]; rewrite Hs.
    + rewrite Ha. split; [discriminate | congruence].
    + rewrite Hb. split; [discriminate | reflexivity].
  - intros sync env. apply flushLogs_guard.
Qed.

Lemma flushLogs_reentrancy_witness :
  reachable Sample.sending_offline
  /\ isSending Sample.sending_offline = true
  /\ length (awaiting Sample.sending_offline) = 1%nat
  /\ flushLogs true Sample.env0 Sample.sending_offline = Sample.sending_offline.
Proof.
  assert (R : reachable Sample.sending_offline)
    by (apply reachable_run, reachable_constructor).
  split; [exact R |].
  destruct (flushLogs_reentrancy Sample.sending_offline R) as (_ & _ & G).
  split; [reflexivity |]. split; [reflexivity |].
  apply G. left. reflexivity.
Defined.

(** ** Connectivity *)

(** C8.  Going online flushes at once, with no call from the application:
    the listener ends in [flushLogs] on the state marked online, and with
    a non-empty queue and no send in flight the whole queue is handed to
    [fetch] in that turn.  Going offline flushes nothing: queue, backlog,
    network and send state are as before, and the flushes that follow send
    nothing. *)
Theorem connectivity_transitions env s :
  (exists s1,
      on_online env s = flushLogs false env s1
      /\ isOnline s1 = true /\ logQueue s1 = logQueue s
      /\ isSending s1 = isSending s /\ network s1 = network s)
  /\ (isSending s = false -> logQueue s <> [] ->
   network (on_online env s) = network s ++ [fetch_of (logQueue s) env s]
   /\ logQueue (on_online env s) = []
   /\ awaiting (on_online env s) = awaiting s ++ [logQueue s]
   /\ isOnline (on_online env s) = true)
  /\ (logQueue (on_offline s) = logQueue s
      /\ network (on_offline s) = network s
      /\ localStorage (on_offline s) = localStorage s
      /\ isSending (on_offline s) = isSending s
      /\ awaiting (on_offline s) = awaiting s
      /\ isOnline (on_offline s) = false)
  /\ (forall sync env',
        network (flushLogs sync env' (on_offline s)) = network s
        /\ logQueue (flushLogs sync env' (on_offline s)) = logQueue s).
Proof.
  split; [| split; [| split]].
  - eexists. split; [reflexivity |].
    unfold call_original. destruct (method_of _ _); simpl; auto.
  - intros Hs Hq. unfold on_online.
    set (s1 := call_original Minfo _ _).
    assert (E : isSending s1 = false /\ logQueue s1 = logQueue s
                /\ isOnline s1 = true /\ network s1 = network s
                /\ awaiting s1 = awaiting s /\ sessionId s1 = sessionId s).
    { unfold s1, call_original.
      destruct (method_of _ _); simpl; auto 10. }
    destruct E as (E1 & E2 & E3 & E4 & E5 & E6).
    rewrite flushLogs_fetch by congruence.
    simpl. unfold fetch_of, transmission. simpl.
    rewrite E2, E4, E5, E6. auto.
  - unfold on_offline, call_original.
    destruct (method_of _ _); simpl; auto 10.
  - intros sync env'. unfold on_offline, call_original, flushLogs.
    destruct (method_of _ _); simpl;
      destruct (isSending s); simpl; auto;
      destruct (length (logQueue s) =? 0)%nat; simpl; auto;
      match goal with
      | |- context [savePendingLogs env' ?t] =>
          destruct (savePendingLogs_frame env' t) as (A & B & _)
      end; rewrite A, B; auto.
Qed.

Lemma connectivity_transitions_witness :
  let s := handle Offline Sample.env0
             (constructor (Sample.boot false true) Sample.env0) in
  network (on_online Sample.env0 s) = [fetch_of (logQueue s) Sample.env0 s]
  /\ logQueue (on_online Sample.env0 s) = [].
Proof.
  intros s.
  destruct (connectivity_transitions Sample.env0 s) as (_ & H & _ & _).
  destruct H as (H1 & H2 & _); [reflexivity | discriminate |].
  split; [exact H1 | exact H2].
Defined.

(** ** Offline durability *)

(** C6 as stated fails.  A page goes offline while a send is in flight
    and then logs one more entry: the flush that follows returns at the
    guard, and the backlog stays empty although the queue is not. *)
Lemma offline_flush_skipped_while_sending :
  (let s := Sample.sending_offline in
   reachable s /\ isOnline s = false /\ isSending s = true
   /\ length (logQueue s) = 1%nat
   /\ localStorage (flushLogs false Sample.env0 s) = None)
  /\ ~ offline_flush_always_persists.
Proof.
  assert (R : reachable Sample.sending_offline)
    by (apply reachable_run, reachable_constructor).
  split.
  - split; [exact R |]. vm_compute. auto.
  - intros H.
    destruct (H false Sample.env0 Sample.sending_offline R eq_refl eq_refl)
      as [A _].
    assert (L : (length (logQueue Sample.sending_offline) <= MAX_STORED_LOGS)%nat)
      by (vm_compute; lia).
    specialize (A L). vm_compute in A. discriminate A.
Qed.

(** C6 (amended).  While offline, a flush invoked with a non-empty queue
    and no send in flight writes the queue to the backlog, when the storage
    accepts the write, and leaves queue and network alone: the whole queue
    when it holds at most [MAX_STORED_LOGS] entries, and otherwise exactly
    its [MAX_STORED_LOGS] most recent entries, in order, the oldest ones
    being dropped.  A flush invoked while a send is in flight changes
    nothing. *)
Theorem offline_flush_persists sync env s :
  isOnline s = false -> logQueue s <> [] ->
  (isSending s = true -> flushLogs sync env s = s)
  /\ (isSending s = false -> storage_error env = None ->
      logQueue (flushLogs sync env s) = logQueue s
      /\ network (flushLogs sync env s) = network s
      /\ ((length (logQueue s) <= MAX_STORED_LOGS)%nat ->
          localStorage (flushLogs sync env s) = Some (Entries (logQueue s)))
      /\ ((MAX_STORED_LOGS < length (logQueue s))%nat ->
          let kept :=
            drop (length (logQueue s) - MAX_STORED_LOGS) (logQueue s) in
          localStorage (flushLogs sync env s) = Some (Entries kept)
          /\ length kept = MAX_STORED_LOGS
          /\ logQueue s
             = take (length (logQueue s) - MAX_STORED_LOGS) (logQueue s)
               ++ kept)).
Proof.
  intros Ho Hq. split.
  - intros Hs. apply flushLogs_guard. left. exact Hs.
  - intros Hs He.
    rewrite flushLogs_offline, savePendingLogs_nonempty by assumption.
    simpl. repeat split.
    + intros Hle. rewrite slice_last_all by exact Hle. reflexivity.
    + apply (slice_last_length MAX_STORED_LOGS). lia.
    + apply slice_last_split.
Qed.

Lemma offline_flush_persists_witness :
  let s := Sample.offline_after 120 in
  length (logQueue s) = 121%nat
  /\ localStorage (flushLogs true Sample.env0 s)
     = Some (Entries (drop 21 (logQueue s))).
Proof.
  intros s.
  assert (L : length (logQueue s) = 121%nat) by (vm_compute; reflexivity).
  split; [exact L |].
  destruct (offline_flush_persists true Sample.env0 s) as (_ & H).
  - reflexivity.
  - intros E. rewrite E in L. discriminate L.
  - destruct H as (_ & _ & _ & H); [reflexivity | reflexivity |].
    destruct H as (H & _); [rewrite L; unfold MAX_STORED_LOGS; lia |].
    rewrite H, L. reflexivity.
Defined.

(** ** Size-triggered flush *)

(** C7 as stated fails.  A page is offline and holds 19 entries: the call
    that appends the twentieth sends nothing; it writes the twenty entries
    to the backlog. *)
Lemma threshold_reached_offline :
  (let s := Sample.offline_after 18 in
   let s' := addToQueue Minfo [JStr "x"] Sample.env0 s in
   reachable s /\ isOnline s = false /\ length (logQueue s) = 19%nat
   /\ length (logQueue s') = LOG_BATCH_SIZE
   /\ network s' = []
   /\ localStorage s' = Some (Entries (logQueue s')))
  /\ ~ threshold_always_ships.
Proof.
  assert (R : reachable (Sample.offline_after 18))
    by (apply reachable_run, reachable_constructor).
  split.
  - split; [exact R |]. vm_compute. auto 10.
  - intros H.
    destruct (H Minfo [JStr "x"] Sample.env0 (Sample.offline_after 18) R)
      as [tx E].
    + vm_compute. lia.
    + vm_compute in E. discriminate E.
Qed.

(** C7 (amended).  The call that brings the queue to [LOG_BATCH_SIZE]
    entries invokes [flushLogs] in the same turn, without a timer tick.
    That flush starts a shipment of the whole queue when the page is
    online and no send is in flight; offline it sends nothing and writes
    the backlog instead (when the storage accepts the write), and during a
    send it does nothing.  Below the threshold the entry is only
    appended. *)
Theorem size_triggered_flush m args env s :
  let q := logQueue s ++ [logEntry m args env s] in
  ((LOG_BATCH_SIZE <= length q)%nat ->
     addToQueue m args env s = flushLogs false env (set_logQueue q s)
     /\ (isSending s = false -> isOnline s = true ->
         network (addToQueue m args env s) = network s ++ [fetch_of q env s]
         /\ logQueue (addToQueue m args env s) = []
         /\ isSending (addToQueue m args env s) = true)
     /\ (isSending s = false -> isOnline s = false ->
         network (addToQueue m args env s) = network s
         /\ logQueue (addToQueue m args env s) = q
         /\ (storage_error env = None ->
             localStorage (addToQueue m args env s)
             = Some (Entries (slice_last MAX_STORED_LOGS q))))
     /\ (isSending s = true ->
         addToQueue m args env s = set_logQueue q s))
  /\ ((length q < LOG_BATCH_SIZE)%nat ->
      addToQueue m args env s = set_logQueue q s).
Proof.
  intros q. unfold addToQueue. fold q.
  change (logQueue (set_logQueue q s)) with q.
  split.
  - intros Hlen. apply Nat.leb_le in Hlen. rewrite Hlen.
    assert (Hq : logQueue (set_logQueue q s) <> [])
      by (simpl; unfold q; intros E; apply app_eq_nil in E; destruct E; discriminate).
    split; [reflexivity |]. split; [| split].
    + intros Hs Ho. rewrite flushLogs_fetch by (simpl; assumption).
      simpl. auto.
    + intros Hs Ho. rewrite flushLogs_offline by (simpl; assumption).
      destruct (savePendingLogs_frame env (set_logQueue q s)) as (A & B & _).
      rewrite A, B. repeat split.
      intros He. rewrite savePendingLogs_nonempty by (simpl; assumption).
      reflexivity.
    + intros Hs. apply flushLogs_guard. left. exact Hs.
  - intros Hlen. apply Nat.leb_gt in Hlen. rewrite Hlen. reflexivity.
Qed.

Lemma size_triggered_flush_witness :
  let s := run (repeat (Log Minfo [JStr "x"], Sample.env0) 18)
             (constructor (Sample.boot false true) Sample.env0) in
  let q := logQueue s ++ [logEntry Mwarn [JStr "y"] Sample.env0 s] in
  length q = LOG_BATCH_SIZE
  /\ network (addToQueue Mwarn [JStr "y"] Sample.env0 s) = [fetch_of q Sample.env0 s]
  /\ logQueue (addToQueue Mwarn [JStr "y"] Sample.env0 s) = [].
Proof.
  intros s q.
  assert (L : length q = LOG_BATCH_SIZE) by (vm_compute; reflexivity).
  split; [exact L |].
  destruct (size_triggered_flush Mwarn [JStr "y"] Sample.env0 s) as (H & _).
  destruct H as (_ & H & _); [fold q; rewrite L; lia |].
  destruct H as (H1 & H2 & _); [reflexivity | reflexivity |].
  split; [exact H1 | exact H2].
Defined.

(** ** Severity filter *)

Lemma same_setup_refl s : same_setup s s.
Proof. repeat split. Qed.

Lemma same_setup_trans s1 s2 s3 :
  same_setup s1 s2 -> same_setup s2 s3 -> same_setup s1 s3.
Proof. intros (A & B & C) (D & E & F). repeat split; congruence. Qed.

Lemma same_setup_ok s s' : same_setup s s' -> methods_ok s -> methods_ok s'.
Proof. intros (A & B & C). unfold methods_ok. rewrite A, B, C. tauto. Qed.

Lemma same_setup_call_original m args s : same_setup s (call_original m args s).
Proof.
  unfold call_original. destruct (method_of _ _); repeat split.
Qed.

Lemma same_setup_savePendingLogs env s : same_setup s (savePendingLogs env s).
Proof.
  unfold savePendingLogs. destruct (0 <? _)%nat; [| repeat split].
  destruct (storage_error env); repeat split.
Qed.

Lemma same_setup_flushLogs sync env s : same_setup s (flushLogs sync env s).
Proof.
  unfold flushLogs.
  destruct (isSending s || _); [apply same_setup_refl |].
  destruct (negb (isOnline s)); [apply same_setup_savePendingLogs |].
  destruct sync; [destruct (teardown env) |]; try (repeat split; fail).
  unfold flushLogs_catch, savePendingLogs. simpl.
  destruct (0 <? _)%nat; [| repeat split].
  destruct (storage_error env); repeat split.
Qed.

Lemma same_setup_flushLogs_resume r env s :
  same_setup s (flushLogs_resume r env s).
Proof.
  unfold flushLogs_resume.
  destruct (awaiting s); [apply same_setup_refl |].
  destruct r as [st | reason]; [destruct (ok st) |];
    unfold flushLogs_catch, savePendingLogs; simpl;
    try destruct (0 <? _)%nat; try destruct (storage_error env);
    repeat split.
Qed.

Lemma same_setup_addToQueue m args env s : same_setup s (addToQueue m args env s).
Proof.
  unfold addToQueue. destruct (LOG_BATCH_SIZE <=? _)%nat; [| repeat split].
  eapply same_setup_trans; [| apply same_setup_flushLogs]. repeat split.
Qed.

Lemma same_setup_log_call m args env s : same_setup s (log_call m args env s).
Proof.
  unfold log_call. destruct (method_of (log_methods s) m) as [[|]|].
  - apply same_setup_refl.
  - repeat split.
  - eapply same_setup_trans;
      [apply same_setup_call_original | apply same_setup_addToQueue].
Qed.

Lemma methods_ok_handle e env s : methods_ok s -> methods_ok (handle e env s).
Proof.
  intros H.
  assert (K : forall s', same_setup s s' -> methods_ok s')
    by (intros s' F; exact (same_setup_ok _ _ F H)).
  destruct e; simpl.
  - apply K, same_setup_log_call.
  - unfold setLevel, info.
    eapply same_setup_ok; [apply same_setup_log_call |].
    right. reflexivity.
  - apply K. unfold on_tick. destruct (batchTimer s); [| apply same_setup_refl].
    destruct (0 <? _)%nat; [apply same_setup_flushLogs | apply same_setup_refl].
  - apply K. unfold on_online.
    eapply same_setup_trans; [| apply same_setup_flushLogs].
    eapply same_setup_trans; [| apply same_setup_call_original]. repeat split.
  - apply K. unfold on_offline.
    eapply same_setup_trans; [| apply same_setup_call_original]. repeat split.
  - apply K, same_setup_flushLogs.
  - apply K. unfold on_visibilitychange. destruct hidden.
    + eapply same_setup_trans;
        [apply same_setup_call_original | apply same_setup_flushLogs].
    + apply same_setup_call_original.
  - apply K, same_setup_log_call.
  - apply K, same_setup_log_call.
  - apply K, same_setup_flushLogs_resume.
  - apply K. unfold destroy.
    eapply same_setup_trans; [| apply same_setup_flushLogs].
    destruct (batchTimer s); repeat split.
Qed.

Lemma methods_ok_constructor b env : methods_ok (constructor b env).
Proof.
  unfold constructor, info.
  eapply same_setup_ok; [apply same_setup_log_call |].
  unfold startBatchTimer, loadPendingLogs, setupInterceptors. simpl.
  destruct (stored_logs b) as [[pending | e] |]; simpl.
  - eapply same_setup_ok; [apply same_setup_call_original |].
    left. split; reflexivity.
  - left. split; reflexivity.
  - left. split; reflexivity.
Qed.

Lemma reachable_methods_ok s : reachable s -> methods_ok s.
Proof.
  induction 1; [apply methods_ok_constructor | apply methods_ok_handle; assumption].
Qed.

(** Until [setLevel] is called the interceptors stay in place. *)
Lemma intercepted_until_setLevel turns b env m :
  (forall l env', ~ In (SetLevel l, env') turns) ->
  method_of (log_methods (run turns (constructor b env))) m = Interceptor.
Proof.
  intros Hno.
  assert (G : forall s, log_methods s = tabulate (fun _ => Interceptor) ->
                        log_methods (run turns s) = tabulate (fun _ => Interceptor)).
  { induction turns as [| [e env'] rest IH]; intros s Hs; simpl; [exact Hs |].
    apply IH.
    - intros l env'' Hin. apply (Hno l env''). right. exact Hin.
    - destruct e; simpl;
        try (rewrite <- Hs; first
               [ apply same_setup_log_call | apply same_setup_flushLogs
               | apply same_setup_flushLogs_resume ]).
      + exfalso. apply (Hno l env'). left. reflexivity.
      + rewrite <- Hs. unfold on_tick. destruct (batchTimer s); [| reflexivity].
        destruct (0 <? _)%nat; [apply same_setup_flushLogs | reflexivity].
      + rewrite <- Hs. unfold on_online.
        etransitivity; [apply same_setup_flushLogs |].
        etransitivity; [apply same_setup_call_original | reflexivity].
      + rewrite <- Hs. unfold on_offline.
        etransitivity; [apply same_setup_call_original | reflexivity].
      + rewrite <- Hs. unfold on_visibilitychange. destruct hidden.
        * etransitivity; [apply same_setup_flushLogs |].
          apply same_setup_call_original.
        * apply same_setup_call_original.
      + rewrite <- Hs. unfold destroy.
        etransitivity; [apply same_setup_flushLogs |].
        destruct (batchTimer s); reflexivity. }
  rewrite G; [destruct m; reflexivity |].
  unfold constructor, info.
  etransitivity; [apply same_setup_log_call |].
  unfold startBatchTimer, loadPendingLogs, setupInterceptors. simpl.
  destruct (stored_logs b) as [[pending | e] |]; simpl; try reflexivity.
  etransitivity; [apply same_setup_call_original | reflexivity].
Qed.

Lemma echoes_addToQueue m args env s :
  echoes (addToQueue m args env s) = echoes s.
Proof.
  unfold addToQueue, flushLogs.
  destruct (LOG_BATCH_SIZE <=? _)%nat; simpl; [| reflexivity].
  destruct (isSending s); simpl; [reflexivity |].
  destruct (length _ =? 0)%nat; simpl; [reflexivity |].
  destruct (isOnline s); simpl; [reflexivity |].
  match goal with
  | |- context [savePendingLogs env ?t] =>
      destruct (savePendingLogs_frame env t) as (_ & _ & _ & _ & _ & _ & E)
  end.
  exact E.
Qed.

Lemma native_method_below l m :
  (method_rank m < level_rank l)%nat -> native_method l m = noop.
Proof.
  intros H. unfold native_method. apply Nat.ltb_lt in H. rewrite H. reflexivity.
Qed.

Lemma method_of_tabulate {F} (f : Method -> F) m : method_of (tabulate f) m = f m.
Proof. destruct m; reflexivity. Qed.

(** The entry that [addToQueue] creates stays in the queue or leaves in
    the batch that the same call ships. *)
Lemma addToQueue_lands m args env s :
  In (logEntry m args env s) (logQueue (addToQueue m args env s))
  \/ exists tx, network (addToQueue m args env s) = network s ++ [tx]
                /\ In (logEntry m args env s) (logs (body tx)).
Proof.
  set (e := logEntry m args env s).
  assert (Hin : In e (logQueue s ++ [e]))
    by (apply in_or_app; right; left; reflexivity).
  unfold addToQueue. fold e.
  destruct (LOG_BATCH_SIZE <=? _)%nat; [| left; exact Hin].
  unfold flushLogs. simpl.
  destruct (isSending s); simpl; [left; exact Hin |].
  destruct (length _ =? 0)%nat; simpl; [left; exact Hin |].
  destruct (isOnline s); simpl.
  - right. eexists. split; [reflexivity | exact Hin].
  - left.
    match goal with
    | |- context [savePendingLogs env ?t] =>
        destruct (savePendingLogs_frame env t) as (E & _)
    end.
    rewrite E. exact Hin.
Qed.

(** C4 as stated fails.  On a production page, whose level is [info], a
    [debug] call is not echoed, and its entry is appended to the queue. *)
Lemma below_level_still_queued :
  (let s := constructor (Sample.boot false true) Sample.env0 in
   let s' := log_call Mdebug [JStr "x"] Sample.env0 s in
   getLevel s = 2%nat /\ method_rank Mdebug = 1%nat
   /\ echoes s' = echoes s
   /\ logQueue s' = logQueue s ++ [logEntry Mdebug [JStr "x"] Sample.env0 s])
  /\ ~ below_level_dropped.
Proof.
  split.
  - vm_compute. auto.
  - intros H.
    destruct (H Mdebug [JStr "x"] Sample.env0
                (constructor (Sample.boot false true) Sample.env0))
      as (_ & Q & _).
    + apply reachable_constructor.
    + vm_compute. lia.
    + vm_compute in Q. discriminate Q.
Qed.

(** C4 (amended).  A logging call below the current minimum severity is
    never echoed to the console.  The network queue is not filtered by
    severity: as long as the method called is the interceptor installed at
    construction, a call at any level, below the minimum included, creates
    a [LogEntry] that is appended to the queue (where it stays, unless the
    same call ships it with the batch it completes). *)
Theorem severity_filter s m args env :
  reachable s ->
  ((method_rank m < getLevel s)%nat ->
   echoes (log_call m args env s) = echoes s)
  /\ (method_of (log_methods s) m = Interceptor ->
      In (logEntry m args env s) (logQueue (log_call m args env s))
      \/ exists tx, network (log_call m args env s) = network s ++ [tx]
                    /\ In (logEntry m args env s) (logs (body tx))).
Proof.
  intros R. apply reachable_methods_ok in R. split.
  - intros Hlt. unfold getLevel in Hlt. unfold log_call.
    destruct R as [[Hm Ho] | Hm]; rewrite Hm, method_of_tabulate.
    + rewrite echoes_addToQueue. unfold call_original.
      rewrite Ho, method_of_tabulate, native_method_below by exact Hlt.
      reflexivity.
    + rewrite native_method_below by exact Hlt. reflexivity.
  - intros Hi. unfold log_call. rewrite Hi.
    assert (E : logEntry m args env s = logEntry m args env (call_original m args s)
                /\ network (call_original m args s) = network s).
    { unfold call_original, logEntry.
      destruct (method_of (originalMethods s) m); split; reflexivity. }
    destruct E as [E1 E2]. rewrite E1, <- E2. apply addToQueue_lands.
Qed.

Lemma severity_filter_witness :
  let s := constructor (Sample.boot false true) Sample.env0 in
  (method_rank Mdebug < getLevel s)%nat
  /\ echoes (log_call Mdebug [JStr "x"] Sample.env0 s) = echoes s
  /\ In (logEntry Mdebug [JStr "x"] Sample.env0 s)
        (logQueue (log_call Mdebug [JStr "x"] Sample.env0 s)).
Proof.
  intros s.
  assert (L : (method_rank Mdebug < getLevel s)%nat) by (vm_compute; lia).
  split; [exact L |].
  destruct (severity_filter s Mdebug [JStr "x"] Sample.env0
              (reachable_constructor _ _)) as [A B].
  split; [exact (A L) |].
  destruct (B eq_refl) as [H | [tx [H _]]]; [exact H |].
  vm_compute in H. discriminate H.
Defined.

(** ** Requeue on failure *)

(** C1 as stated fails.  A teardown flush in a browser without
    [sendBeacon] is answered with HTTP 500: the batch has gone out over the
    synchronous request and is neither in the queue nor in the backlog
    afterwards. *)
Lemma teardown_failure_not_requeued :
  (let s := constructor (Sample.boot false true) Sample.env0 in
   let s' := flushLogs true (Sample.env_xhr 500) s in
   isOnline s = true /\ isSending s = false /\ length (logQueue s) = 1%nat
   /\ List.map channel (network s') = [ViaXhr]
   /\ logQueue s' = [] /\ localStorage s' = None)
  /\ ~ all_send_failures_requeue.
Proof.
  split.
  - vm_compute. auto 10.
  - intros [_ H].
    specialize (H (Sample.env_xhr 500)
                  (constructor (Sample.boot false true) Sample.env0)
                  (reachable_constructor _ _) eq_refl eq_refl eq_refl).
    vm_compute in H. discriminate H.
Qed.

(** C1 (amended).  When the awaited send of a flush fails (a response that
    is not 2xx, or a rejected [fetch]), the whole batch goes back to the
    front of the live queue, ahead of the entries appended while the send
    was in flight, none of it dropped; the re-formed queue is written to
    the backlog, whole when it holds at most [MAX_STORED_LOGS] entries and
    otherwise its most recent [MAX_STORED_LOGS]; and the next flush, if the
    page is online, ships the batch followed by the entries logged in
    between, in that order.  The entries logged in flight are separate from
    the batch because the flush swapped the queue for an empty one.  On
    the teardown path the same requeue happens when the send raises, and
    only then: a beacon, or a synchronous request that completes with
    whatever status, is not followed up, and leaves the queue empty and the
    backlog untouched.  The backlog is written whenever the storage accepts
    the write. *)
Theorem failed_send_requeues r env s batch others env' :
  awaiting s = batch :: others -> batch <> [] -> failed r = true ->
  (logQueue (flushLogs_resume r env s) = batch ++ logQueue s
   /\ (storage_error env = None ->
       localStorage (flushLogs_resume r env s)
       = Some (Entries (slice_last MAX_STORED_LOGS (batch ++ logQueue s))))
   /\ (storage_error env = None ->
       (length (batch ++ logQueue s) <= MAX_STORED_LOGS)%nat ->
       localStorage (flushLogs_resume r env s)
       = Some (Entries (batch ++ logQueue s)))
   /\ isSending (flushLogs_resume r env s) = false
   /\ (isOnline s = true ->
       network (flushLogs false env' (flushLogs_resume r env s))
       = network s ++ [fetch_of (batch ++ logQueue s) env' s]))
  /\ (forall env0 s0,
        isSending s0 = false -> logQueue s0 <> [] -> isOnline s0 = true ->
        logQueue (flushLogs false env0 s0) = []
        /\ awaiting (flushLogs false env0 s0) = awaiting s0 ++ [logQueue s0]
        /\ network (flushLogs false env0 s0)
           = network s0 ++ [fetch_of (logQueue s0) env0 s0])
  /\ (forall env0 reason s0,
        isSending s0 = false -> logQueue s0 <> [] -> isOnline s0 = true ->
        teardown env0 = XhrThrows reason ->
        logQueue (flushLogs true env0 s0) = logQueue s0
        /\ (storage_error env0 = None ->
            localStorage (flushLogs true env0 s0)
            = Some (Entries (slice_last MAX_STORED_LOGS (logQueue s0))))
        /\ network (flushLogs true env0 s0) = network s0
        /\ isSending (flushLogs true env0 s0) = false)
  /\ (forall env0 s0,
        isSending s0 = false -> logQueue s0 <> [] -> isOnline s0 = true ->
        forall via,
          match teardown env0 with
          | Beacon _ => via = ViaBeacon
          | XhrDone _ => via = ViaXhr
          | XhrThrows _ => False
          end ->
          logQueue (flushLogs true env0 s0) = []
          /\ localStorage (flushLogs true env0 s0) = localStorage s0
          /\ network (flushLogs true env0 s0)
             = network s0 ++ [transmission via (logQueue s0) env0 s0]
          /\ isSending (flushLogs true env0 s0) = false).
Proof.
  intros Ha Hb Hf.
  assert (Hne : batch ++ logQueue s <> [])
    by (intros E; apply app_eq_nil in E; destruct E; contradiction).
  split; [| split; [| split]].
  - assert (E : exists err,
               flushLogs_resume r env s =
               set_isSending false
                 (flushLogs_catch batch err env (set_awaiting others s))).
    { unfold flushLogs_resume. rewrite Ha.
      destruct r as [st | reason]; simpl in Hf.
      - apply negb_true_iff in Hf. rewrite Hf. eauto.
      - eauto. }
    destruct E as [err E]. rewrite E. clear E.
    unfold flushLogs_catch.
    set (t := set_logQueue (batch ++ logQueue (set_awaiting others s))
                (set_awaiting others s)).
    destruct (savePendingLogs_frame env t) as (A & B & C & D & F & G & _).
    assert (S1 : storage_error env = None ->
                 localStorage (savePendingLogs env t)
                 = Some (Entries (slice_last MAX_STORED_LOGS (batch ++ logQueue s)))).
    { intros He. rewrite savePendingLogs_nonempty by (try exact He; exact Hne).
      reflexivity. }
    split; [simpl; rewrite A; reflexivity |].
    split; [intros He; simpl; exact (S1 He) |].
    split; [intros He Hle; simpl; rewrite (S1 He), slice_last_all by exact Hle;
            reflexivity |].
    split; [reflexivity |].
    intros Ho.
    rewrite flushLogs_fetch; simpl; rewrite ?A, ?B, ?D, ?F, ?G;
      try reflexivity; try assumption.
    unfold fetch_of, transmission. simpl. rewrite G. reflexivity.
  - intros env0 s0 Hs Hq Ho. rewrite flushLogs_fetch by assumption.
    simpl. auto.
  - intros env0 reason s0 Hs Hq Ho Ht. unfold flushLogs.
    rewrite Hs, Ho, Ht.
    destruct (logQueue s0) as [| e q] eqn:Eq; [congruence |].
    simpl. unfold flushLogs_catch.
    set (t := set_logQueue _ _).
    destruct (savePendingLogs_frame env0 t) as (A & B & _).
    simpl. rewrite A, B. unfold t. simpl. rewrite app_nil_r.
    repeat split.
    intros He. rewrite savePendingLogs_nonempty; try exact He.
    + reflexivity.
    + simpl. discriminate.
  - intros env0 s0 Hs Hq Ho via Hv. unfold flushLogs. rewrite Hs, Ho.
    destruct (logQueue s0) as [| e q] eqn:Eq; [congruence |].
    simpl. destruct (teardown env0); [subst via .. | contradiction];
      simpl; auto.
Qed.

Lemma failed_send_requeues_witness :
  let s := Sample.in_flight_with_newer in
  exists a b c,
    awaiting s = [[a; b]] /\ logQueue s = [c]
    /\ logQueue (flushLogs_resume (Response 500) Sample.env0 s) = [a; b; c]
    /\ localStorage (flushLogs_resume (Response 500) Sample.env0 s)
       = Some (Entries [a; b; c])
    /\ logs (body (List.last
                     (network (flushLogs false Sample.env0
                                 (flushLogs_resume (Response 500) Sample.env0 s)))
                     (fetch_of [] Sample.env0 s)))
       = [a; b; c].
Proof.
  intros s.
  destruct (awaiting s) as [| [| a [| b [|]]] [|]] eqn:Ea; try discriminate Ea.
  destruct (logQueue s) as [| c [|]] eqn:Eq; try discriminate Eq.
  exists a, b, c.
  destruct (failed_send_requeues (Response 500) Sample.env0 s [a; b] []
              Sample.env0 Ea)
    as ((H1 & _ & H3 & _ & H5) & _ & _ & _); [discriminate | reflexivity |].
  rewrite Eq in *.
  split; [reflexivity |]. split; [reflexivity |].
  split; [exact H1 |].
  split; [apply H3; [reflexivity | simpl; unfold MAX_STORED_LOGS; lia] |].
  rewrite (H5 eq_refl). rewrite List.last_last. reflexivity.
Defined.

(** ** The scenarios of the specification *)

(** [info("A")], [info("B")], [info("C")], then the connection drops, then
    [info("D")]: after the teardown flush the backlog holds the entry
    logged by the constructor followed by A, B, C, D, in that order, and
    nothing has been sent. *)
Example offline_scenario :
  let s := run [(Log Minfo [JStr "A"], Sample.env0);
                (Log Minfo [JStr "B"], Sample.env0);
                (Log Minfo [JStr "C"], Sample.env0);
                (Offline, Sample.env0);
                (Log Minfo [JStr "D"], Sample.env0);
                (BeforeUnload, Sample.env0)]
             (constructor (Sample.boot false true) Sample.env0) in
  match localStorage s with
  | Some (Entries backlog) =>
      List.map message (List.tl backlog) = ["A"; "B"; "C"; "D"]
  | _ => False
  end
  /\ network s = [].
Proof. vm_compute. split; reflexivity. Qed.

(** A shipment answered with HTTP 500 comes back to the front of the
    queue, and the next shipment carries it followed by what was logged in
    between. *)
Example http_500_scenario :
  let s := run [(Log Minfo [JStr "A"], Sample.env0);
                (Tick, Sample.env0);
                (Log Minfo [JStr "B"], Sample.env0);
                (FetchSettled (Response 500), Sample.env0);
                (Tick, Sample.env0);
                (FetchSettled (Response 204), Sample.env0)]
             (constructor (Sample.boot false true) Sample.env0) in
  List.map (fun tx => List.map message (List.tl (logs (body tx)))) (network s)
  = [["A"]; ["A"; "B"]]
  /\ logQueue s = [] /\ isSending s = false.
Proof. vm_compute. repeat split; reflexivity. Qed.

(** After [setLevel], the methods of [log] are loglevel's own again: a
    later call is echoed or dropped by level and is not queued. *)
Example setLevel_replaces_interceptors :
  let s0 := constructor (Sample.boot false true) Sample.env0 in
  let s := run [(SetLevel WARN, Sample.env0);
                (Log Merror [JStr "late"], Sample.env0)] s0 in
  logQueue s = logQueue s0
  /\ List.last (console s) (ConsoleError EmptyString EmptyString)
     = Echo Merror [JStr "late"].
Proof. vm_compute. split; reflexivity. Qed.

End LoggerProperties.

(** * Properties of the API client *)

Section ApiProperties.
Import JS Api.

(** ** What the request log contains *)

(** C5 as stated fails.  The same request is dispatched with two different
    bearer values: the two records logged differ, and the record contains
    the bearer value. *)
Lemma authorization_header_logged :
  (let logged tok :=
     effects (snd (on_request Requests.clock0
                     (set_header "Authorization" (JStr tok) Requests.get_config)
                     Requests.client0)) in
   logged "Bearer first" <> logged "Bearer second"
   /\ match logged "Bearer first" with
      | [ELog Logger.Mdebug [_; meta]] =>
          get (get meta "headers") "Authorization" = JStr "Bearer first"
      | _ => False
      end)
  /\ ~ credentials_redacted.
Proof.
  split.
  - split; [vm_compute; discriminate | vm_compute; reflexivity].
  - intros H.
    specialize (H Requests.clock0 Requests.get_config Requests.client0
                  (JStr "Bearer first") (JStr "Bearer second")).
    vm_compute in H. discriminate H.
Qed.

(** C5 (amended).  The DEBUG record logged at dispatch carries the
    request's headers as they are, with no redaction: its [headers]
    property is the header object of the request, so an authorization
    header present on the request is in the record with its value, and the
    same holds for the metadata of the log entry built from it. *)
Theorem request_headers_logged_verbatim clk cfg c env s :
  let id := string_of_Z (Date_now clk) +:+ "-" +:+ random36 clk in
  let entry := Logger.logEntry Logger.Mdebug (request_log cfg id) env s in
  effects (snd (on_request clk cfg c))
  = effects c ++ [ELog Logger.Mdebug (request_log cfg id)]
  /\ assoc "headers" (Logger.metadata entry) = JObj (headers cfg)
  /\ get (assoc "headers" (Logger.metadata entry)) "Authorization"
     = assoc "Authorization" (headers cfg).
Proof.
  intros id entry. split; [reflexivity |].
  assert (E : assoc "headers" (Logger.metadata entry) = JObj (headers cfg))
    by reflexivity.
  split; [exact E |]. rewrite E. reflexivity.
Qed.

(** The bearer value reaches the text of the entry as well. *)
Example bearer_in_message :
  let cfg := set_header "Authorization" (JStr "Bearer s3cr3t") Requests.get_config in
  let args := request_log cfg "1714557600000-q1w2e3r4t" in
  includes "Bearer s3cr3t" (Logger.formatMessage args) = true.
Proof. vm_compute. reflexivity. Qed.

(** ** Classification of failures *)

(** C9 as stated fails.  A 500 comes back from [/api/auth/status]: the
    failure is logged at ERROR and rejected, and no notification is
    shown. *)
Lemma probe_5xx_not_notified :
  (match on_rejected 0%Z (Requests.failure Requests.probe_config 500)
           Requests.client0 with
   | Done (RejectedWith _) c' =>
       List.map (fun e => match e with
                          | ELog m _ => Logger.method_name m
                          | EToast _ => "toast"
                          | _ => "other"
                          end) (effects c')
       = ["error"]
   | _ => False
   end)
  /\ ~ server_error_always_notified.
Proof.
  split.
  - vm_compute. reflexivity.
  - intros H.
    destruct (H 0%Z (Requests.failure Requests.probe_config 500) Requests.client0
                (Requests.http 500 (JObj [("detail", JStr "boom")]))
                Requests.probe_config eq_refl eq_refl)
      as (o & c' & E & _ & [msg Hin]).
    + simpl. lia.
    + vm_compute in E. injection E as _ Ec. subst c'.
      simpl in Hin. destruct Hin as [Hin | []]. discriminate Hin.
Qed.

Lemma on_rejected_not_401 now error c r :
  response error = Some r -> status r <> 401%Z ->
  on_rejected now error c =
  let '(duration, c1) := take_timing (config error ≫= requestId) now c in
  let '(o, c2) := classify error (errorDetails error duration) c1 in
  Done o c2.
Proof.
  intros Hr Hs. unfold on_rejected. rewrite Hr.
  apply Z.eqb_neq in Hs. rewrite Hs. reflexivity.
Qed.

(** C9 (amended).  A failed response with status 500 or more is logged
    at ERROR and the failure is handed back to the caller as a rejection.
    A notification is shown unless the request's URL contains
    [/auth/status]: the exemption of the status probe is applied to every
    failure that carries a response, the 5xx class included.  Its text is
    the [detail] or [message] of the response body when there is one, and
    the generic text otherwise. *)
Theorem server_error_handling now error c r cfg :
  response error = Some r -> config error = Some cfg ->
  (500 <= status r)%Z ->
  let duration := fst (take_timing (requestId cfg) now c) in
  exists c',
    on_rejected now error c = Done (RejectedWith error) c'
    /\ effects c'
       = effects c
         ++ [ELog Logger.Merror
               [JStr ("API Server Error: " +:+ method_and_url (Some cfg));
                JObj (errorDetails error duration)]]
         ++ (if is_probe cfg then [] else [EToast (notification r)]).
Proof.
  intros Hr Hc Hs duration.
  rewrite (on_rejected_not_401 now error c r Hr) by lia.
  rewrite Hc. simpl. fold duration.
  assert (Et : effects (snd (take_timing (requestId cfg) now c)) = effects c).
  { unfold take_timing. destruct (requestId cfg) as [i |]; [| reflexivity].
    destruct (String.eqb i EmptyString); [reflexivity |].
    destruct (requestTimings c !! i); reflexivity. }
  destruct (take_timing (requestId cfg) now c) as [d c1] eqn:Ett.
  simpl in Et. subst duration. simpl.
  unfold classify. rewrite Hr, Hc.
  apply Z.leb_le in Hs. rewrite Hs.
  destruct (is_probe cfg);
    simpl; eexists; (split; [reflexivity |]); simpl; rewrite Et;
    rewrite <- ?app_assoc; reflexivity.
Qed.

Lemma server_error_handling_witness :
  exists c',
    on_rejected 0%Z (Requests.failure Requests.get_config 503) Requests.client0
    = Done (RejectedWith (Requests.failure Requests.get_config 503)) c'
    /\ List.last (effects c') ELogout = EToast (JStr "boom").
Proof.
  destruct (server_error_handling 0%Z (Requests.failure Requests.get_config 503)
              Requests.client0
              (Requests.http 503 (JObj [("detail", JStr "boom")]))
              Requests.get_config eq_refl eq_refl) as (c' & E & F).
  - simpl. lia.
  - exists c'. split; [exact E |]. rewrite F. reflexivity.
Defined.

(** A 404 is logged at WARN and notified with the detail of the body;
    a request that got no response is logged at ERROR and notified with
    the connectivity text. *)
Example client_error_classified :
  match on_rejected 0%Z (Requests.failure Requests.get_config 404)
          Requests.client0 with
  | Done (RejectedWith _) c =>
      List.map (fun e => match e with
                         | ELog m _ => Logger.method_name m
                         | EToast v => to_String v
                         | _ => EmptyString
                         end) (effects c)
      = ["warn"; "boom"]
  | _ => False
  end.
Proof. vm_compute. reflexivity. Qed.

Example network_error_classified :
  match on_rejected 0%Z
          (error_of Requests.get_config (Unanswered "Network Error" JUndefined))
          Requests.client0 with
  | Done (RejectedWith _) c =>
      List.map (fun e => match e with
                         | ELog m _ => Logger.method_name m
                         | EToast v => to_String v
                         | _ => EmptyString
                         end) (effects c)
      = ["error"; "No response from server. Please check your connection."]
  | _ => False
  end.
Proof. vm_compute. reflexivity. Qed.

(** The probe is exempt from the notification for a 4xx as for a 5xx. *)
Example probe_silent :
  match on_rejected 0%Z (Requests.failure Requests.probe_config 404)
          Requests.client0,
        on_rejected 0%Z (Requests.failure Requests.probe_config 500)
          Requests.client0 with
  | Done _ c4, Done _ c5 =>
      List.map (fun e => match e with
                         | ELog m _ => Logger.method_name m
                         | _ => "other"
                         end) (effects c4 ++ effects c5)
      = ["warn"; "error"]
  | _, _ => False
  end.
Proof. vm_compute. reflexivity. Qed.

(** ** One retry per request *)

Lemma api_S fuel w cfg s :
  api (S fuel) w cfg s =
  let sent := fst (on_request (clock w (turn s)) cfg (client s)) in
  let c1 := snd (on_request (clock w (turn s)) cfg (client s)) in
  let answer := exchange w (length (wire s)) sent in
  let now := performance_now (clock w (S (turn s))) in
  let sent_all := wire s ++ [sent] in
  let t2 := S (S (turn s)) in
  match succeeded answer with
  | Some r =>
      ({| client := snd (on_fulfilled now sent r c1); wire := sent_all;
          turn := t2; refreshes := refreshes s |},
       Some (fst (on_fulfilled now sent r c1)))
  | None =>
      match on_rejected now (error_of sent answer) c1 with
      | Done o c2 =>
          ({| client := c2; wire := sent_all; turn := t2;
              refreshes := refreshes s |}, Some o)
      | AtImport f c2 =>
          match after_refresh (fst (refreshed w (refreshes s)))
                  (snd (refreshed w (refreshes s))) f c2 with
          | Reissue req c3 =>
              api fuel w req
                {| client := c3; wire := sent_all; turn := t2;
                   refreshes := S (refreshes s) |}
          | Finished o c3 =>
              ({| client := c3; wire := sent_all; turn := t2;
                  refreshes := S (refreshes s) |}, Some o)
          end
      end
  end.
Proof.
  simpl. destruct (succeeded _); [destruct (on_fulfilled _ _ _ _); reflexivity |].
  destruct (on_rejected _ _ _); [reflexivity |].
  destruct (refreshed w (refreshes s)). reflexivity.
Qed.

Lemma classify_with_response error details c r cfg :
  response error = Some r -> config error = Some cfg ->
  fst (classify error details c) = RejectedWith error.
Proof. intros Hr Hc. unfold classify. rewrite Hr, Hc. reflexivity. Qed.

(** The handler suspends for a refresh only on a 401 for a request that
    has not been retried, and it marks that request. *)
Lemma on_rejected_AtImport now error c f c' :
  on_rejected now error c = AtImport f c' ->
  exists req r,
    config error = Some req /\ _retry req = false
    /\ response error = Some r /\ status r = 401%Z
    /\ originalRequest f = set_retry req
    /\ frame_error f = with_config (set_retry req) error.
Proof.
  unfold on_rejected. destruct (take_timing _ _ _) as [d c1].
  destruct (response error) as [r |] eqn:Hr.
  - destruct (status r =? 401)%Z eqn:Hs.
    + destruct (config error) as [req |] eqn:Hc; [| discriminate].
      destruct (_retry req) eqn:Ht; simpl.
      * destruct (classify _ _ _); discriminate.
      * intros E. injection E as <- _. exists req, r.
        apply Z.eqb_eq in Hs. auto 10.
    + destruct (classify _ _ _); discriminate.
  - destruct (classify _ _ _); discriminate.
Qed.


(** A 401 for a request already retried is classified and rejected. *)
Lemma on_rejected_retried now error c req r :
  config error = Some req -> _retry req = true -> response error = Some r ->
  exists c', on_rejected now error c = Done (RejectedWith error) c'.
Proof.
  intros Hc Ht Hr. unfold on_rejected.
  destruct (take_timing _ _ _) as [d c1]. rewrite Hr, Hc, Ht. simpl.
  assert (E := classify_with_response error (errorDetails error d) c1 r req Hr Hc).
  destruct (status r =? 401)%Z; destruct (classify _ _ _) as [o c2];
    simpl in E; subst o; eauto.
Qed.

Lemma succeeded_401 r : status r = 401%Z -> succeeded (Answered r) = None.
Proof. intros H. unfold succeeded, validateStatus. rewrite H. reflexivity. Qed.

(** The attempt for a request that is already marked takes one exchange
    and no refresh, whatever the answer. *)
Lemma api_retried fuel w cfg s :
  _retry cfg = true ->
  let sent := fst (on_request (clock w (turn s)) cfg (client s)) in
  exists o c',
    api (S fuel) w cfg s =
    ({| client := c'; wire := wire s ++ [sent]; turn := S (S (turn s));
        refreshes := refreshes s |}, Some o)
    /\ (forall r, exchange w (length (wire s)) sent = Answered r ->
                  status r = 401%Z ->
                  o = RejectedWith (error_of sent (Answered r))).
Proof.
  intros Ht sent. rewrite api_S. fold sent. cbv zeta.
  destruct (succeeded (exchange w (length (wire s)) sent)) as [r |] eqn:Hs.
  - do 2 eexists. split; [reflexivity |].
    intros r2 E H401. rewrite E, (succeeded_401 r2 H401) in Hs. discriminate Hs.
  - destruct (exchange w (length (wire s)) sent) as [r | msg stk | msg stk] eqn:Hx.
    + destruct (on_rejected_retried
                  (performance_now (clock w (S (turn s))))
                  (error_of sent (Answered r))
                  (snd (on_request (clock w (turn s)) cfg (client s)))
                  sent r eq_refl Ht eq_refl) as [c' E].
      rewrite E. do 2 eexists. split; [reflexivity |].
      intros r2 E2 _. injection E2 as <-. reflexivity.
    + destruct (on_rejected _ _ _) as [o c2 | f c2] eqn:E.
      * do 2 eexists. split; [reflexivity |]. intros r2 E2. discriminate E2.
      * apply on_rejected_AtImport in E.
        destruct E as (req & r & _ & _ & Hr & _). discriminate Hr.
    + destruct (on_rejected _ _ _) as [o c2 | f c2] eqn:E.
      * do 2 eexists. split; [reflexivity |]. intros r2 E2. discriminate E2.
      * apply on_rejected_AtImport in E.
        destruct E as (req & r & _ & _ & Hr & _). discriminate Hr.
Qed.

(** With two units of fuel [api] always returns. *)
Lemma api_total n w cfg s : exists s' o, api (S (S n)) w cfg s = (s', Some o).
Proof.
  rewrite api_S. cbv zeta.
  destruct (succeeded _); [eauto |].
  destruct (on_rejected _ _ _) as [o c2 | f c2] eqn:E; [eauto |].
  apply on_rejected_AtImport in E. destruct E as (req & r & _ & _ & _ & _ & Ho & _).
  unfold after_refresh. destruct (fst (refreshed w (refreshes s))).
  - rewrite Ho.
    match goal with
    | |- context [api (S n) w ?c ?t] =>
        destruct (api_retried n w c t eq_refl) as (o & c' & E & _)
    end.
    rewrite E. eauto.
  - destruct (classify _ _ _). eauto.
Qed.





(** The reissued request is logged at dispatch like any other, with the
    refreshed bearer value among its headers. *)
Example retry_logs_bearer :
  let '(s', o) :=
    api 2 Requests.expired_once Requests.get_config Requests.session0 in
  o = Some (Fulfilled (Requests.http 200 (JObj [("ok", JBool true)])))
  /\ List.map (fun cfg => assoc "Authorization" (headers cfg)) (wire s')
     = [JUndefined; JStr "Bearer fresh-token"]
  /\ existsb (fun e => match e with
                       | ELog Logger.Mdebug args =>
                           includes "Bearer fresh-token" (Logger.formatMessage args)
                       | _ => false
                       end) (effects (client s')) = true.
Proof. vm_compute. auto. Qed.

(** ** Concurrent 401s *)

Lemma on_rejected_suspends now error c req r :
  config error = Some req -> _retry req = false ->
  response error = Some r -> status r = 401%Z ->
  on_rejected now error c =
  AtImport
    {| originalRequest := set_retry req;
       frame_error := with_config (set_retry req) error;
       frame_details :=
         errorDetails error (fst (take_timing (requestId req) now c)) |}
    (emit (ELog Logger.Minfo
             [JStr "Token expired, attempting refresh";
              JObj [("url", of_option (url req))]])
       (snd (take_timing (requestId req) now c))).
Proof.
  intros Hc Ht Hr Hs. unfold on_rejected. rewrite Hc. simpl.
  destruct (take_timing _ _ _) as [d c1]. rewrite Hr, Hs, Ht. reflexivity.
Qed.

Lemma step_failure_suspends now error l req r :
  config error = Some req -> _retry req = false ->
  response error = Some r -> status r = 401%Z ->
  step (Failure now error) l =
  {| loop_client :=
       emit (ELog Logger.Minfo
               [JStr "Token expired, attempting refresh";
                JObj [("url", of_option (url req))]])
         (snd (take_timing (requestId req) now (loop_client l)));
     loop_store := loop_store l;
     next_task := S (next_task l);
     at_import :=
       at_import l ++
       [(next_task l,
         {| originalRequest := set_retry req;
            frame_error := with_config (set_retry req) error;
            frame_details :=
              errorDetails error
                (fst (take_timing (requestId req) now (loop_client l))) |})];
     at_refresh := at_refresh l; reissued := reissued l;
     settled := settled l |}.
Proof.
  intros Hc Ht Hr Hs. unfold step.
  rewrite (on_rejected_suspends _ _ _ _ _ Hc Ht Hr Hs). reflexivity.
Qed.

Lemma merge_one_two {A} (x y z : A) tr :
  merge [x] [y; z] tr -> tr = [x; y; z] \/ tr = [y; x; z] \/ tr = [y; z; x].
Proof.
  intros H. inversion H as [| ? ? ? ? H1 | ? ? ? ? H1]; subst.
  - inversion H1 as [| |? ? ? ? H2]; subst.
    inversion H2 as [| |? ? ? ? H3]; subst.
    inversion H3; subst. auto.
  - inversion H1 as [| ? ? ? ? H2 | ? ? ? ? H2]; subst.
    + inversion H2 as [| |? ? ? ? H3]; subst.
      inversion H3; subst. auto.
    + inversion H2 as [| ? ? ? ? H3 |]; subst.
      inversion H3; subst. auto.
Qed.

Lemma eqb_succ_l n : Nat.eqb (S n) n = false.
Proof. apply Nat.eqb_neq. lia. Qed.

Lemma eqb_succ_r n : Nat.eqb n (S n) = false.
Proof. apply Nat.eqb_neq. lia. Qed.

(** Within one window, that is as long as the refresh has not settled, at
    most one refresh call is performed, however many handlers ask. *)
Lemma window_refresh_calls tr :
  (forall success fresh, ~ In (RefreshSettled success fresh) tr) ->
  forall l,
    (AuthCoordinator.in_flight (loop_store l) = true ->
     AuthCoordinator.refresh_calls (loop_store (steps tr l))
     = AuthCoordinator.refresh_calls (loop_store l))
    /\ (AuthCoordinator.in_flight (loop_store l) = false ->
        (AuthCoordinator.refresh_calls (loop_store (steps tr l))
         <= S (AuthCoordinator.refresh_calls (loop_store l)))%nat).
Proof.
  induction tr as [| e rest IH]; intros Hno l; simpl; [split; lia |].
  assert (Hrest : forall success fresh, ~ In (RefreshSettled success fresh) rest)
    by (intros ? ? Hin; eapply Hno; right; exact Hin).
  specialize (IH Hrest).
  destruct e as [now error | t | success fresh].
  - assert (E : loop_store (step (Failure now error) l) = loop_store l)
      by (simpl; destruct (on_rejected _ _ _); reflexivity).
    destruct (IH (step (Failure now error) l)) as [A B].
    rewrite E in A, B. split; assumption.
  - simpl. destruct (take_task t (at_import l)) as [[f r] |]; [| apply IH].
    match goal with |- context [steps rest ?l1] => destruct (IH l1) as [A B] end.
    simpl in A, B. unfold AuthCoordinator.refresh in *.
    destruct (AuthCoordinator.in_flight (loop_store l)) eqn:Hf; simpl in *.
    + split; [intros _; apply A; exact Hf | discriminate].
    + split; [discriminate | intros _]. rewrite A; [lia | reflexivity].
  - exfalso. apply (Hno success fresh). left. reflexivity.
Qed.

(** C2.  Two requests are each answered with a 401 while no refresh is
    under way, and both handlers reach their call of the refresh before it
    settles, in any of the possible orders.  Then one refresh call is
    performed, and when it settles with success the store holds the fresh
    credential and each of the two requests is reissued exactly once,
    marked as retried, with its method, URL and body; neither handler ends
    in any other way, and a reissued request that fails again, with a 401
    or otherwise, is rejected to its caller without another refresh and
    without another reissue.  The authorization header of the reissued
    requests, however, is built from the state object each handler
    obtained before the refresh: it carries the credential the store held
    then, not the fresh one. *)
Theorem single_flight_refresh l now1 now2 e1 e2 a b r1 r2 fresh tr :
  AuthCoordinator.in_flight (loop_store l) = false ->
  at_import l = [] -> at_refresh l = [] ->
  config e1 = Some a -> _retry a = false ->
  response e1 = Some r1 -> status r1 = 401%Z ->
  config e2 = Some b -> _retry b = false ->
  response e2 = Some r2 -> status r2 = 401%Z ->
  merge [Imported (next_task l)]
        [Failure now2 e2; Imported (S (next_task l))] tr ->
  let l' := steps (Failure now1 e1 :: tr ++ [RefreshSettled true fresh]) l in
  let bound := AuthCoordinator.accessToken (loop_store l) in
  AuthCoordinator.refresh_calls (loop_store l')
  = S (AuthCoordinator.refresh_calls (loop_store l))
  /\ AuthCoordinator.accessToken (loop_store l') = fresh
  /\ AuthCoordinator.in_flight (loop_store l') = false
  /\ (reissued l'
      = reissued l ++ [(next_task l, retry_of bound a);
                       (S (next_task l), retry_of bound b)]
      \/ reissued l'
         = reissued l ++ [(S (next_task l), retry_of bound b);
                          (next_task l, retry_of bound a)])
  /\ settled l' = settled l
  /\ at_import l' = [] /\ at_refresh l' = []
  /\ (forall req orig,
        (req, orig) = (retry_of bound a, a) \/ (req, orig) = (retry_of bound b, b) ->
        _retry req = true
        /\ method req = method orig /\ url req = url orig /\ data req = data orig
        /\ assoc "Authorization" (headers req)
           = JStr ("Bearer " +:+ to_String bound)
        /\ forall clk c0 now3 e3 r3,
             config e3 = Some (fst (on_request clk req c0)) ->
             response e3 = Some r3 ->
             exists c3,
               step (Failure now3 e3) l'
               = {| loop_client := c3; loop_store := loop_store l';
                    next_task := S (next_task l'); at_import := [];
                    at_refresh := []; reissued := reissued l';
                    settled := settled l' ++ [(next_task l', RejectedWith e3)] |}).
Proof.
  intros Hf Hi Hw Hca Hta Hra Hsa Hcb Htb Hrb Hsb Hm l' bound.
  destruct l as [c st n ai ar re se]. destruct st as [tok fl calls].
  simpl in Hf, Hi, Hw, Hm, bound. subst fl ai ar bound. simpl.
  assert (E : exists c' re',
             l' = {| loop_client := c';
                     loop_store :=
                       {| AuthCoordinator.accessToken := fresh;
                          AuthCoordinator.in_flight := false;
                          AuthCoordinator.refresh_calls := S calls |};
                     next_task := S (S n); at_import := []; at_refresh := [];
                     reissued := re ++ re'; settled := se |}
             /\ (re' = [(n, retry_of tok a); (S n, retry_of tok b)]
                 \/ re' = [(S n, retry_of tok b); (n, retry_of tok a)])).
  { apply merge_one_two in Hm.
    destruct Hm as [-> | [-> | ->]]; subst l'; cbn [steps app].
    - rewrite (step_failure_suspends _ _ _ _ _ Hca Hta Hra Hsa).
      cbn [app next_task at_import at_refresh loop_store reissued settled loop_client].
      unfold step at 4. cbn [at_import take_task]. rewrite Nat.eqb_refl.
      cbn [app next_task at_import at_refresh loop_store reissued settled loop_client].
      rewrite (step_failure_suspends _ _ _ _ _ Hcb Htb Hrb Hsb).
      cbn [app next_task at_import at_refresh loop_store reissued settled loop_client].
      unfold step at 2. cbn [at_import take_task]. rewrite Nat.eqb_refl.
      cbn. rewrite <- app_assoc. do 2 eexists. split; [reflexivity |].
      left. reflexivity.
    - rewrite (step_failure_suspends _ _ _ _ _ Hca Hta Hra Hsa).
      cbn [app next_task at_import at_refresh loop_store reissued settled loop_client].
      rewrite (step_failure_suspends _ _ _ _ _ Hcb Htb Hrb Hsb).
      cbn [app next_task at_import at_refresh loop_store reissued settled loop_client].
      unfold step at 3. cbn [at_import take_task]. rewrite Nat.eqb_refl.
      cbn [app next_task at_import at_refresh loop_store reissued settled loop_client].
      unfold step at 2. cbn [at_import take_task]. rewrite Nat.eqb_refl.
      cbn. rewrite <- app_assoc. do 2 eexists. split; [reflexivity |].
      left. reflexivity.
    - rewrite (step_failure_suspends _ _ _ _ _ Hca Hta Hra Hsa).
      cbn [app next_task at_import at_refresh loop_store reissued settled loop_client].
      rewrite (step_failure_suspends _ _ _ _ _ Hcb Htb Hrb Hsb).
      cbn [app next_task at_import at_refresh loop_store reissued settled loop_client].
      unfold step at 3. cbn [at_import take_task].
      rewrite eqb_succ_l, Nat.eqb_refl.
      cbn [app next_task at_import at_refresh loop_store reissued settled loop_client].
      unfold step at 2. cbn [at_import take_task]. rewrite Nat.eqb_refl.
      cbn. rewrite <- app_assoc. do 2 eexists. split; [reflexivity |].
      right. reflexivity. }
  destruct E as (c' & re' & -> & Hre). simpl.
  split; [reflexivity |]. split; [reflexivity |]. split; [reflexivity |].
  split; [destruct Hre as [-> | ->]; auto |].
  split; [reflexivity |]. split; [reflexivity |]. split; [reflexivity |].
  intros req orig Hreq.
  assert (Hmark : _retry req = true
                  /\ method req = method orig /\ url req = url orig
                  /\ data req = data orig
                  /\ assoc "Authorization" (headers req)
                     = JStr ("Bearer " +:+ to_String tok)).
  { destruct Hreq as [Eq | Eq]; injection Eq as -> ->;
      unfold retry_of; simpl; repeat split; apply assoc_set_field_eq. }
  destruct Hmark as (Hr & Hme & Hu & Hd & Hh).
  repeat (split; [assumption |]).
  intros clk c0 now3 e3 r3 Hc3 Hr3.
  destruct (on_rejected_retried now3 e3 c' (fst (on_request clk req c0)) r3
              Hc3 Hr Hr3) as (c3 & E3).
  exists c3. unfold step. rewrite E3. reflexivity.
Qed.

(** Two requests fail with a 401 while the store holds [stale-token]; the
    one refresh call succeeds with [fresh-token].  Both requests are
    reissued, once each, under [Bearer stale-token]. *)
Lemma single_flight_refresh_witness :
  let e1 := Requests.failure Requests.get_config 401 in
  let e2 := Requests.failure Requests.probe_config 401 in
  let l' := steps [Failure 10 e1; Failure 11 e2; Imported 1; Imported 0;
                   RefreshSettled true (JStr "fresh-token")] Requests.loop0 in
  AuthCoordinator.refresh_calls (loop_store l') = 1%nat
  /\ AuthCoordinator.accessToken (loop_store l') = JStr "fresh-token"
  /\ List.map fst (reissued l') = [1%nat; 0%nat]
  /\ List.map (fun x => assoc "Authorization" (headers (snd x))) (reissued l')
     = [JStr "Bearer stale-token"; JStr "Bearer stale-token"]
  /\ List.map (fun x => _retry (snd x)) (reissued l') = [true; true].
Proof.
  intros e1 e2 l'.
  destruct (single_flight_refresh Requests.loop0 10 11 e1 e2
              Requests.get_config Requests.probe_config
              (Requests.http 401 (JObj [("detail", JStr "boom")]))
              (Requests.http 401 (JObj [("detail", JStr "boom")]))
              (JStr "fresh-token")
              [Failure 11 e2; Imported 1; Imported 0]
              eq_refl eq_refl eq_refl eq_refl eq_refl eq_refl eq_refl
              eq_refl eq_refl eq_refl eq_refl)
    as (H1 & H2 & _).
  - apply merge_right, merge_right, merge_left, merge_nil.
  - split; [exact H1 |]. split; [exact H2 |]. repeat split.
Defined.

End ApiProperties.

(** * What the logger keeps across turns *)

Section LoggerInvariants.
Import JS Logger LoggerMethods LoggerState.

(** ** The shapes a flush can take *)

Lemma savePendingLogs_cases env s :
  savePendingLogs env s = s
  \/ (exists e, savePendingLogs env s
                = print (ConsoleError "Failed to save pending logs:" e) s)
  \/ (logQueue s <> []
      /\ savePendingLogs env s
         = set_localStorage
             (Some (Entries (slice_last MAX_STORED_LOGS (logQueue s)))) s).
Proof.
  unfold savePendingLogs.
  destruct (logQueue s) as [| e q] eqn:Eq; simpl; [left; reflexivity |].
  destruct (storage_error env); [right; left; eauto |].
  right. right. split; [discriminate | reflexivity].
Qed.

Lemma flushLogs_cases sync env s :
  flushLogs sync env s = s
  \/ (isSending s = false /\ logQueue s <> [] /\ isOnline s = false
      /\ flushLogs sync env s = savePendingLogs env s)
  \/ (isSending s = false /\ logQueue s <> [] /\ isOnline s = true
      /\ sync = false
      /\ flushLogs sync env s
         = set_awaiting (awaiting s ++ [logQueue s])
             (transmit ViaFetch (logQueue s) env
                (set_logQueue [] (set_isSending true s))))
  \/ (isSending s = false /\ logQueue s <> [] /\ isOnline s = true
      /\ sync = true
      /\ exists via,
          flushLogs sync env s
          = set_isSending false
              (transmit via (logQueue s) env
                 (set_logQueue [] (set_isSending true s))))
  \/ (isSending s = false /\ logQueue s <> [] /\ isOnline s = true
      /\ sync = true
      /\ exists reason,
          flushLogs sync env s
          = set_isSending false
              (flushLogs_catch (logQueue s) reason env
                 (set_logQueue [] (set_isSending true s)))).
Proof.
  unfold flushLogs.
  destruct (isSending s) eqn:Hs; simpl; [left; reflexivity |].
  destruct (logQueue s) as [| e q] eqn:Eq; simpl; [left; reflexivity |].
  assert (Hq : e :: q <> []) by discriminate.
  destruct (isOnline s) eqn:Ho; simpl.
  - destruct sync.
    + destruct (teardown env).
      * right. right. right. left. repeat split; eauto.
      * right. right. right. left. repeat split; eauto.
      * right. right. right. right. repeat split; eauto.
    + right. right. left. repeat split; auto.
  - right. left. repeat split; auto.
Qed.

Lemma flushLogs_resume_cases r env s :
  flushLogs_resume r env s = s
  \/ (exists batch others,
        awaiting s = batch :: others
        /\ flushLogs_resume r env s
           = set_isSending false (set_awaiting others s))
  \/ (exists batch others err,
        awaiting s = batch :: others
        /\ flushLogs_resume r env s
           = set_isSending false
               (flushLogs_catch batch err env (set_awaiting others s))).
Proof.
  unfold flushLogs_resume.
  destruct (awaiting s) as [| batch others]; [left; reflexivity |].
  destruct r as [st | reason]; [destruct (ok st) |].
  - right. left. eauto.
  - right. right. eauto 6.
  - right. right. eauto 6.
Qed.

(** ** Quiet steps *)

Lemma quiet_refl s : quiet s s.
Proof. repeat split. Qed.

Lemma quiet_trans s1 s2 s3 : quiet s1 s2 -> quiet s2 s3 -> quiet s1 s3.
Proof.
  intros (A1 & A2 & A3 & A4 & A5 & A6 & A7) (B1 & B2 & B3 & B4 & B5 & B6 & B7).
  repeat split; congruence.
Qed.

Lemma quiet_call_original m args s : quiet s (call_original m args s).
Proof. unfold call_original. destruct (method_of _ _); repeat split. Qed.

Lemma quiet_print line s : quiet s (print line s).
Proof. repeat split. Qed.

(** ** A handler turn is made of quiet steps, pushes, flushes and resumed
    flushes *)

Lemma preserved_addToQueue P m args env s :
  preserved P -> P s -> P (addToQueue m args env s).
Proof.
  intros (_ & Hpush & Hflush & _) H. unfold addToQueue.
  change (set_logQueue (logQueue s ++ [logEntry m args env s]) s)
    with (push (logEntry m args env s) s).
  destruct (LOG_BATCH_SIZE <=? _)%nat; [apply Hflush |]; apply Hpush, H.
Qed.

Lemma preserved_log_call P m args env s :
  preserved P -> P s -> P (log_call m args env s).
Proof.
  intros HP H. unfold log_call.
  destruct (method_of (log_methods s) m) as [[|]|].
  - exact H.
  - destruct HP as (Hq & _). exact (Hq _ _ (quiet_print _ s) H).
  - apply preserved_addToQueue; [exact HP |].
    destruct HP as (Hq & _). exact (Hq _ _ (quiet_call_original _ _ s) H).
Qed.

Lemma preserved_handle P e env s :
  preserved P -> P s -> P (handle e env s).
Proof.
  intros HP H. pose proof HP as (Hq & Hpush & Hflush & Hres).
  destruct e; simpl.
  - apply preserved_log_call; assumption.
  - unfold setLevel, info. apply preserved_log_call; [exact HP |].
    refine (Hq _ _ _ H). repeat split.
  - unfold on_tick. destruct (batchTimer s); [| exact H].
    destruct (0 <? _)%nat; [apply Hflush |]; exact H.
  - unfold on_online. apply Hflush.
    refine (Hq _ _ (quiet_call_original _ _ _) _).
    refine (Hq _ _ _ H). repeat split.
  - unfold on_offline.
    refine (Hq _ _ (quiet_call_original _ _ _) _).
    refine (Hq _ _ _ H). repeat split.
  - apply Hflush, H.
  - unfold on_visibilitychange. destruct hidden.
    + apply Hflush. exact (Hq _ _ (quiet_call_original _ _ _) H).
    + exact (Hq _ _ (quiet_call_original _ _ _) H).
  - unfold on_window_error, error. apply preserved_log_call; assumption.
  - unfold on_unhandledrejection, error. apply preserved_log_call; assumption.
  - apply Hres, H.
  - unfold destroy. apply Hflush.
    destruct (batchTimer s); [| exact H].
    refine (Hq _ _ _ H). repeat split.
Qed.

Lemma constructor_first_log b env :
  constructor b env = info (first_log b env) env (before_first_log b).
Proof. reflexivity. Qed.

Lemma preserved_reachable P :
  preserved P -> (forall b, P (before_first_log b)) ->
  forall s, reachable s -> P s.
Proof.
  intros HP Hb s R. induction R.
  - rewrite constructor_first_log. unfold info.
    apply preserved_log_call; [exact HP | apply Hb].
  - apply preserved_handle; assumption.
Qed.

(** ** Well-formed batches and backlog *)

Lemma slice_last_bounds {A} (n : nat) (l : list A) :
  l <> [] -> (1 <= n)%nat -> (1 <= length (slice_last n l) <= n)%nat.
Proof.
  intros Hl Hn. unfold slice_last. rewrite length_drop.
  destruct l; [congruence | simpl; lia].
Qed.

(** [well_formed] reads only the network, the awaited batches, the
    session id and the storage. *)
Lemma well_formed_same s s' :
  network s' = network s -> awaiting s' = awaiting s ->
  sessionId s' = sessionId s -> localStorage s' = localStorage s ->
  well_formed s -> well_formed s'.
Proof.
  intros A B C D. unfold well_formed. rewrite A, B, C, D. tauto.
Qed.

Lemma well_formed_savePendingLogs env s :
  well_formed s -> well_formed (savePendingLogs env s).
Proof.
  intros H.
  destruct (savePendingLogs_cases env s) as [-> | [[e ->] | [Hq ->]]].
  - exact H.
  - exact (well_formed_same _ _ eq_refl eq_refl eq_refl eq_refl H).
  - destruct H as (A & B & _). split; [exact A |]. split; [exact B |].
    simpl. intros l E. injection E as <-.
    apply slice_last_bounds; [exact Hq | unfold MAX_STORED_LOGS; lia].
Qed.

Lemma well_formed_transmit via env s q :
  q <> [] -> well_formed s ->
  well_formed (transmit via q env s)
  /\ In (transmission via q env s) (network (transmit via q env s)).
Proof.
  intros Hq (A & B & C). split.
  - split; [| split].
    + simpl. apply Forall_app. split; [exact A |].
      constructor; [| constructor]. split; [exact Hq | reflexivity].
    + simpl. eapply Forall_impl; [exact B |].
      intros b (Hb & tx & Hin & Hc & Hl). split; [exact Hb |].
      exists tx. split; [apply in_or_app; left; exact Hin | auto].
    + exact C.
  - simpl. apply in_or_app. right. left. reflexivity.
Qed.

Lemma well_formed_preserved : preserved well_formed.
Proof.
  split; [| split; [| split]].
  - intros s s' (_ & B & _ & D & E & F & _). apply well_formed_same; assumption.
  - intros e s. apply well_formed_same; reflexivity.
  - intros sync env s H.
    destruct (flushLogs_cases sync env s)
      as [-> | [(_ & _ & _ & ->) | [(_ & Hq & _ & _ & ->)
          | [(_ & Hq & _ & _ & via & ->) | (_ & Hq & _ & _ & reason & ->)]]]].
    + exact H.
    + apply well_formed_savePendingLogs, H.
    + set (s1 := set_logQueue [] (set_isSending true s)).
      assert (H1 : well_formed s1)
        by exact (well_formed_same _ _ eq_refl eq_refl eq_refl eq_refl H).
      destruct (well_formed_transmit ViaFetch env s1 (logQueue s) Hq H1)
        as ((A & B & C) & Hin).
      split; [exact A |]. split; [| exact C].
      simpl. apply Forall_app. split; [exact B |].
      constructor; [| constructor]. split; [exact Hq |].
      exists (transmission ViaFetch (logQueue s) env s1).
      split; [exact Hin | split; reflexivity].
    + set (s1 := set_logQueue [] (set_isSending true s)).
      assert (H1 : well_formed s1)
        by exact (well_formed_same _ _ eq_refl eq_refl eq_refl eq_refl H).
      destruct (well_formed_transmit via env s1 (logQueue s) Hq H1) as (W & _).
      exact (well_formed_same _ _ eq_refl eq_refl eq_refl eq_refl W).
    + unfold flushLogs_catch.
      refine (well_formed_same _ _ eq_refl eq_refl eq_refl eq_refl
                (well_formed_savePendingLogs env _ _)).
      exact (well_formed_same _ _ eq_refl eq_refl eq_refl eq_refl H).
  - intros r env s H.
    destruct (flushLogs_resume_cases r env s)
      as [-> | [(batch & others & Ha & ->) | (batch & others & err & Ha & ->)]].
    + exact H.
    + destruct H as (A & B & C). rewrite Ha in B.
      apply Forall_cons in B. destruct B as [_ B].
      split; [exact A |]. split; [exact B | exact C].
    + unfold flushLogs_catch.
      refine (well_formed_same _ _ eq_refl eq_refl eq_refl eq_refl
                (well_formed_savePendingLogs env _ _)).
      destruct H as (A & B & C). rewrite Ha in B.
      apply Forall_cons in B. destruct B as [_ B].
      split; [exact A |]. split; [exact B | exact C].
Qed.

Lemma well_formed_before_first_log b : well_formed (before_first_log b).
Proof.
  unfold before_first_log, startBatchTimer, loadPendingLogs, setupInterceptors.
  simpl. destruct (stored_logs b) as [[pendingLogs | e] |]; simpl;
    unfold call_original; try destruct (method_of _ _);
    (split; [constructor | split; [constructor | simpl; discriminate]]).
Qed.

Lemma reachable_well_formed s : reachable s -> well_formed s.
Proof.
  apply preserved_reachable;
    [apply well_formed_preserved | apply well_formed_before_first_log].
Qed.

(** X1.  Every batch the logger has handed to the transport is non-empty
    and carries the session id of the logger. *)
Theorem shipped_batches_well_formed s tx :
  reachable s -> In tx (network s) ->
  logs (body tx) <> [] /\ payload_sessionId (body tx) = sessionId s.
Proof.
  intros R Hin. destruct (reachable_well_formed s R) as (A & _).
  rewrite Forall_forall in A. apply A, list_elem_of_In, Hin.
Qed.

Lemma shipped_batches_well_formed_witness :
  length (network Sample.sending_offline) = 1%nat
  /\ forall tx,
       In tx (network Sample.sending_offline) ->
       logs (body tx) <> []
       /\ payload_sessionId (body tx) = sessionId Sample.sending_offline.
Proof.
  split; [vm_compute; reflexivity |].
  intros tx Hin.
  apply (shipped_batches_well_formed Sample.sending_offline tx);
    [apply reachable_run, reachable_constructor | exact Hin].
Defined.



(** ** Pending entries *)

Lemma pending_quiet s s' : quiet s s' -> pending s' = pending s.
Proof. intros (A & B & _). unfold pending. rewrite A, B. reflexivity. Qed.

Lemma pending_push e s : pending (push e s) = pending s ++ [e].
Proof. unfold pending, push. simpl. apply app_assoc. Qed.

Lemma pending_savePendingLogs env s :
  pending (savePendingLogs env s) = pending s.
Proof.
  destruct (savePendingLogs_frame env s) as (A & _ & _ & B & _).
  unfold pending. rewrite A, B. reflexivity.
Qed.

(** A flush on the normal path moves entries from the queue to the awaited
    batch and loses none. *)
Lemma pending_flushLogs_async env s :
  pending (flushLogs false env s) = pending s.
Proof.
  destruct (flushLogs_cases false env s)
    as [-> | [(_ & _ & _ & ->) | [(_ & _ & _ & _ & ->)
        | [(_ & _ & _ & F & _) | (_ & _ & _ & F & _)]]]];
    try discriminate F.
  - reflexivity.
  - apply pending_savePendingLogs.
  - unfold pending. simpl. rewrite concat_app. simpl.
    rewrite !app_nil_r. reflexivity.
Qed.

Lemma network_savePendingLogs env s :
  network (savePendingLogs env s) = network s.
Proof. destruct (savePendingLogs_frame env s) as (_ & A & _). exact A. Qed.

(** A flush puts at most one batch on the network, and none offline. *)
Lemma network_flushLogs sync env s :
  exists more,
    network (flushLogs sync env s) = network s ++ more
    /\ (length more <= 1)%nat
    /\ (isOnline s = false -> more = []).
Proof.
  destruct (flushLogs_cases sync env s)
    as [-> | [(_ & _ & _ & ->) | [(_ & _ & Ho & _ & ->)
        | [(_ & _ & Ho & _ & via & ->) | (_ & _ & Ho & _ & reason & ->)]]]].
  - exists []. rewrite app_nil_r. auto.
  - exists []. rewrite app_nil_r, network_savePendingLogs. auto.
  - eexists. split; [reflexivity |]. split; [simpl; lia | congruence].
  - eexists. split; [reflexivity |]. split; [simpl; lia | congruence].
  - exists []. unfold flushLogs_catch. simpl.
    rewrite network_savePendingLogs. simpl. rewrite app_nil_r. auto.
Qed.

Lemma network_flushLogs_resume r env s :
  network (flushLogs_resume r env s) = network s.
Proof.
  destruct (flushLogs_resume_cases r env s)
    as [-> | [(batch & others & _ & ->) | (batch & others & err & _ & ->)]];
    try reflexivity.
  unfold flushLogs_catch. simpl. rewrite network_savePendingLogs. reflexivity.
Qed.

(** A logging call adds at most one entry, at the back, and takes none
    away. *)
Lemma log_call_effect m args env s :
  (exists new,
      pending (log_call m args env s) = pending s ++ new
      /\ (length new <= 1)%nat
      /\ (method_of (log_methods s) m = Interceptor ->
          new = [logEntry m args env s]))
  /\ (exists more,
        network (log_call m args env s) = network s ++ more
        /\ (length more <= 1)%nat
        /\ (isOnline s = false -> more = [])).
Proof.
  unfold log_call.
  destruct (method_of (log_methods s) m) as [f |] eqn:Hm; [destruct f |].
  - split; exists []; rewrite app_nil_r; repeat split; auto; discriminate.
  - split; exists []; rewrite app_nil_r; repeat split; auto; discriminate.
  - set (s1 := call_original m args s).
    assert (Q : quiet s s1) by apply quiet_call_original.
    assert (Ho : isOnline s1 = isOnline s)
      by (unfold s1, call_original;
          destruct (method_of (originalMethods s) m); reflexivity).
    assert (Ee : logEntry m args env s1 = logEntry m args env s)
      by (unfold logEntry; destruct Q as (_ & _ & _ & _ & -> & _); reflexivity).
    unfold addToQueue.
    change (set_logQueue (logQueue s1 ++ [logEntry m args env s1]) s1)
      with (push (logEntry m args env s1) s1).
    split.
    + exists [logEntry m args env s]. split; [| split; [simpl; lia | auto]].
      destruct (LOG_BATCH_SIZE <=? _)%nat;
        rewrite ?pending_flushLogs_async, pending_push, (pending_quiet _ _ Q), Ee;
        reflexivity.
    + destruct Q as (_ & _ & _ & Qn & _).
      destruct (LOG_BATCH_SIZE <=? _)%nat.
      * destruct (network_flushLogs false env (push (logEntry m args env s1) s1))
          as (more & E & L & O).
        exists more. rewrite E. simpl. rewrite Qn.
        split; [reflexivity |]. split; [exact L |].
        intros Hoff. apply O. simpl. congruence.
      * exists []. simpl. rewrite Qn, app_nil_r. auto.
Qed.

Lemma moves_same s s' : pending s' = pending s -> moves s s'.
Proof.
  intros E. exists [], (pending s), []. rewrite E, app_nil_r.
  repeat split; auto.
Qed.

Lemma moves_from s1 s s' : pending s1 = pending s -> moves s1 s' -> moves s s'.
Proof. intros E (g & k & n & A & B). exists g, k, n. rewrite <- E. auto. Qed.

Lemma quiet_flight s s' : quiet s s' -> flight_ok s -> flight_ok s'.
Proof.
  intros (_ & A & B & _). apply same_flight_ok. split; assumption.
Qed.

Lemma moves_flushLogs_teardown env s :
  flight_ok s -> moves s (flushLogs true env s).
Proof.
  intros F.
  destruct (flushLogs_cases true env s)
    as [-> | [(_ & _ & _ & ->) | [(_ & _ & _ & C & _)
        | [(Hs & _ & _ & _ & via & ->) | (_ & _ & _ & _ & reason & ->)]]]];
    try discriminate C.
  - apply moves_same. reflexivity.
  - apply moves_same, pending_savePendingLogs.
  - destruct F as [[_ Ha] | [Hc _]]; [| congruence].
    exists (logQueue s), [], []. unfold pending. simpl. rewrite Ha. simpl.
    rewrite app_nil_r. repeat split; [lia |]. right.
    eexists. split; [apply in_or_app; right; left; reflexivity | reflexivity].
  - apply moves_same. unfold flushLogs_catch, pending. simpl.
    match goal with
    | |- context [savePendingLogs env ?t] =>
        destruct (savePendingLogs_frame env t) as (A & _ & _ & B & _)
    end.
    rewrite A, B. simpl. rewrite app_nil_r. reflexivity.
Qed.

Lemma moves_flushLogs_resume r env s :
  flight_ok s -> well_formed s -> moves s (flushLogs_resume r env s).
Proof.
  intros F (_ & W & _).
  destruct (flushLogs_resume_cases r env s)
    as [-> | [(batch & others & Ha & ->) | (batch & others & err & Ha & ->)]].
  - apply moves_same. reflexivity.
  - destruct F as [[_ Hn] | [_ [b Hb]]]; [congruence |].
    assert (others = []) by congruence. subst others.
    rewrite Ha in W. apply Forall_cons in W.
    destruct W as [(_ & tx & Hin & _ & Hl) _].
    exists batch, (logQueue s), []. unfold pending. simpl. rewrite Ha. simpl.
    rewrite !app_nil_r. repeat split; [lia |]. right. exists tx. auto.
  - destruct F as [[_ Hn] | [_ [b Hb]]]; [congruence |].
    assert (others = []) by congruence. subst others.
    apply moves_same. unfold flushLogs_catch, pending. simpl.
    match goal with
    | |- context [savePendingLogs env ?t] =>
        destruct (savePendingLogs_frame env t) as (A & _ & _ & B & _)
    end.
    rewrite A, B, Ha. simpl. rewrite app_nil_r. reflexivity.
Qed.

(** X3.  In a turn of the logger the pending entries (awaited batch, then
    queue) change in one way only: a prefix may leave, and then it is the
    batch of a transmission on the network; the entries that stay keep
    their order; at most one new entry is added, at the back.  So entries
    are never reordered, duplicated or dropped inside the logger. *)
Theorem entries_keep_their_order e env s :
  reachable s -> moves s (handle e env s).
Proof.
  intros R.
  pose proof (reachable_flight_ok s R) as F.
  pose proof (reachable_well_formed s R) as W.
  assert (L : forall m args t, pending t = pending s ->
                               moves s (log_call m args env t)).
  { intros m args t E.
    destruct (log_call_effect m args env t) as ((new & A & B & _) & _).
    exists [], (pending s), new. rewrite A, E. auto. }
  destruct e; simpl.
  - apply L. reflexivity.
  - unfold setLevel, info. apply L. reflexivity.
  - apply moves_same. unfold on_tick. destruct (batchTimer s); [| reflexivity].
    destruct (0 <? _)%nat; [apply pending_flushLogs_async | reflexivity].
  - apply moves_same. unfold on_online. rewrite pending_flushLogs_async.
    rewrite (pending_quiet _ _ (quiet_call_original _ _ _)). reflexivity.
  - apply moves_same. unfold on_offline.
    rewrite (pending_quiet _ _ (quiet_call_original _ _ _)). reflexivity.
  - apply moves_flushLogs_teardown, F.
  - apply moves_same. unfold on_visibilitychange. destruct hidden;
      rewrite ?pending_flushLogs_async;
      apply (pending_quiet _ _ (quiet_call_original _ _ _)).
  - unfold on_window_error, error. apply L. reflexivity.
  - unfold on_unhandledrejection, error. apply L. reflexivity.
  - apply moves_flushLogs_resume; assumption.
  - unfold destroy. destruct (batchTimer s).
    + eapply moves_from; [| apply moves_flushLogs_teardown].
      * reflexivity.
      * eapply same_flight_ok; [| exact F]. split; reflexivity.
    + apply moves_flushLogs_teardown, F.
Qed.

Lemma entries_keep_their_order_witness :
  moves Sample.in_flight_with_newer
    (handle (FetchSettled (Response 200)) Sample.env0
       Sample.in_flight_with_newer).
Proof.
  apply entries_keep_their_order.
  apply reachable_run, reachable_constructor.
Defined.

(** X4.  While the page is offline no turn other than the one that brings
    it back online puts anything on the network. *)
Theorem offline_never_transmits e env s :
  isOnline s = false -> e <> Online ->
  network (handle e env s) = network s.
Proof.
  intros Ho He.
  assert (Fl : forall sync t, isOnline t = false -> network t = network s ->
                              network (flushLogs sync env t) = network s).
  { intros sync t Hot E.
    destruct (network_flushLogs sync env t) as (more & A & _ & B).
    rewrite A, (B Hot), app_nil_r. exact E. }
  assert (L : forall m args t, isOnline t = false -> network t = network s ->
                               network (log_call m args env t) = network s).
  { intros m args t Hot E.
    destruct (log_call_effect m args env t) as (_ & more & A & _ & B).
    rewrite A, (B Hot), app_nil_r. exact E. }
  assert (C : forall m args t, isOnline (call_original m args t) = isOnline t
                               /\ network (call_original m args t) = network t).
  { intros m args t. unfold call_original.
    destruct (method_of (originalMethods t) m); split; reflexivity. }
  destruct e; simpl.
  - apply L; auto.
  - unfold setLevel, info. apply L; auto.
  - unfold on_tick. destruct (batchTimer s); [| reflexivity].
    destruct (0 <? _)%nat; [apply Fl; auto | reflexivity].
  - congruence.
  - unfold on_offline. destruct (C Mwarn
      [JStr "Connection lost - logs will be queued"] (set_isOnline false s))
      as [_ ->]. reflexivity.
  - apply Fl; auto.
  - unfold on_visibilitychange. destruct hidden.
    + destruct (C Mdebug [JStr "Page hidden - flushing logs"] s) as [A B].
      apply Fl; congruence.
    + destruct (C Mdebug [JStr "Page visible"] s) as [_ ->]. reflexivity.
  - unfold on_window_error, error. apply L; auto.
  - unfold on_unhandledrejection, error. apply L; auto.
  - apply network_flushLogs_resume.
  - unfold destroy. apply Fl; destruct (batchTimer s); auto.
Qed.

Lemma offline_never_transmits_witness :
  network (handle BeforeUnload Sample.env0 (Sample.offline_after 30)) = [].
Proof.
  rewrite (offline_never_transmits BeforeUnload Sample.env0
             (Sample.offline_after 30));
    [vm_compute; reflexivity | vm_compute; reflexivity | discriminate].
Defined.

(** X5.  A turn of the logger puts at most one batch on the network and
    takes nothing back from it. *)
Theorem at_most_one_batch_per_turn e env s :
  exists more,
    network (handle e env s) = network s ++ more /\ (length more <= 1)%nat.
Proof.
  assert (Fl : forall sync t, network t = network s ->
                 exists more, network (flushLogs sync env t) = network s ++ more
                              /\ (length more <= 1)%nat).
  { intros sync t E.
    destruct (network_flushLogs sync env t) as (more & A & B & _).
    exists more. rewrite A, E. auto. }
  assert (L : forall m args t, network t = network s ->
                 exists more, network (log_call m args env t) = network s ++ more
                              /\ (length more <= 1)%nat).
  { intros m args t E.
    destruct (log_call_effect m args env t) as (_ & more & A & B & _).
    exists more. rewrite A, E. auto. }
  assert (C : forall m args t, network (call_original m args t) = network t).
  { intros m args t. unfold call_original.
    destruct (method_of (originalMethods t) m); reflexivity. }
  assert (N : exists more, network s = network s ++ more /\ (length more <= 1)%nat)
    by (exists []; rewrite app_nil_r; auto).
  destruct e; simpl.
  - apply L. reflexivity.
  - unfold setLevel, info. apply L. reflexivity.
  - unfold on_tick. destruct (batchTimer s); [| exact N].
    destruct (0 <? _)%nat; [apply Fl; reflexivity | exact N].
  - unfold on_online. apply Fl. rewrite C. reflexivity.
  - unfold on_offline. rewrite C. exact N.
  - apply Fl. reflexivity.
  - unfold on_visibilitychange. destruct hidden.
    + apply Fl, C.
    + rewrite C. exact N.
  - unfold on_window_error, error. apply L. reflexivity.
  - unfold on_unhandledrejection, error. apply L. reflexivity.
  - rewrite network_flushLogs_resume. exact N.
  - unfold destroy. apply Fl. destruct (batchTimer s); reflexivity.
Qed.

(** X6.  A logging call made through the interceptor appends exactly one
    entry, the one built from its arguments, behind the entries already
    pending, whatever flush the call triggers. *)
Theorem intercepted_call_appends m args env s :
  method_of (log_methods s) m = Interceptor ->
  pending (log_call m args env s) = pending s ++ [logEntry m args env s].
Proof.
  intros Hm.
  destruct (log_call_effect m args env s) as ((new & A & _ & B) & _).
  rewrite A, (B Hm). reflexivity.
Qed.

Lemma intercepted_call_appends_witness :
  let s := run (repeat (Log Minfo [JStr "x"], Sample.env0) 18)
             (constructor (Sample.boot false true) Sample.env0) in
  pending (log_call Mdebug [JStr "y"] Sample.env0 s)
  = pending s ++ [logEntry Mdebug [JStr "y"] Sample.env0 s].
Proof.
  intros s. apply intercepted_call_appends.
  vm_compute. reflexivity.
Defined.

End LoggerInvariants.

(** * Objects, messages and metadata *)

Section ObjectFacts.
Import JS Logger LoggerMethods LoggerState.

Lemma keys_set_field_new k v fs :
  ~ In k (List.map fst fs) -> set_field k v fs = fs ++ [(k, v)].
Proof.
  induction fs as [| [k' v'] r IH]; simpl; intros Hn; [reflexivity |].
  destruct (String.eqb k k') eqn:E.
  - apply String.eqb_eq in E. subst. tauto.
  - rewrite IH by tauto. reflexivity.
Qed.

(** Copying an object whose keys are distinct into an object that has
    none of them appends its properties in order. *)
Lemma Object_assign_fresh source : forall target,
  NoDup (List.map fst source) ->
  (forall k, In k (List.map fst source) -> ~ In k (List.map fst target)) ->
  Object_assign target source = target ++ source.
Proof.
  unfold Object_assign.
  induction source as [| [k v] r IH]; intros target Hnd Hfresh; simpl.
  - rewrite app_nil_r. reflexivity.
  - rewrite keys_set_field_new by (apply Hfresh; left; reflexivity).
    apply NoDup_cons in Hnd. destruct Hnd as [Hk Hr].
    rewrite IH.
    + rewrite <- app_assoc. reflexivity.
    + apply NoDup_ListNoDup. apply NoDup_ListNoDup in Hr. exact Hr.
    + intros k' Hin. rewrite List.map_app, in_app_iff. simpl.
      intros [Ht | [<- | []]].
      * apply (Hfresh k'); [right; exact Hin | exact Ht].
      * apply Hk. apply list_elem_of_In. exact Hin.
Qed.

(** After [Object.assign(target, source)] a key of [source] reads as in
    [source], any other key as in [target]. *)
Lemma assoc_Object_assign k source : forall target,
  NoDup (List.map fst source) ->
  assoc k (Object_assign target source)
  = if existsb (String.eqb k) (List.map fst source)
    then assoc k source else assoc k target.
Proof.
  unfold Object_assign.
  induction source as [| [k' v] r IH]; intros target Hnd; simpl; [reflexivity |].
  apply NoDup_cons in Hnd. destruct Hnd as [Hk Hr].
  rewrite IH by exact Hr.
  destruct (String.eqb k k') eqn:E; simpl.
  - apply String.eqb_eq in E. subst k'.
    destruct (existsb (String.eqb k) (List.map fst r)) eqn:Ex.
    + exfalso. apply Hk. apply existsb_exists in Ex.
      destruct Ex as (x & Hin & Hx). apply String.eqb_eq in Hx. subst x.
      apply list_elem_of_In. exact Hin.
    + apply assoc_set_field_eq.
  - destruct (existsb (String.eqb k) (List.map fst r)); [reflexivity |].
    apply assoc_set_field_ne. intros ->. rewrite String.eqb_refl in E.
    discriminate E.
Qed.

Lemma extractMetadata_from_last args : forall index len metadata,
  (index + length args = len)%nat ->
  extractMetadata_from index len args metadata
  = match args with
    | [] => metadata
    | _ => match List.last args JUndefined with
           | JObj fs => Object_assign metadata fs
           | _ => metadata
           end
    end.
Proof.
  induction args as [| arg rest IH]; intros index len metadata Hlen;
    [reflexivity |].
  simpl extractMetadata_from.
  destruct rest as [| arg2 rest2].
  - simpl in Hlen. simpl.
    replace (index =? len - 1)%nat with true
      by (symmetry; apply Nat.eqb_eq; lia).
    destruct arg; reflexivity.
  - assert (Hne : (index =? len - 1)%nat = false)
      by (apply Nat.eqb_neq; simpl in Hlen; lia).
    rewrite Hne, andb_false_r, andb_false_l.
    rewrite (IH (S index) len metadata) by (simpl in Hlen |- *; lia).
    reflexivity.
Qed.

(** X7.  The metadata of an entry comes from the last argument of the
    call alone: its properties when it is a plain object (all of them, in
    order, when its keys are distinct), and nothing when it is an array,
    null, a primitive, or when there is no argument; objects in earlier
    positions do not contribute. *)
Theorem extractMetadata_last args :
  extractMetadata args
  = match List.last args JUndefined with
    | JObj fs => Object_assign [] fs
    | _ => []
    end
  /\ (forall fs, List.last args JUndefined = JObj fs ->
                 NoDup (List.map fst fs) -> extractMetadata args = fs).
Proof.
  assert (E : extractMetadata args
              = match List.last args JUndefined with
                | JObj fs => Object_assign [] fs
                | _ => []
                end).
  { unfold extractMetadata.
    rewrite (extractMetadata_from_last args 0 (length args) []) by reflexivity.
    destruct args; reflexivity. }
  split; [exact E |].
  intros fs Hl Hnd. rewrite E, Hl.
  rewrite Object_assign_fresh; [reflexivity | exact Hnd |].
  intros k _ [].
Qed.

Lemma extractMetadata_last_witness :
  extractMetadata [JObj [("ignored", JNum 1)]; JStr "text";
                   JObj [("user", JStr "admin"); ("attempt", JNum 2)]]
  = [("user", JStr "admin"); ("attempt", JNum 2)].
Proof.
  apply (proj2 (extractMetadata_last _)); [reflexivity |].
  apply NoDup_ListNoDup. repeat constructor; simpl; intuition discriminate.
Defined.

Lemma append_assoc_string (a b c : string) : (a +:+ b) +:+ c = a +:+ (b +:+ c).
Proof.
  induction a as [| ch a IH]; [reflexivity |].
  change (String ch ((a +:+ b) +:+ c) = String ch (a +:+ (b +:+ c))).
  rewrite IH. reflexivity.
Qed.

Lemma join_app sep (a b : list string) :
  a <> [] -> b <> [] ->
  join sep (a ++ b) = join sep a +:+ sep +:+ join sep b.
Proof.
  intros Ha Hb. induction a as [| x r IH]; [congruence |].
  destruct r as [| y r'].
  - simpl. destruct b; [congruence | reflexivity].
  - change (join sep ((x :: y :: r') ++ b))
      with (x +:+ sep +:+ join sep ((y :: r') ++ b)).
    rewrite IH by discriminate.
    change (join sep (x :: y :: r')) with (x +:+ sep +:+ join sep (y :: r')).
    rewrite !append_assoc_string. reflexivity.
Qed.

(** X8.  The message of an entry is the texts of the arguments joined by
    single spaces: the message of two groups of arguments is the message
    of the first, a space, and the message of the second; a string stands
    for itself and an object for its indented JSON text. *)
Theorem formatMessage_app a b :
  a <> [] -> b <> [] ->
  formatMessage (a ++ b) = formatMessage a +:+ " " +:+ formatMessage b.
Proof.
  intros Ha Hb. unfold formatMessage. rewrite List.map_app.
  apply join_app; intros E; apply List.map_eq_nil in E; contradiction.
Qed.

Lemma formatMessage_app_witness :
  formatMessage ([JStr "API call:"; JStr "GET"] ++ [JObj [("id", JNum 7)]])
  = "API call: GET" +:+ " " +:+ JSON_stringify (JObj [("id", JNum 7)]).
Proof.
  rewrite formatMessage_app by discriminate. reflexivity.
Defined.

Lemma keys_set_field k v fs :
  List.map fst (set_field k v fs)
  = if existsb (String.eqb k) (List.map fst fs)
    then List.map fst fs else List.map fst fs ++ [k].
Proof.
  induction fs as [| [k' v'] r IH]; simpl; [reflexivity |].
  destruct (String.eqb k k') eqn:E; simpl.
  - apply String.eqb_eq in E. subst k'. reflexivity.
  - rewrite IH. destruct (existsb _ _); reflexivity.
Qed.

Lemma keys_set_field_distinct k v fs :
  NoDup (List.map fst fs) -> NoDup (List.map fst (set_field k v fs)).
Proof.
  intros H. rewrite keys_set_field.
  destruct (existsb (String.eqb k) (List.map fst fs)) eqn:E; [exact H |].
  apply NoDup_app. split; [exact H | split; [| apply NoDup_singleton]].
  intros x Hx Hk. apply list_elem_of_In in Hx, Hk.
  destruct Hk as [<- | []].
  assert (T : existsb (String.eqb k) (List.map fst fs) = true)
    by (apply existsb_exists; exists k; split;
        [exact Hx | apply String.eqb_refl]).
  congruence.
Qed.

Lemma keys_Object_assign_distinct source : forall target,
  NoDup (List.map fst target) ->
  NoDup (List.map fst (Object_assign target source)).
Proof.
  unfold Object_assign.
  induction source as [| [k v] r IH]; intros target H; simpl; [exact H |].
  apply IH, keys_set_field_distinct, H.
Qed.

(** X9.  [handle.end(metadata)] returns the time elapsed since
    [startTimer] and logs one entry at DEBUG.  The metadata of that entry
    is the measured duration followed by the caller's metadata, except
    that a [duration] property supplied by the caller replaces the
    measured one, since the caller's metadata is spread after it; every
    other property of the caller is logged as given. *)
Theorem timer_end_metadata t now md env s :
  NoDup (List.map fst md) ->
  method_of (log_methods s) Mdebug = Interceptor ->
  fst (timer_end t now (Some md) env s) = (now - startTime t)%Z
  /\ exists e,
       pending (snd (timer_end t now (Some md) env s)) = pending s ++ [e]
       /\ level e = "DEBUG"
       /\ metadata e = timer_metadata (now - startTime t) md
       /\ forall k,
            assoc k (metadata e)
            = if existsb (String.eqb k) (List.map fst md) then assoc k md
              else if String.eqb k "duration"
                   then JStr (toFixed2 (now - startTime t) +:+ "ms")
                   else JUndefined.
Proof.
  intros Hnd Hi. split; [reflexivity |].
  unfold timer_end. cbn [snd]. unfold debug.
  set (args := [JStr ("Performance: " +:+ timer_label t);
                JObj (timer_metadata (now - startTime t) md)]).
  destruct (log_call_effect Mdebug args env s) as ((new & E & _ & Hnew) & _).
  exists (logEntry Mdebug args env s).
  rewrite E, (Hnew Hi). split; [reflexivity |]. split; [reflexivity |].
  assert (M : metadata (logEntry Mdebug args env s)
              = timer_metadata (now - startTime t) md).
  { unfold logEntry. cbn [metadata]. unfold extractMetadata.
    rewrite (extractMetadata_from_last args 0 (length args) []) by reflexivity.
    unfold args. cbn [List.last].
    apply Object_assign_fresh; [| intros k _ []].
    unfold timer_metadata. apply keys_Object_assign_distinct.
    apply NoDup_singleton. }
  split; [exact M |].
  intros k. rewrite M. unfold timer_metadata.
  rewrite assoc_Object_assign by exact Hnd. reflexivity.
Qed.

Lemma timer_end_metadata_witness :
  let s := constructor (Sample.boot true true) Sample.env0 in
  let t := startTimer "load" 1000 in
  exists e,
    pending (snd (timer_end t 1250
                    (Some [("duration", JStr "n/a"); ("rows", JNum 3)])
                    Sample.env0 s))
    = pending s ++ [e]
    /\ assoc "duration" (metadata e) = JStr "n/a"
    /\ assoc "rows" (metadata e) = JNum 3
    /\ assoc "other" (metadata e) = JUndefined.
Proof.
  intros s t.
  destruct (timer_end_metadata t 1250 [("duration", JStr "n/a"); ("rows", JNum 3)]
              Sample.env0 s)
    as (_ & e & E & _ & _ & K).
  - apply NoDup_ListNoDup. repeat constructor; simpl; intuition discriminate.
  - reflexivity.
  - exists e. split; [exact E |]. rewrite !K. repeat split.
Defined.

End ObjectFacts.

(** * The logger across its life: construction, reload, [setLevel],
      [destroy] *)

Section LoggerLifecycle.
Import JS Logger LoggerMethods LoggerState.

(** ** What a flush leaves alone *)

Lemma savePendingLogs_keeps env s :
  sessionId (savePendingLogs env s) = sessionId s
  /\ sessionStorage (savePendingLogs env s) = sessionStorage s
  /\ batchTimer (savePendingLogs env s) = batchTimer s.
Proof.
  destruct (savePendingLogs_cases env s) as [-> | [(e & ->) | (_ & ->)]];
    repeat split.
Qed.

Lemma flushLogs_catch_keeps batch err env s :
  sessionId (flushLogs_catch batch err env s) = sessionId s
  /\ sessionStorage (flushLogs_catch batch err env s) = sessionStorage s
  /\ batchTimer (flushLogs_catch batch err env s) = batchTimer s.
Proof.
  unfold flushLogs_catch. simpl.
  destruct (savePendingLogs_keeps env (set_logQueue (batch ++ logQueue s) s))
    as (A & B & C).
  rewrite A, B, C. repeat split.
Qed.

Lemma flushLogs_keeps sync env s :
  sessionId (flushLogs sync env s) = sessionId s
  /\ sessionStorage (flushLogs sync env s) = sessionStorage s
  /\ batchTimer (flushLogs sync env s) = batchTimer s.
Proof.
  destruct (flushLogs_cases sync env s)
    as [-> | [(_ & _ & _ & ->) | [(_ & _ & _ & _ & ->)
        | [(_ & _ & _ & _ & via & ->) | (_ & _ & _ & _ & reason & ->)]]]];
    try (repeat split; fail).
  - apply savePendingLogs_keeps.
  - exact (flushLogs_catch_keeps (logQueue s) reason env
             (set_logQueue [] (set_isSending true s))).
Qed.

Lemma flushLogs_resume_keeps r env s :
  sessionId (flushLogs_resume r env s) = sessionId s
  /\ sessionStorage (flushLogs_resume r env s) = sessionStorage s
  /\ batchTimer (flushLogs_resume r env s) = batchTimer s.
Proof.
  destruct (flushLogs_resume_cases r env s)
    as [-> | [(batch & others & _ & ->) | (batch & others & err & _ & ->)]];
    try (repeat split; fail).
  exact (flushLogs_catch_keeps batch err env (set_awaiting others s)).
Qed.

(** ** The session id *)

Lemma session_preserved a b :
  preserved (fun s => sessionId s = a /\ sessionStorage s = b).
Proof.
  repeat split.
  - destruct H as (_ & _ & _ & _ & E & _). destruct H0. congruence.
  - destruct H as (_ & _ & _ & _ & _ & _ & E). destruct H0. congruence.
  - apply H.
  - apply H.
  - destruct (flushLogs_keeps sync env s) as (E & _). destruct H. congruence.
  - destruct (flushLogs_keeps sync env s) as (_ & E & _). destruct H. congruence.
  - destruct (flushLogs_resume_keeps r env s) as (E & _). destruct H. congruence.
  - destruct (flushLogs_resume_keeps r env s) as (_ & E & _). destruct H.
    congruence.
Qed.

Lemma before_first_log_session b :
  sessionId (before_first_log b) = fst (getOrCreateSessionId b)
  /\ sessionStorage (before_first_log b) = snd (getOrCreateSessionId b).
Proof.
  unfold before_first_log, startBatchTimer, loadPendingLogs, setupInterceptors.
  simpl. destruct (stored_logs b) as [[l | e] |]; simpl;
    unfold call_original; try destruct (method_of _ _); repeat split.
Qed.

Lemma constructor_session b env :
  sessionId (constructor b env) = fst (getOrCreateSessionId b)
  /\ sessionStorage (constructor b env) = snd (getOrCreateSessionId b).
Proof.
  rewrite constructor_first_log. unfold info.
  apply (preserved_log_call _ _ _ _ _ (session_preserved _ _)).
  apply before_first_log_session.
Qed.

Lemma fresh_id_nonempty (a b : string) : a +:+ "-" +:+ b <> EmptyString.
Proof. destruct a; discriminate. Qed.

Lemma getOrCreateSessionId_stored b :
  exists sid, getOrCreateSessionId b = (sid, Some sid) /\ sid <> EmptyString.
Proof.
  unfold getOrCreateSessionId.
  destruct (stored_session b) as [sid |].
  - destruct (String.eqb sid EmptyString) eqn:E.
    + eexists. split; [reflexivity | apply fresh_id_nonempty].
    + exists sid. split; [reflexivity |]. apply String.eqb_neq. exact E.
  - eexists. split; [reflexivity | apply fresh_id_nonempty].
Qed.

Lemma reachable_session s :
  reachable s ->
  sessionStorage s = Some (sessionId s) /\ sessionId s <> EmptyString.
Proof.
  induction 1 as [b env | e env s R IH].
  - destruct (constructor_session b env) as (A & B).
    destruct (getOrCreateSessionId_stored b) as (sid & E & Hne).
    rewrite A, B, E. split; [reflexivity | exact Hne].
  - destruct (preserved_handle _ e env s
                (session_preserved (sessionId s) (sessionStorage s))
                (conj eq_refl eq_refl)) as (A & B).
    rewrite A, B. exact IH.
Qed.

(** X10.  The session id belongs to the tab: whatever the logger has done
    since it was constructed, the id it uses is the one kept in session
    storage and is not empty, so a page loaded again in the same tab
    constructs a logger with the same session id. *)
Theorem session_id_survives_reload b env s :
  reachable s ->
  sessionStorage s = Some (sessionId s)
  /\ sessionId (constructor (reload b s) env) = sessionId s.
Proof.
  intros R. destruct (reachable_session s R) as (A & Hne).
  split; [exact A |].
  destruct (constructor_session (reload b s) env) as (E & _).
  rewrite E. unfold getOrCreateSessionId. simpl. rewrite A.
  destruct (String.eqb (sessionId s) EmptyString) eqn:F; [| reflexivity].
  apply String.eqb_eq in F. contradiction.
Qed.

Lemma session_id_survives_reload_witness :
  sessionId (constructor (reload (Sample.boot true false) Sample.sending_offline)
               Sample.env0)
  = "1714557600000-k3j9x0q1z".
Proof.
  rewrite (proj2 (session_id_survives_reload (Sample.boot true false) Sample.env0
                    Sample.sending_offline
                    (reachable_run _ _ (reachable_constructor _ _)))).
  vm_compute. reflexivity.
Defined.

(** ** The backlog across a reload *)

Lemma before_first_log_intercepted b m :
  method_of (log_methods (before_first_log b)) m = Interceptor.
Proof.
  unfold before_first_log, startBatchTimer, loadPendingLogs, setupInterceptors.
  unfold call_original. simpl.
  destruct (isDev b); destruct (stored_logs b) as [[l | e] |];
    destruct m; reflexivity.
Qed.

Lemma before_first_log_queue b :
  logQueue (before_first_log b)
  = match stored_logs b with Some (Entries l) => l | _ => [] end
  /\ awaiting (before_first_log b) = []
  /\ network (before_first_log b) = []
  /\ localStorage (before_first_log b)
     = match stored_logs b with
       | Some (Entries l) => None
       | other => other
       end.
Proof.
  unfold before_first_log, startBatchTimer, loadPendingLogs, setupInterceptors.
  unfold call_original. simpl.
  destruct (isDev b); destruct (stored_logs b) as [[l | e] |];
    simpl; rewrite ?app_nil_r; repeat split.
Qed.

Lemma constructor_pending b env :
  pending (constructor b env)
  = match stored_logs b with Some (Entries l) => l | _ => [] end
    ++ [logEntry Minfo (first_log b env) env (before_first_log b)].
Proof.
  rewrite constructor_first_log. unfold info.
  destruct (log_call_effect Minfo (first_log b env) env (before_first_log b))
    as ((new & E & _ & Hnew) & _).
  rewrite E, (Hnew (before_first_log_intercepted b Minfo)).
  destruct (before_first_log_queue b) as (Q & A & _).
  unfold pending. rewrite Q, A. reflexivity.
Qed.

(** The constructor's own call when the queue stays under the threshold:
    the entry is appended and nothing else happens. *)
Lemma constructor_below_threshold b env :
  (length (logQueue (before_first_log b)) + 1 < LOG_BATCH_SIZE)%nat ->
  localStorage (constructor b env) = localStorage (before_first_log b)
  /\ network (constructor b env) = []
  /\ logQueue (constructor b env)
     = logQueue (before_first_log b)
       ++ [logEntry Minfo (first_log b env) env (before_first_log b)].
Proof.
  intros Hlen. rewrite constructor_first_log. unfold info, log_call.
  rewrite before_first_log_intercepted. unfold addToQueue.
  set (s0 := before_first_log b) in *.
  destruct (quiet_call_original Minfo (first_log b env) s0)
    as (Q & _ & _ & N & S & L & _).
  assert (Ee : logEntry Minfo (first_log b env) env
                 (call_original Minfo (first_log b env) s0)
               = logEntry Minfo (first_log b env) env s0)
    by (unfold logEntry; rewrite S; reflexivity).
  rewrite Ee.
  replace (LOG_BATCH_SIZE <=? _)%nat with false.
  - simpl. rewrite L, N, Q.
    destruct (before_first_log_queue b) as (_ & _ & N0 & _).
    fold s0 in N0. rewrite N0. repeat split.
  - symmetry. apply Nat.leb_gt. simpl. rewrite Q, length_app. simpl. exact Hlen.
Qed.

(** X11.  A stored backlog is taken back at the next load: the entries
    come first in the queue, in the order they were stored, followed by
    the constructor's own entry; when that leaves the queue under the batch
    size, the backlog is gone from storage and nothing has been sent
    yet. *)
Theorem backlog_taken_back b env l :
  stored_logs b = Some (Entries l) ->
  pending (constructor b env)
  = l ++ [logEntry Minfo (first_log b env) env (before_first_log b)]
  /\ ((length l + 1 < LOG_BATCH_SIZE)%nat ->
      localStorage (constructor b env) = None
      /\ network (constructor b env) = []).
Proof.
  intros Hl. split.
  - rewrite constructor_pending, Hl. reflexivity.
  - intros Hlen.
    destruct (before_first_log_queue b) as (Q & _ & _ & L).
    rewrite Hl in Q, L.
    destruct (constructor_below_threshold b env) as (A & B & _).
    + rewrite Q. exact Hlen.
    + rewrite A, L, B. split; reflexivity.
Qed.

Lemma backlog_taken_back_witness :
  let b := reload (Sample.boot false true) (Sample.offline_after 19) in
  length (pending (constructor b Sample.env0)) = 21%nat
  /\ localStorage (Sample.offline_after 19) <> None.
Proof.
  intros b.
  assert (E : exists l, stored_logs b = Some (Entries l) /\ length l = 20%nat)
    by (eexists; split; vm_compute; reflexivity).
  destruct E as (l & E & Hlen).
  rewrite (proj1 (backlog_taken_back b Sample.env0 l E)).
  rewrite length_app, Hlen. split; [reflexivity | vm_compute; discriminate].
Defined.

Lemma through_JSON_value : forall v, JSON_value v = true -> through_JSON v = v.
Proof.
  fix IH 1. intros v. destruct v as [| | b | n | s | xs | fs]; simpl; intros H;
    try reflexivity; try discriminate H.
  - f_equal. induction xs as [| x r IHr]; [reflexivity |].
    simpl in H. apply andb_true_iff in H. destruct H as [Hx Hr].
    simpl. rewrite (IHr Hr). f_equal.
    rewrite (IH x Hx). destruct x; try reflexivity. discriminate Hx.
  - f_equal. induction fs as [| [k w] r IHr]; [reflexivity |].
    simpl in H. apply andb_true_iff in H. destruct H as [Hw Hr].
    simpl in Hw. rewrite (IHr Hr), (IH w Hw).
    destruct w; try reflexivity. discriminate Hw.
Qed.

Lemma stored_entry_value e :
  JSON_value (JObj (metadata e)) = true -> stored_entry e = e.
Proof.
  intros H. unfold stored_entry. rewrite (through_JSON_value _ H).
  destruct e; reflexivity.
Qed.

(** X12.  Saving and loading compose: what an offline flush writes is
    what the next page load starts from, as JSON carries it.  The queue of
    the new page is the last [MAX_STORED_LOGS] entries of the old queue, in
    order, then the new page's first entry; older entries beyond that
    bound are lost.  Each entry comes back with its timestamp, level,
    session id, URL, message and user agent; of its metadata, the
    properties whose value was undefined are gone and undefined array
    elements are null.  Entries whose metadata holds no undefined come back
    exactly as they were. *)
Theorem offline_backlog_round_trip sync b env env' s :
  isOnline s = false -> isSending s = false -> logQueue s <> [] ->
  storage_error env = None ->
  let b' := reload b (flushLogs sync env s) in
  let kept := slice_last MAX_STORED_LOGS (logQueue s) in
  let first := logEntry Minfo (first_log b' env') env' (before_first_log b') in
  pending (constructor b' env') = List.map stored_entry kept ++ [first]
  /\ (List.Forall (fun e => JSON_value (JObj (metadata e)) = true) kept ->
      pending (constructor b' env') = kept ++ [first]).
Proof.
  intros Ho Hs Hq He b' kept first.
  assert (E : pending (constructor b' env')
              = List.map stored_entry kept ++ [first]).
  { rewrite constructor_pending.
    replace (stored_logs b')
      with (Some (Entries (List.map stored_entry kept))); [reflexivity |].
    unfold b', reload. simpl.
    rewrite flushLogs_offline by assumption.
    rewrite savePendingLogs_nonempty by assumption. reflexivity. }
  split; [exact E |].
  intros Hv. rewrite E.
  assert (M : forall l,
             List.Forall (fun e => JSON_value (JObj (metadata e)) = true) l ->
             List.map stored_entry l = l).
  { intros l Hl. induction Hl as [| e r He' _ IH]; [reflexivity |].
    simpl. rewrite (stored_entry_value e He'), IH. reflexivity. }
  rewrite (M kept Hv). reflexivity.
Qed.

(** A page that is offline catches an error event that has no [error]
    object, so the entry's [filename], [line], [column] and [stack] are
    undefined; after the unload and the next load the entry is back with
    its message and with [message] as its only metadata. *)
Lemma offline_backlog_round_trip_witness :
  let s := run [(WindowError (JObj [("message", JStr "boom")]), Sample.env0)]
             (constructor (Sample.boot false false) Sample.env0) in
  let b' := reload (Sample.boot false true) (flushLogs true Sample.env0 s) in
  List.map (fun e => List.map fst (metadata e)) (logQueue s)
  = [["sessionId"; "logLevel"; "environment"; "userAgent"; "screen"];
     ["message"; "filename"; "line"; "column"; "stack"]]
  /\ List.map (fun e => (message e, List.map fst (metadata e)))
       (firstn 2 (pending (constructor b' Sample.env0)))
     = List.map (fun e => (message e,
                           List.filter
                             (fun k => negb (String.eqb k "filename"
                                             || String.eqb k "line"
                                             || String.eqb k "column"
                                             || String.eqb k "stack"))
                             (List.map fst (metadata e))))
         (logQueue s).
Proof.
  intros s b'. split; [vm_compute; reflexivity |].
  unfold b'.
  rewrite (proj1 (offline_backlog_round_trip true (Sample.boot false true)
                    Sample.env0 Sample.env0 s
                    ltac:(vm_compute; reflexivity) ltac:(vm_compute; reflexivity)
                    ltac:(vm_compute; discriminate) ltac:(reflexivity))).
  vm_compute. reflexivity.
Defined.

(** X13.  A backlog that cannot be read is reported on the console and
    otherwise ignored: the logger starts with its own first entry alone,
    sends nothing, and the unreadable item is left in storage, where the
    next load will find it again. *)
Theorem unreadable_backlog_stays b env e :
  stored_logs b = Some (Unusable e) ->
  logQueue (constructor b env)
  = [logEntry Minfo (first_log b env) env (before_first_log b)]
  /\ network (constructor b env) = []
  /\ localStorage (constructor b env) = Some (Unusable e)
  /\ In (ConsoleError "Failed to load pending logs:" e)
        (console (constructor b env))
  /\ stored_logs (reload b (constructor b env)) = Some (Unusable e).
Proof.
  intros Hb.
  destruct (before_first_log_queue b) as (Q & _ & _ & L).
  rewrite Hb in Q, L.
  destruct (constructor_below_threshold b env) as (A & B & C).
  { rewrite Q. simpl. unfold LOG_BATCH_SIZE. lia. }
  rewrite C, Q, B. simpl. rewrite A, L.
  repeat split.
  rewrite constructor_first_log. unfold info, log_call.
  rewrite before_first_log_intercepted.
  assert (I : In (ConsoleError "Failed to load pending logs:" e)
                 (console (before_first_log b))).
  { unfold before_first_log, startBatchTimer, loadPendingLogs, setupInterceptors.
    simpl. rewrite Hb. simpl. left. reflexivity. }
  assert (I1 : In (ConsoleError "Failed to load pending logs:" e)
                  (console (call_original Minfo (first_log b env)
                              (before_first_log b)))).
  { unfold call_original.
    destruct (method_of (originalMethods (before_first_log b)) Minfo);
      [exact I |].
    simpl. apply in_or_app. left. exact I. }
  unfold addToQueue.
  destruct (LOG_BATCH_SIZE <=? _)%nat; [| exact I1].
  match goal with
  | |- In _ (console (flushLogs false env ?t)) =>
      assert (F : forall x, In x (console t) ->
                            In x (console (flushLogs false env t)))
  end.
  { intros x Hx.
    match goal with
    | |- In _ (console (flushLogs false env ?t)) =>
        destruct (flushLogs_cases false env t)
          as [-> | [(_ & _ & _ & ->) | [(_ & _ & _ & _ & ->)
              | [(_ & _ & _ & F & _) | (_ & _ & _ & F & _)]]]];
          try discriminate F; try exact Hx;
          destruct (savePendingLogs_cases env t)
            as [-> | [(e' & ->) | (_ & ->)]]; try exact Hx
    end.
    simpl. apply in_or_app. left. exact Hx. }
  apply F. exact I1.
Qed.

Lemma unreadable_backlog_stays_witness :
  let b := reload (Sample.boot false true)
             (set_localStorage (Some (Unusable "SyntaxError"))
                (constructor (Sample.boot false true) Sample.env0)) in
  length (logQueue (constructor b Sample.env0)) = 1%nat
  /\ localStorage (constructor b Sample.env0) = Some (Unusable "SyntaxError").
Proof.
  intros b.
  destruct (unreadable_backlog_stays b Sample.env0 "SyntaxError" eq_refl)
    as (Q & _ & L & _).
  rewrite Q, L. split; reflexivity.
Defined.

End LoggerLifecycle.

(** * [destroy], [setLevel] and the helper methods *)

Section LoggerControls.
Import JS Logger LoggerMethods LoggerState.

(** ** The batch timer *)

Lemma batchTimer_call_original m args s :
  batchTimer (call_original m args s) = batchTimer s.
Proof.
  unfold call_original. destruct (method_of (originalMethods s) m); reflexivity.
Qed.

Lemma batchTimer_log_call m args env s :
  batchTimer (log_call m args env s) = batchTimer s.
Proof.
  unfold log_call.
  destruct (method_of (log_methods s) m) as [[|]|]; try reflexivity.
  unfold addToQueue. destruct (LOG_BATCH_SIZE <=? _)%nat.
  - destruct (flushLogs_keeps false env
                (set_logQueue
                   (logQueue (call_original m args s)
                    ++ [logEntry m args env (call_original m args s)])
                   (call_original m args s))) as (_ & _ & E).
    rewrite E. simpl. apply batchTimer_call_original.
  - simpl. apply batchTimer_call_original.
Qed.

Lemma batchTimer_handle e env s :
  batchTimer (handle e env s)
  = match e with Destroy => false | _ => batchTimer s end.
Proof.
  destruct e; simpl.
  - apply batchTimer_log_call.
  - unfold setLevel, info. rewrite batchTimer_log_call. reflexivity.
  - unfold on_tick. destruct (batchTimer s) eqn:E; [| exact E].
    destruct (0 <? _)%nat; [| exact E].
    destruct (flushLogs_keeps false env s) as (_ & _ & ->). exact E.
  - unfold on_online.
    destruct (flushLogs_keeps false env
                (call_original Minfo [JStr "Connection restored"]
                   (set_isOnline true s))) as (_ & _ & ->).
    rewrite batchTimer_call_original. reflexivity.
  - unfold on_offline. rewrite batchTimer_call_original. reflexivity.
  - unfold on_beforeunload.
    destruct (flushLogs_keeps true env s) as (_ & _ & ->). reflexivity.
  - unfold on_visibilitychange. destruct hidden.
    + destruct (flushLogs_keeps false env
                  (call_original Mdebug [JStr "Page hidden - flushing logs"] s))
        as (_ & _ & ->).
      apply batchTimer_call_original.
    + apply batchTimer_call_original.
  - unfold on_window_error, error. apply batchTimer_log_call.
  - unfold on_unhandledrejection, error. apply batchTimer_log_call.
  - destruct (flushLogs_resume_keeps r env s) as (_ & _ & ->). reflexivity.
  - unfold destroy.
    destruct (flushLogs_keeps true env
                (if batchTimer s then set_batchTimer false s else s))
      as (_ & _ & ->).
    destruct (batchTimer s) eqn:E; [reflexivity | exact E].
Qed.

Lemma batchTimer_before_first_log b : batchTimer (before_first_log b) = true.
Proof. reflexivity. Qed.

(** X14.  The interval is armed by the constructor and by nothing else,
    and only [destroy] clears it.  So as long as [destroy] has not been
    called the timer runs, and once it has been called the timer never
    runs again, whatever happens later: a tick would find the state
    unchanged.  Logging itself goes on after [destroy]; entries then leave
    only through the size threshold, a connectivity or visibility event,
    or page unload. *)
Theorem timer_armed_until_destroy turns :
  (forall b env,
      (forall env', ~ In (Destroy, env') turns) ->
      batchTimer (run turns (constructor b env)) = true)
  /\ (forall env0 s env,
        batchTimer (run turns (destroy env0 s)) = false
        /\ handle Tick env (run turns (destroy env0 s))
           = run turns (destroy env0 s)).
Proof.
  split.
  - intros b env Hno.
    assert (G : forall s, batchTimer s = true -> batchTimer (run turns s) = true).
    { induction turns as [| [e env'] rest IH]; intros s Hs; [exact Hs |].
      simpl. apply IH.
      - intros env'' Hin. apply (Hno env''). right. exact Hin.
      - rewrite batchTimer_handle. destruct e; try exact Hs.
        exfalso. apply (Hno env'). left. reflexivity. }
    apply G. rewrite constructor_first_log. unfold info.
    rewrite batchTimer_log_call. apply batchTimer_before_first_log.
  - intros env0 s env.
    assert (G : forall t, batchTimer t = false -> batchTimer (run turns t) = false).
    { induction turns as [| [e env'] rest IH]; intros t Ht; [exact Ht |].
      simpl. apply IH. rewrite batchTimer_handle. destruct e; auto. }
    assert (E : batchTimer (run turns (destroy env0 s)) = false)
      by (apply G; exact (batchTimer_handle Destroy env0 s)).
    split; [exact E |]. simpl. unfold on_tick. rewrite E. reflexivity.
Qed.

Lemma timer_armed_until_destroy_witness :
  batchTimer Sample.sending_offline = true
  /\ batchTimer
       (run [(Log Minfo [JStr "late"], Sample.env0); (Online, Sample.env0)]
          (destroy Sample.env0 Sample.sending_offline)) = false.
Proof.
  split.
  - apply (proj1 (timer_armed_until_destroy _)).
    intros env' H. simpl in H. intuition discriminate.
  - apply (proj2 (timer_armed_until_destroy _)). exact Sample.env0.
Defined.

(** ** After [setLevel] *)

Lemma log_methods_handle e env s :
  (forall l, e <> SetLevel l) -> log_methods (handle e env s) = log_methods s.
Proof.
  intros Hno. destruct e; simpl.
  - apply same_setup_log_call.
  - exfalso. apply (Hno l). reflexivity.
  - unfold on_tick. destruct (batchTimer s); [| reflexivity].
    destruct (0 <? _)%nat; [apply same_setup_flushLogs | reflexivity].
  - unfold on_online.
    etransitivity; [apply same_setup_flushLogs |].
    etransitivity; [apply same_setup_call_original | reflexivity].
  - unfold on_offline.
    etransitivity; [apply same_setup_call_original | reflexivity].
  - apply same_setup_flushLogs.
  - unfold on_visibilitychange. destruct hidden.
    + etransitivity; [apply same_setup_flushLogs |].
      apply same_setup_call_original.
    + apply same_setup_call_original.
  - apply same_setup_log_call.
  - apply same_setup_log_call.
  - apply same_setup_flushLogs_resume.
  - unfold destroy.
    etransitivity; [apply same_setup_flushLogs |].
    destruct (batchTimer s); reflexivity.
Qed.

Lemma setLevel_native l env s m :
  exists f, method_of (log_methods (setLevel l env s)) m = Native f.
Proof.
  unfold setLevel, info.
  rewrite (proj1 (same_setup_log_call Minfo _ env (log_setLevel l s))).
  unfold log_setLevel. simpl. rewrite method_of_tabulate. eauto.
Qed.

Lemma handle_native e env s :
  (forall m, exists f, method_of (log_methods s) m = Native f) ->
  forall m, exists f, method_of (log_methods (handle e env s)) m = Native f.
Proof.
  intros H m. destruct e;
    try (rewrite log_methods_handle by discriminate; apply H).
  apply setLevel_native.
Qed.

(** X15.  [setLevel] ends the collection of entries.  loglevel rebuilds
    its methods when the level changes, which discards the functions the
    constructor had put in their place, and nothing puts them back: from
    then on no call through the logger, at any level, adds an entry to the
    queue or sends anything, whatever turns came in between.  Not even the
    [Log level changed] message of [setLevel] itself is queued. *)
Theorem setLevel_ends_collection l env s turns m args env' :
  pending (setLevel l env s) = pending s
  /\ (let s' := run turns (setLevel l env s) in
      pending (log_call m args env' s') = pending s'
      /\ network (log_call m args env' s') = network s').
Proof.
  split.
  - unfold setLevel, info, log_call, log_setLevel. simpl.
    destruct (native_method l Minfo); reflexivity.
  - assert (G : forall t,
               (forall m, exists f, method_of (log_methods t) m = Native f) ->
               forall m, exists f,
                 method_of (log_methods (run turns t)) m = Native f).
    { induction turns as [| [e env''] rest IH]; intros t Ht; [exact Ht |].
      simpl. apply IH. apply handle_native. exact Ht. }
    simpl.
    destruct (G (setLevel l env s) (setLevel_native l env s) m) as (f & Hf).
    unfold log_call. rewrite Hf. destruct f; split; reflexivity.
Qed.

(** ** The helper methods *)

(** X16.  [logApiResponse] files an answer under ERROR exactly when its
    status is 400 or more, and under DEBUG otherwise; either way one
    entry is appended, whose metadata is the status and the duration with
    two decimals. *)
Theorem logApiResponse_level method url status duration env s :
  (forall m, method_of (log_methods s) m = Interceptor) ->
  exists e,
    pending (logApiResponse method url status duration env s) = pending s ++ [e]
    /\ (level e = "ERROR" <-> (400 <= status)%Z)
    /\ (level e = "DEBUG" <-> (status < 400)%Z)
    /\ message e
       = "API response: " +:+ method +:+ " " +:+ url +:+ " "
         +:+ JSON_stringify (JObj [("status", JNum status);
                                   ("duration",
                                    JStr (toFixed2 duration +:+ "ms"))])
    /\ metadata e = [("status", JNum status);
                     ("duration", JStr (toFixed2 duration +:+ "ms"))].
Proof.
  intros Hi. unfold logApiResponse.
  set (lv := if (400 <=? status)%Z then Merror else Mdebug).
  set (args := [JStr ("API response: " +:+ method +:+ " " +:+ url);
                JObj [("status", JNum status);
                      ("duration", JStr (toFixed2 duration +:+ "ms"))]]).
  destruct (log_call_effect lv args env s) as ((new & E & _ & Hnew) & _).
  exists (logEntry lv args env s).
  rewrite E, (Hnew (Hi lv)). split; [reflexivity |].
  unfold lv. destruct (400 <=? status)%Z eqn:C;
    [apply Z.leb_le in C | apply Z.leb_gt in C];
    (split; [| split; [| split]]);
    try reflexivity; simpl;
    try (split; [intros F; (exact C || lia || discriminate F)
                | intros F; (reflexivity || lia)]).
  - unfold formatMessage. simpl. rewrite !append_assoc_string. reflexivity.
  - unfold formatMessage. simpl. rewrite !append_assoc_string. reflexivity.
Qed.

Lemma logApiResponse_level_witness :
  exists e,
    pending (logApiResponse "GET" "/api/config" 400 1250 Sample.env0
               (constructor (Sample.boot false true) Sample.env0))
    = pending (constructor (Sample.boot false true) Sample.env0) ++ [e]
    /\ level e = "ERROR".
Proof.
  destruct (logApiResponse_level "GET" "/api/config" 400 1250 Sample.env0
              (constructor (Sample.boot false true) Sample.env0))
    as (e & E & (_ & L) & _).
  - intros m. destruct m; reflexivity.
  - exists e. split; [exact E | apply L; lia].
Defined.

End LoggerControls.

(** * The API client from dispatch to settlement *)

Section ApiLifecycle.
Import JS Api ApiState.

(** ** The timing table *)

Lemma request_id_nonempty clk : request_id clk <> EmptyString.
Proof. unfold request_id. destruct (string_of_Z _); discriminate. Qed.

Lemma on_request_id clk cfg c :
  requestId (fst (on_request clk cfg c)) = Some (request_id clk)
  /\ requestTimings (snd (on_request clk cfg c))
     = <[request_id clk := performance_now clk]> (requestTimings c)
  /\ effects (snd (on_request clk cfg c))
     = effects c ++ [ELog Logger.Mdebug (request_log cfg (request_id clk))].
Proof. repeat split. Qed.

Lemma take_timing_effects id now c :
  effects (snd (take_timing id now c)) = effects c.
Proof.
  unfold take_timing. destruct id as [i |]; [| reflexivity].
  destruct (String.eqb i EmptyString); [reflexivity |].
  destruct (requestTimings c !! i); reflexivity.
Qed.

Lemma take_timing_subseteq id now c :
  requestTimings (snd (take_timing id now c)) ⊆ requestTimings c.
Proof.
  unfold take_timing. destruct id as [i |]; [| reflexivity].
  destruct (String.eqb i EmptyString); [reflexivity |].
  destruct (requestTimings c !! i); [| reflexivity].
  simpl. apply delete_subseteq.
Qed.

(** The interceptor that settles a request finds the entry its dispatch
    made, whatever the table held before. *)
Lemma take_timing_on_request clk cfg c now :
  take_timing (requestId (fst (on_request clk cfg c))) now
    (snd (on_request clk cfg c))
  = ((now - performance_now clk)%Z,
     set_timings (delete (request_id clk) (requestTimings c))
       (snd (on_request clk cfg c))).
Proof.
  destruct (on_request_id clk cfg c) as (-> & T & _).
  unfold take_timing.
  destruct (String.eqb (request_id clk) EmptyString) eqn:E.
  - apply String.eqb_eq in E. destruct (request_id_nonempty clk E).
  - rewrite T, lookup_insert_eq, delete_insert_eq. reflexivity.
Qed.

Lemma classify_timings error details c :
  requestTimings (snd (classify error details c)) = requestTimings c.
Proof.
  unfold classify. destruct (response error) as [r |].
  - destruct (config error) as [cfg |];
      [destruct (is_probe cfg) |];
      destruct (500 <=? status r)%Z; try destruct (400 <=? status r)%Z;
      reflexivity.
  - destruct (request error); reflexivity.
Qed.

Lemma on_rejected_timings now error c :
  requestTimings (begun_client (on_rejected now error c))
  = requestTimings (snd (take_timing (config error ≫= requestId) now c)).
Proof.
  unfold on_rejected.
  destruct (take_timing (config error ≫= requestId) now c) as [d c1]. simpl.
  assert (K : forall e dt,
             requestTimings
               (begun_client (let '(o, c2) := classify e dt c1 in Done o c2))
             = requestTimings c1).
  { intros e dt. rewrite <- (classify_timings e dt c1).
    destruct (classify e dt c1); reflexivity. }
  destruct (response error) as [r |]; [| apply K].
  destruct (status r =? 401)%Z; [| apply K].
  destruct (config error) as [req |]; [| reflexivity].
  destruct (_retry req); [apply K | reflexivity].
Qed.

Lemma after_refresh_timings success token f c :
  requestTimings (resumed_client (after_refresh success token f c))
  = requestTimings c.
Proof.
  unfold after_refresh. destruct success; [reflexivity |].
  match goal with
  | |- context [classify ?e ?d ?c1] =>
      pose proof (classify_timings e d c1) as K;
      destruct (classify e d c1)
  end.
  simpl in *. exact K.
Qed.

Lemma on_fulfilled_timings now cfg r c :
  requestTimings (snd (on_fulfilled now cfg r c))
  = requestTimings (snd (take_timing (requestId cfg) now c)).
Proof.
  unfold on_fulfilled. destruct (take_timing (requestId cfg) now c) as [d c1].
  destruct (resp_data r); reflexivity.
Qed.

(** X17.  The timing table does not leak.  Whatever the answer is -- a
    success, a failure with or without a response, a 401 followed by a
    refresh and a second attempt, or a handler that throws -- every entry
    that [api] adds to the table while it handles a request has been
    removed when it returns: the table it leaves holds nothing that was
    not there before. *)
Theorem timing_table_never_grows fuel : forall w cfg s,
  requestTimings (client (fst (api fuel w cfg s))) ⊆ requestTimings (client s).
Proof.
  induction fuel as [| fuel IH]; intros w cfg s; [reflexivity |].
  rewrite api_S. cbv zeta.
  set (clk := clock w (turn s)).
  set (now := performance_now (clock w (S (turn s)))).
  set (sent := fst (on_request clk cfg (client s))).
  set (c1 := snd (on_request clk cfg (client s))).
  assert (T : requestTimings (snd (take_timing (requestId sent) now c1))
              ⊆ requestTimings (client s)).
  { unfold sent, c1. rewrite take_timing_on_request. simpl.
    apply delete_subseteq. }
  destruct (succeeded _) as [r |].
  - simpl. rewrite on_fulfilled_timings. exact T.
  - set (answer := exchange w (length (wire s)) sent).
    assert (R : requestTimings (begun_client (on_rejected now (error_of sent answer) c1))
                ⊆ requestTimings (client s)).
    { rewrite on_rejected_timings.
      replace (config (error_of sent answer) ≫= requestId)
        with (requestId sent) by (destruct answer; reflexivity).
      exact T. }
    destruct (on_rejected now (error_of sent answer) c1) as [o c2 | f c2];
      [exact R |].
    simpl in R.
    pose proof (after_refresh_timings (fst (refreshed w (refreshes s)))
                  (snd (refreshed w (refreshes s))) f c2) as A.
    destruct (after_refresh _ _ f c2) as [o c3 | req c3]; simpl in A.
    + simpl. rewrite A. exact R.
    + etransitivity; [apply IH |]. simpl. rewrite A. exact R.
Qed.

(** X18.  The duration reported for a successful request is the time
    between its dispatch and its settlement.  Dispatch followed by the
    success interceptor logs the request and then the response, both under
    the id given at dispatch, hands the response on unchanged, and leaves
    the table without that id. *)
Theorem response_duration_logged clk cfg c now r :
  resp_data r <> JUndefined ->
  let sent := fst (on_request clk cfg c) in
  let c1 := snd (on_request clk cfg c) in
  fst (on_fulfilled now sent r c1) = Fulfilled r
  /\ requestTimings (snd (on_fulfilled now sent r c1))
     = delete (request_id clk) (requestTimings c)
  /\ exists fields,
       effects (snd (on_fulfilled now sent r c1))
       = effects c
         ++ [ELog Logger.Mdebug (request_log cfg (request_id clk));
             ELog Logger.Mdebug
               [JStr ("API Response: " +:+ method_and_url (Some cfg));
                JObj fields]]
       /\ assoc "status" fields = JNum (status r)
       /\ assoc "duration" fields
          = JStr (toFixed2 (now - performance_now clk) +:+ "ms")
       /\ assoc "requestId" fields = JStr (request_id clk).
Proof.
  intros Hd sent c1.
  unfold on_fulfilled, sent, c1. rewrite take_timing_on_request.
  destruct (resp_data r) eqn:D; try congruence;
    (split; [reflexivity |]); (split; [reflexivity |]);
    eexists; (split; [simpl; rewrite <- app_assoc; reflexivity |]);
    repeat split.
Qed.

Lemma response_duration_logged_witness :
  exists fields,
    List.last
      (effects
         (snd (on_fulfilled 123706 (fst (on_request Requests.clock0
                                           Requests.get_config Requests.client0))
                 (Requests.http 200 (JObj [("ok", JBool true)]))
                 (snd (on_request Requests.clock0 Requests.get_config
                         Requests.client0)))))
      ELogout
    = ELog Logger.Mdebug [JStr "API Response: GET /api/config"; JObj fields]
    /\ assoc "duration" fields = JStr "2.50ms".
Proof.
  destruct (response_duration_logged Requests.clock0 Requests.get_config
              Requests.client0 123706
              (Requests.http 200 (JObj [("ok", JBool true)])))
    as (_ & _ & fields & E & _ & D & _).
  - discriminate.
  - exists fields. split; [rewrite E; reflexivity | rewrite D; reflexivity].
Defined.

End ApiLifecycle.

(** * What the API client does to a request and to its failure *)

Section ApiOutcomes.
Import JS Api ApiState.

(** X19.  The request interceptor changes two things of a request and
    nothing else: it gives it an id, and, when the method is [get], it
    adds the parameter [_t] with the current time.  The parameters the
    caller gave are kept, except a [_t] of the caller's own, which is
    replaced; a request with another method keeps its parameters as they
    are.  Method, URL, body, headers and the retry mark pass through. *)
Theorem on_request_touches_only_id_and_t clk cfg c :
  let sent := fst (on_request clk cfg c) in
  method sent = method cfg /\ url sent = url cfg /\ data sent = data cfg
  /\ headers sent = headers cfg /\ _retry sent = _retry cfg
  /\ requestId sent = Some (request_id clk)
  /\ (method cfg <> Some "get" -> params sent = params cfg)
  /\ (method cfg = Some "get" ->
      get (params sent) "_t" = JNum (Date_now clk)
      /\ forall k, k <> "_t" ->
                   get (params sent) k
                   = assoc k (Logger.own_fields (params cfg))).
Proof.
  intros sent. unfold sent, on_request. simpl.
  repeat (split; [reflexivity |]). split.
  - intros Hm. destruct (method cfg) as [m |]; [| reflexivity].
    destruct (String.eqb m "get") eqn:E; [| reflexivity].
    apply String.eqb_eq in E. congruence.
  - intros ->. simpl. split.
    + apply assoc_set_field_eq.
    + intros k Hk. apply assoc_set_field_ne. congruence.
Qed.

Lemma on_request_touches_only_id_and_t_witness :
  let cfg := {| method := Some "get"; url := Some "/api/logs";
                params := JObj [("page", JNum 2); ("_t", JNum 1)];
                data := JUndefined; headers := []; requestId := None;
                _retry := false |} in
  let sent := fst (on_request Requests.clock0 cfg Requests.client0) in
  get (params sent) "_t" = JNum 1714557600000
  /\ get (params sent) "page" = JNum 2.
Proof.
  intros cfg sent.
  destruct (on_request_touches_only_id_and_t Requests.clock0 cfg Requests.client0)
    as (_ & _ & _ & _ & _ & _ & _ & H).
  destruct (H eq_refl) as (T & K).
  split; [exact T |]. unfold sent. rewrite K by discriminate. reflexivity.
Defined.

(** ** Failures *)

Lemma on_rejected_classified now error c :
  (forall r, response error = Some r ->
             status r = 401%Z ->
             exists cfg, config error = Some cfg /\ _retry cfg = true) ->
  on_rejected now error c
  = let '(duration, c1) := take_timing (config error ≫= requestId) now c in
    let '(o, c2) := classify error (errorDetails error duration) c1 in
    Done o c2.
Proof.
  intros H. unfold on_rejected.
  destruct (take_timing _ _ _) as [d c1].
  destruct (response error) as [r |]; [| reflexivity].
  destruct (status r =? 401)%Z eqn:E; [| reflexivity].
  apply Z.eqb_eq in E. destruct (H r eq_refl E) as (cfg & -> & ->).
  reflexivity.
Qed.

(** X20.  A failure that carries a response below 500 and does not start
    a refresh -- any status but 401, or a 401 for a request already
    retried -- is rejected to the caller after at most one log line, at
    WARN, written when the status is 400 or more: a response below 400
    that axios treats as a failure is not logged at all.  The notification
    follows the same rule as for the 5xx class: shown unless the URL
    contains [/auth/status]. *)
Theorem client_error_handling now error c r cfg :
  response error = Some r -> config error = Some cfg ->
  (status r < 500)%Z ->
  status r <> 401%Z \/ _retry cfg = true ->
  let duration := fst (take_timing (requestId cfg) now c) in
  exists c',
    on_rejected now error c = Done (RejectedWith error) c'
    /\ effects c'
       = effects c
         ++ (if (400 <=? status r)%Z
             then [ELog Logger.Mwarn
                     [JStr ("API Client Error: " +:+ method_and_url (Some cfg));
                      JObj (errorDetails error duration)]]
             else [])
         ++ (if is_probe cfg then [] else [EToast (notification r)]).
Proof.
  intros Hr Hc Hs H401 duration.
  rewrite on_rejected_classified.
  - rewrite Hc. simpl. fold duration.
    pose proof (take_timing_effects (requestId cfg) now c) as Et.
    destruct (take_timing (requestId cfg) now c) as [d c1].
    simpl in Et. subst duration. simpl.
    unfold classify. rewrite Hr, Hc.
    replace (500 <=? status r)%Z with false by (symmetry; apply Z.leb_gt; lia).
    destruct (400 <=? status r)%Z; destruct (is_probe cfg);
      simpl; eexists; (split; [reflexivity |]); simpl; rewrite Et;
      rewrite <- ?app_assoc, ?app_nil_r; reflexivity.
  - intros r' Hr' Hs'. rewrite Hr in Hr'. injection Hr' as <-.
    exists cfg. split; [exact Hc |]. destruct H401; [contradiction | assumption].
Qed.

Lemma client_error_handling_witness :
  exists c',
    on_rejected 0%Z (Requests.failure Requests.get_config 304) Requests.client0
    = Done (RejectedWith (Requests.failure Requests.get_config 304)) c'
    /\ effects c' = [EToast (JStr "boom")].
Proof.
  destruct (client_error_handling 0%Z (Requests.failure Requests.get_config 304)
              Requests.client0
              (Requests.http 304 (JObj [("detail", JStr "boom")]))
              Requests.get_config eq_refl eq_refl) as (c' & E & F).
  - simpl. lia.
  - left. simpl. lia.
  - exists c'. split; [exact E |]. rewrite F. reflexivity.
Defined.

(** X21.  A failure without a response is always logged at ERROR and
    always notified, then rejected to the caller.  The exemption of the
    status probe does not apply here: when the server cannot be reached,
    the probe's failure is notified like any other.  The text tells a
    request that was sent from one that was not. *)
Theorem unanswered_always_notified now error c :
  response error = None ->
  exists label details,
    on_rejected now error c
    = Done (RejectedWith error)
        {| requestTimings
             := requestTimings
                  (snd (take_timing (config error ≫= requestId) now c));
           effects
             := effects c
                ++ [ELog Logger.Merror [JStr label; JObj details];
                    EToast
                      (JStr (if request error
                             then "No response from server. Please check your connection."
                             else "An unexpected error occurred"))] |}
    /\ assoc "message" details = JStr (message error)
    /\ assoc "status" details = JUndefined.
Proof.
  intros Hr. unfold on_rejected.
  pose proof (take_timing_effects (config error ≫= requestId) now c) as Et.
  destruct (take_timing _ _ _) as [d c1]. simpl in Et.
  rewrite Hr. unfold classify. rewrite Hr.
  destruct (request error); do 2 eexists;
    (split; [unfold emit; simpl; rewrite Et, <- app_assoc; reflexivity |]);
    split; unfold errorDetails; simpl; rewrite ?Hr; reflexivity.
Qed.

Lemma unanswered_always_notified_witness :
  exists c',
    on_rejected 0%Z
      (error_of Requests.probe_config (Unanswered "Network Error" JUndefined))
      Requests.client0
    = Done (RejectedWith
              (error_of Requests.probe_config
                 (Unanswered "Network Error" JUndefined))) c'
    /\ List.last (effects c') ELogout
       = EToast (JStr "No response from server. Please check your connection.").
Proof.
  destruct (unanswered_always_notified 0%Z
              (error_of Requests.probe_config
                 (Unanswered "Network Error" JUndefined))
              Requests.client0 eq_refl) as (label & details & E & _).
  eexists. split; [exact E |]. simpl. reflexivity.
Defined.

(** X22.  When the refresh fails, the handler that asked for it logs the
    failure at WARN, logs the user out and sends the browser to [/login],
    in that order, and then treats the 401 like any client error: one
    more WARN line, a notification unless the URL is the status probe's,
    and the rejection of the original error, now marked as retried. *)
Theorem failed_refresh_logs_out now error c f c1 token :
  on_rejected now error c = AtImport f c1 ->
  exists cfg r,
    config (frame_error f) = Some cfg /\ _retry cfg = true
    /\ response (frame_error f) = Some r /\ status r = 401%Z
    /\ exists c2,
         after_refresh false token f c1
         = Finished (RejectedWith (frame_error f)) c2
         /\ effects c2
            = effects c1
              ++ [ELog Logger.Mwarn [JStr "Token refresh failed, logging out user"];
                  ELogout;
                  ENavigate "/login";
                  ELog Logger.Mwarn
                    [JStr ("API Client Error: " +:+ method_and_url (Some cfg));
                     JObj (frame_details f)]]
              ++ (if is_probe cfg then [] else [EToast (notification r)]).
Proof.
  intros E. apply on_rejected_AtImport in E.
  destruct E as (req & r & Hc & _ & Hr & Hs & _ & Hf).
  exists (set_retry req), r.
  rewrite Hf. simpl. rewrite Hr.
  repeat (split; [reflexivity || exact Hs |]).
  unfold after_refresh, classify. rewrite Hf. simpl. rewrite Hr, Hs. simpl.
  destruct (is_probe (set_retry req)); simpl; eexists;
    (split; [reflexivity |]); simpl;
    rewrite <- !app_assoc; reflexivity.
Qed.

Lemma failed_refresh_logs_out_witness :
  exists f c1 c2,
    on_rejected 0%Z (Requests.failure Requests.get_config 401) Requests.client0
    = AtImport f c1
    /\ after_refresh false JNull f c1
       = Finished (RejectedWith (frame_error f)) c2
    /\ length (effects c2) = 6%nat.
Proof.
  destruct (on_rejected 0%Z (Requests.failure Requests.get_config 401)
              Requests.client0) as [o c1 | f c1] eqn:E;
    [vm_compute in E; discriminate E |].
  destruct (failed_refresh_logs_out _ _ _ f c1 JNull E)
    as (cfg & r & Hc & _ & _ & _ & c2 & A & F).
  exists f, c1, c2. split; [reflexivity |]. split; [exact A |].
  rewrite F. vm_compute in E. injection E as <- <-. simpl in Hc.
  injection Hc as <-. reflexivity.
Defined.

(** ** No failure is passed off as a success *)

Lemma classify_outcome error details c :
  forall r, fst (classify error details c) <> Fulfilled r.
Proof.
  intros r. unfold classify.
  destruct (response error); [destruct (config error) |
                              destruct (request error)];
    simpl; discriminate.
Qed.

Lemma on_rejected_outcome now error c o c' :
  on_rejected now error c = Done o c' -> forall r, o <> Fulfilled r.
Proof.
  unfold on_rejected. destruct (take_timing _ _ _) as [d c1].
  assert (K : forall e dt,
             (let '(o0, c2) := classify e dt c1 in Done o0 c2) = Done o c' ->
             forall r, o <> Fulfilled r).
  { intros e dt. pose proof (classify_outcome e dt c1) as N.
    destruct (classify e dt c1) as [o0 c2]. simpl in N.
    intros Eq. injection Eq as <- _. exact N. }
  destruct (response error) as [r0 |]; [| apply K].
  destruct (status r0 =? 401)%Z; [| apply K].
  destruct (config error) as [req |].
  - destruct (_retry req); simpl; [apply K | discriminate].
  - intros Eq. injection Eq as <- _. discriminate.
Qed.

(** X23.  The caller of [api] sees a response only when the server gave
    one with a 2xx status to a request that was put on the wire: no
    interceptor turns a failure into a success, neither on the first
    attempt nor on the retry.  Every other exchange ends in a rejection or
    in an exception. *)
Theorem success_only_from_2xx fuel : forall w cfg s s' r,
  api fuel w cfg s = (s', Some (Fulfilled r)) ->
  validateStatus (status r) = true
  /\ exists k sent,
       nth_error (wire s') k = Some sent
       /\ exchange w k sent = Answered r.
Proof.
  induction fuel as [| fuel IH]; intros w cfg s s' r; [discriminate |].
  rewrite api_S. cbv zeta.
  set (sent := fst (on_request (clock w (turn s)) cfg (client s))).
  destruct (succeeded (exchange w (length (wire s)) sent)) as [r0 |] eqn:Hs.
  - intros E. injection E as <- Eo.
    unfold succeeded in Hs.
    destruct (exchange w (length (wire s)) sent) as [r1 | |] eqn:Ex;
      try discriminate Hs.
    destruct (validateStatus (status r1)) eqn:V; [| discriminate Hs].
    injection Hs as <-.
    unfold on_fulfilled in Eo.
    destruct (take_timing _ _ _) as [d c1].
    destruct (resp_data r1); simpl in Eo; try discriminate Eo;
      injection Eo as <-; (split; [exact V |]);
      exists (length (wire s)), sent; simpl;
      (split; [rewrite nth_error_app2 by lia; rewrite Nat.sub_diag; reflexivity
              | exact Ex]).
  - destruct (on_rejected _ _ _) as [o c2 | f c2] eqn:E.
    + intros Eq. injection Eq as _ ->.
      destruct (on_rejected_outcome _ _ _ _ _ E r eq_refl).
    + destruct (after_refresh _ _ f c2) as [o c3 | req c3] eqn:A.
      * intros Eq. injection Eq as _ ->.
        unfold after_refresh in A.
        destruct (fst (refreshed w (refreshes s))); [discriminate A |].
        match type of A with
        | context [classify ?e ?d ?c0] =>
            pose proof (classify_outcome e d c0 r) as N;
            destruct (classify e d c0)
        end.
        injection A as A _. simpl in N. congruence.
      * intros Eq. apply IH in Eq. exact Eq.
Qed.

Lemma success_only_from_2xx_witness :
  exists s',
    api 2 Requests.expired_once Requests.get_config Requests.session0
    = (s', Some (Fulfilled (Requests.http 200 (JObj [("ok", JBool true)]))))
    /\ exists k sent,
         nth_error (wire s') k = Some sent
         /\ Api.exchange Requests.expired_once k sent
            = Answered (Requests.http 200 (JObj [("ok", JBool true)])).
Proof.
  destruct (api 2 Requests.expired_once Requests.get_config Requests.session0)
    as [s' o] eqn:E.
  assert (Ho : o = Some (Fulfilled (Requests.http 200 (JObj [("ok", JBool true)]))))
    by (apply (f_equal snd) in E; vm_compute in E; symmetry; exact E).
  subst o. exists s'. split; [reflexivity |].
  exact (proj2 (success_only_from_2xx 2 _ _ _ _ _ E)).
Defined.

End ApiOutcomes.

(** * The route logger *)

Section RouteLoggerProperties.
Import JS Logger LoggerState RouteLogger.

(** X24.  Each navigation adds two entries to the log, in this order:
    one at INFO with the location, one at DEBUG that names the component
    the route stands for, and [Unknown] for any path that is not one of
    the five routes exactly.  Both are queued whatever the log level is,
    as long as the logger's interceptors are in place. *)
Theorem navigation_logs_two_entries loc env s :
  (forall m, method_of (log_methods s) m = Interceptor) ->
  pending (on_navigation loc env s)
  = pending s ++ [logEntry Minfo (navigation_args loc env) env s;
                  logEntry Mdebug (component_args loc) env s]
  /\ metadata (logEntry Minfo (navigation_args loc env) env s)
     = [("pathname", JStr (pathname loc)); ("search", JStr (search loc));
        ("hash", JStr (hash loc)); ("state", state loc);
        ("timestamp", JStr (now_iso env))]
  /\ (lookup_route (pathname loc) routeMap = None ->
      message (logEntry Mdebug (component_args loc) env s)
      = "[ROUTER] Expected component for route: Unknown "
        +:+ JSON_stringify (JObj [("pathname", JStr (pathname loc))])).
Proof.
  intros Hi. split; [| split].
  - unfold on_navigation, debug, info.
    set (s1 := log_call Minfo (navigation_args loc env) env s).
    destruct (log_call_effect Minfo (navigation_args loc env) env s)
      as ((new1 & E1 & _ & N1) & _).
    destruct (log_call_effect Mdebug (component_args loc) env s1)
      as ((new2 & E2 & _ & N2) & _).
    fold s1 in E1.
    assert (Hi1 : method_of (log_methods s1) Mdebug = Interceptor).
    { unfold s1.
      rewrite (proj1 (same_setup_log_call Minfo (navigation_args loc env) env s)).
      apply Hi. }
    assert (Sid : sessionId s1 = sessionId s).
    { unfold s1.
      apply (preserved_log_call _ _ _ _ _
               (session_preserved (sessionId s) (sessionStorage s))
               (conj eq_refl eq_refl)). }
    rewrite E2, E1, (N1 (Hi Minfo)), (N2 Hi1), <- app_assoc.
    unfold logEntry at 2. rewrite Sid. reflexivity.
  - reflexivity.
  - intros Hn. unfold logEntry. cbn [message].
    unfold component_args, expectedComponent. rewrite Hn.
    unfold formatMessage. simpl.
    rewrite !append_assoc_string. reflexivity.
Qed.

Lemma navigation_logs_two_entries_witness :
  let s := constructor (Sample.boot false true) Sample.env0 in
  let loc := {| pathname := "/config/"; search := EmptyString;
                hash := EmptyString; state := JNull |} in
  length (pending (on_navigation loc Sample.env0 s)) = 3%nat.
Proof.
  intros s loc.
  rewrite (proj1 (navigation_logs_two_entries loc Sample.env0 s
                    ltac:(intros m; destruct m; reflexivity))).
  rewrite length_app. reflexivity.
Defined.

End RouteLoggerProperties.
